(** * TOKEN-WATCHER: the monitoring and sweep engine

    A shallow embedding of the server-side engine of LIGHTCHAIN-WATCHER:

    - [MemStorage]        (server/storage.ts)
    - [GasOptimizer]      (server/services/gasOptimizer.ts)
    - [TokenSweeper]      (server/services/tokenSweeper.ts)
    - [TokenDetector]     (server/services/tokenDetector.ts)
    - the routes of server/routes.ts that sweep by hand, stop in an
      emergency, add a token to monitor and serve the histories
    - the trading checks of [Web3Service] (server/services/web3Service.ts)

    JavaScript numbers are IEEE 754 binary64 values and are modelled by
    Rocq's primitive floats.  Asynchronous methods are modelled as
    computations in a state-and-exception monad [M]; every call that
    leaves the process (the web3 client, timers, the broadcast callback)
    is appended to a trace.  The ledger is an oracle [Web3Service] whose
    answers may differ at every call. *)

From Stdlib Require Import Floats ZArith Ascii String DecimalString Lia Sorted.
From stdpp Require Import base strings gmap list.

Set Warnings "-inexact-float".

Open Scope string_scope.
Open Scope list_scope.

(* ================================================================= *)
(** ** ECMAScript built-ins used by the engine *)

Module JS.

Definition is_digit (c : ascii) : bool :=
  let n := nat_of_ascii c in (48 <=? n)%nat && (n <=? 57)%nat.

Definition digit_val (c : ascii) : Z := Z.of_nat (nat_of_ascii c) - 48.

Definition is_space (c : ascii) : bool :=
  let n := nat_of_ascii c in (n =? 32)%nat || ((9 <=? n)%nat && (n <=? 13)%nat).

Definition lower_ascii (c : ascii) : ascii :=
  let n := nat_of_ascii c in
  if (65 <=? n)%nat && (n <=? 90)%nat then ascii_of_nat (n + 32) else c.

(** [String.prototype.toLowerCase] on ASCII text (addresses are
    hexadecimal ASCII). *)
Fixpoint toLowerCase (s : string) : string :=
  match s with
  | EmptyString => EmptyString
  | String c r => String (lower_ascii c) (toLowerCase r)
  end.

(** [s.startsWith(p)] *)
Fixpoint startsWith (s p : string) : bool :=
  match p, s with
  | EmptyString, _ => true
  | String a p', String b s' => if Ascii.eqb a b then startsWith s' p' else false
  | String _ _, EmptyString => false
  end.

Fixpoint ltrim (s : string) : string :=
  match s with
  | String c r => if is_space c then ltrim r else s
  | EmptyString => s
  end.

(** Reads a run of decimal digits on top of the accumulator [acc];
    returns the value, the number of digits read and the rest. *)
Fixpoint read_digits (s : string) (acc n : Z) : Z * Z * string :=
  match s with
  | String c r =>
      if is_digit c then read_digits r (10 * acc + digit_val c) (n + 1) else (acc, n, s)
  | EmptyString => (acc, n, s)
  end.

Definition read_sign (s : string) : bool * string :=
  match s with
  | String "-" r => (true, r)
  | String "+" r => (false, r)
  | _ => (false, s)
  end.

Definition read_exponent (s : string) : Z :=
  match s with
  | String c r =>
      if Ascii.eqb c "e" || Ascii.eqb c "E" then
        let '(neg, r') := read_sign r in
        let '(v, n, _) := read_digits r' 0 0 in
        if (n =? 0)%Z then 0%Z else if neg then (- v)%Z else v
      else 0%Z
  | EmptyString => 0%Z
  end.

(** The binary64 value nearest to [m * 10^e] (ties to even).  For a
    negative exponent the quotient is taken with 64 extra bits and a
    sticky bit, so that one rounding decides the result. *)
Definition round_decimal (neg : bool) (m e : Z) : float :=
  if (m =? 0)%Z then (if neg then (-0)%float else 0%float) else
  let sf :=
    if (0 <=? e)%Z then binary_normalize prec emax (m * 10 ^ e) 0 false
    else
      let d := (10 ^ (- e))%Z in
      let k := (64 + Z.log2 d)%Z in
      let q := (Z.shiftl m k / d)%Z in
      let r := (Z.shiftl m k mod d)%Z in
      binary_normalize prec emax (2 * q + (if (r =? 0)%Z then 0 else 1)) (- k - 1) false in
  let x := SF2Prim sf in
  if neg then (- x)%float else x.

(** [parseFloat]: the longest prefix that is a decimal literal; [NaN]
    when there is none. *)
Definition parseFloat (s : string) : float :=
  let '(neg, r) := read_sign (ltrim s) in
  if startsWith r "Infinity" then (if neg then neg_infinity else infinity) else
  let '(ip, ni, r1) := read_digits r 0 0 in
  let '(fp, nf, r2) :=
    match r1 with
    | String "." r' => read_digits r' ip 0
    | _ => (ip, 0%Z, r1)
    end in
  if ((ni + nf) =? 0)%Z then nan
  else round_decimal neg fp (read_exponent r2 - nf).

Definition Z_to_string (z : Z) : string := NilZero.string_of_int (Z.to_int z).

Definition pad_zeros (n : nat) (s : string) : string :=
  String.concat "" (replicate (n - String.length s) "0") +:+ s.

(** The magnitude of a finite number as [m * 2^e]. *)
Definition magnitude (x : float) : option (Z * Z) :=
  match Prim2SF x with
  | S754_zero _ => Some (0, 0)%Z
  | S754_finite _ m e => Some (Z.pos m, e)
  | _ => None
  end.

Definition of_Z (z : Z) : float := SF2Prim (binary_normalize prec emax z 0 false).

(** [Number::toString] of an integer of at least 22 digits: the
    shortest decimal that reads back as [x], in exponent notation. *)
Definition shortest (X : Z) (x : float) : string :=
  let D := String.length (Z_to_string X) in
  let try (k : nat) : option Z :=
    let scale := (10 ^ Z.of_nat (D - k))%Z in
    let lo := (X / scale)%Z in
    let hi := (lo + 1)%Z in
    let ok n := (n <? 10 ^ Z.of_nat k)%Z && (of_Z (n * scale) =? x)%float in
    match ok lo, ok hi with
    | true, true => Some (if (X - lo * scale <=? hi * scale - X)%Z then lo else hi)
    | true, false => Some lo
    | false, true => Some hi
    | false, false => None
    end in
  let fix go (fuel k : nat) : string :=
    match fuel with
    | O => Z_to_string X
    | S fuel' =>
        match try k with
        | Some n =>
            let ds := Z_to_string n in
            let body := match ds with
                        | String c (String _ _ as r) => String c (String "." r)
                        | _ => ds
                        end in
            body +:+ "e+" +:+ Z_to_string (Z.of_nat (D - 1))
        | None => go fuel' (S k)
        end
    end in
  go 17%nat 1%nat.

(** [Number.prototype.toFixed]: the decimal with [f] fraction digits
    nearest to [x], the larger one on a tie. *)
Definition toFixed (x : float) (f : nat) : string :=
  if is_nan x then "NaN" else
  match magnitude x with
  | None => if (x <? 0)%float then "-Infinity" else "Infinity"
  | Some (m, e) =>
      let sign := if (x <? 0)%float then "-" else "" in
      if (1e21 <=? abs x)%float then sign +:+ shortest (m * 2 ^ e) (abs x)
      else
        let p := (10 ^ Z.of_nat f)%Z in
        let n := if (0 <=? e)%Z then (m * 2 ^ e * p)%Z
                 else ((2 * m * p + 2 ^ (- e)) / (2 * 2 ^ (- e)))%Z in
        let ds := pad_zeros (S f) (Z_to_string n) in
        let k := (String.length ds - f)%nat in
        sign +:+ substring 0 k ds +:+
          (if (f =? 0)%nat then "" else "." +:+ substring k f ds)
  end.

(** [Math.max] of two numbers. *)
Definition Math_max (x y : float) : float :=
  if is_nan x || is_nan y then nan
  else if (x <? y)%float then y
  else if (y <? x)%float then x
  else if get_sign x then y else x.

(** [a || b] on strings: the empty string is falsy. *)
Definition or_null (s : option string) : option string :=
  match s with
  | Some "" => None
  | _ => s
  end.

End JS.

(** The decimal conversions are taken through an interface: the results
    below hold for every implementation of them; [JS.parseFloat] and
    [JS.toFixed] are used to run the model on concrete inputs. *)
Class Host := {
  parseFloat : string -> float;
  toFixed : float -> nat -> string
}.

#[export] Instance ecmascript : Host := {|
  parseFloat := JS.parseFloat;
  toFixed := JS.toFixed
|}.

(* ================================================================= *)
(** ** Data model (shared/schema.ts) *)

(** A JSON value of an activity's metadata or of a broadcast payload. *)
Inductive JsVal :=
| VStr (s : string)
| VNum (x : float)
| VId (n : nat)
| VNull.

Definition Id := nat.

Record WalletConfig := {
  wc_walletAddress : string;
  privateKey : string;
  safeWalletAddress : string;
  gasStrategy : string;
  minTransferAmount : string;
  autoSweepEnabled : bool;
  isActive : bool
}.

Record Transaction := {
  tx_id : Id;
  tx_walletAddress : string;
  tx_tokenAddress : string;
  tx_tokenSymbol : string;
  tx_tokenName : string;
  tx_amount : string;
  tx_amountUSD : option string;
  tx_txHash : option string;
  tx_status : string;
  tx_gasUsed : option string;
  tx_gasPrice : option string;
  tx_blockNumber : option string;
  tx_createdAt : Z;
  tx_completedAt : option Z
}.

Record InsertTransaction := {
  it_walletAddress : string;
  it_tokenAddress : string;
  it_tokenSymbol : string;
  it_tokenName : string;
  it_amount : string;
  it_amountUSD : option string;
  it_txHash : option string;
  it_status : option string;
  it_gasUsed : option string;
  it_gasPrice : option string;
  it_blockNumber : option string
}.

(** [Partial<Transaction>] as the engine uses it.  [ut_blockNumber] is
    [Some None] for a key that is present with the value [undefined]. *)
Record TransactionUpdates := {
  ut_txHash : option string;
  ut_status : option string;
  ut_gasUsed : option string;
  ut_blockNumber : option (option string)
}.

Record TokenDetection := {
  td_id : Id;
  td_walletAddress : string;
  td_tokenAddress : string;
  td_tokenSymbol : string;
  td_tokenName : string;
  td_balance : string;
  td_balanceUSD : option string;
  tradingEnabled : bool;
  detectedAt : Z;
  lastCheckedAt : Z
}.

Record InsertTokenDetection := {
  itd_walletAddress : string;
  itd_tokenAddress : string;
  itd_tokenName : string;
  itd_tokenSymbol : string;
  itd_balance : string;
  itd_balanceUSD : option string;
  itd_tradingEnabled : option bool
}.

(** [Partial<TokenDetection>] as the engine uses it. *)
Record DetectionUpdates := {
  ud_balance : option string;
  ud_balanceUSD : option string;
  ud_tradingEnabled : option bool
}.

Record Activity := {
  act_id : Id;
  act_walletAddress : string;
  act_type : string;
  act_title : string;
  act_description : string;
  act_status : string;
  act_metadata : list (string * JsVal);
  act_createdAt : Z
}.

Record InsertActivity := {
  ia_walletAddress : string;
  ia_type : string;
  ia_title : string;
  ia_description : string;
  ia_status : string;
  ia_metadata : list (string * JsVal)
}.

Record TokenInfo := {
  name : string;
  symbol : string
}.

Inductive Urgency := low | medium | high.

Definition urgency_text (u : Urgency) : string :=
  match u with low => "low" | medium => "medium" | high => "high" end.

(** What [web3.eth.getTransactionReceipt] yields, read as numbers. *)
Record Receipt := {
  r_gasUsed : float;
  r_gasPrice : option float;
  r_blockNumber : option string;
  r_status : bool
}.

(* ================================================================= *)
(** ** The ledger client and the trace *)

Inductive Completion (A : Type) :=
| Return (a : A)
| Throw (message : string).
Arguments Return {A} a.
Arguments Throw {A} message.

(** The web3 client as an oracle.  The first argument is the number of
    calls made so far, so that the ledger may answer the same question
    differently over time; [Throw] is a rejected promise. *)
Record Web3Service := {
  w3_getTokenBalance : nat -> string -> string -> Completion string;
  w3_getTokenInfo : nat -> string -> Completion TokenInfo;
  w3_isContractTradingEnabled : nat -> string -> bool;
  w3_getGasPrice : nat -> Completion string;
  w3_transferToken : nat -> string -> string -> string -> string -> string -> Completion string;
  w3_getTransactionReceipt : nat -> string -> Completion (option Receipt)
}.

Inductive Call :=
| CallGetTokenBalance (walletAddress tokenAddress : string)
| CallGetTokenInfo (tokenAddress : string)
| CallIsContractTradingEnabled (tokenAddress : string)
| CallGetGasPrice
| CallTransferToken (privKey tokenAddress toAddress amount gasPrice : string)
| CallGetTransactionReceipt (txHash : string).

(** What leaves the process, in the order in which it leaves: a call of
    the web3 client, a call of [sweepToken], a message to the WebSocket
    clients, a timer set or cleared, and ([EvSendJson]) the answer that
    a route sends with [res.status(...).json(...)]. *)
Inductive Event :=
| EvWeb3 (c : Call)
| EvSweepToken (walletAddress tokenAddress tokenSymbol tokenName balance : string) (u : Urgency)
| EvBroadcast (type : string) (data : list (string * JsVal)) (walletAddress : string)
| EvSetTimeout (delay : Z)
| EvSetInterval (handle : nat) (delay : Z)
| EvClearInterval (handle : nat)
| EvSendJson (status : nat) (body : list (string * JsVal)).

(* ================================================================= *)
(** ** Process state *)

Record MemStorage := {
  walletConfigs : gmap string WalletConfig;
  transactions : list Transaction;
  tokenDetections : list TokenDetection;
  activities : list Activity
}.

(** The closure of one confirmation poll: the arguments of
    [monitorTransactionReceipt] and its local counter [attempts]. *)
Record Poll := {
  p_transactionId : Id;
  p_txHash : string;
  p_walletAddress : string;
  p_attempts : nat
}.

(** A pending [setTimeout(checkReceipt, delay)]. *)
Record Timeout := {
  to_delay : Z;
  to_poll : Poll
}.

(** A live [setInterval] of [schedulePeriodicScan]: its handle, the
    wallet its callback closes over, its period and the time at which it
    fires next. *)
Record Interval := {
  iv_handle : nat;
  iv_walletAddress : string;
  iv_delay : Z;
  iv_due : Z
}.

Record State := {
  (* TokenDetector *)
  monitoringWallets : gset string;
  knownTokens : list (string * TokenInfo);
  specificTokensToMonitor : gmap string (list string);
  detectorBroadcast : bool;
  (* TokenSweeper *)
  activeSweeps : gmap string bool;
  sweeperBroadcast : bool;
  (* GasOptimizer *)
  currentNetworkLoad : float;
  (* storage *)
  storage : MemStorage;
  (* event loop *)
  intervals : list Interval;
  timeouts : list Timeout;
  (* supplies and history *)
  nextId : nat;
  calls : nat;
  now : Z;
  trace : list Event
}.

Definition with_detector (mw : gset string) (kt : list (string * TokenInfo))
    (sp : gmap string (list string)) (s : State) : State :=
  {| monitoringWallets := mw; knownTokens := kt; specificTokensToMonitor := sp;
     detectorBroadcast := detectorBroadcast s;
     activeSweeps := activeSweeps s; sweeperBroadcast := sweeperBroadcast s;
     currentNetworkLoad := currentNetworkLoad s; storage := storage s;
     intervals := intervals s; timeouts := timeouts s;
     nextId := nextId s; calls := calls s; now := now s; trace := trace s |}.

Definition with_activeSweeps (a : gmap string bool) (s : State) : State :=
  {| monitoringWallets := monitoringWallets s; knownTokens := knownTokens s;
     specificTokensToMonitor := specificTokensToMonitor s;
     detectorBroadcast := detectorBroadcast s;
     activeSweeps := a; sweeperBroadcast := sweeperBroadcast s;
     currentNetworkLoad := currentNetworkLoad s; storage := storage s;
     intervals := intervals s; timeouts := timeouts s;
     nextId := nextId s; calls := calls s; now := now s; trace := trace s |}.

Definition with_networkLoad (l : float) (s : State) : State :=
  {| monitoringWallets := monitoringWallets s; knownTokens := knownTokens s;
     specificTokensToMonitor := specificTokensToMonitor s;
     detectorBroadcast := detectorBroadcast s;
     activeSweeps := activeSweeps s; sweeperBroadcast := sweeperBroadcast s;
     currentNetworkLoad := l; storage := storage s;
     intervals := intervals s; timeouts := timeouts s;
     nextId := nextId s; calls := calls s; now := now s; trace := trace s |}.

Definition with_storage (st : MemStorage) (s : State) : State :=
  {| monitoringWallets := monitoringWallets s; knownTokens := knownTokens s;
     specificTokensToMonitor := specificTokensToMonitor s;
     detectorBroadcast := detectorBroadcast s;
     activeSweeps := activeSweeps s; sweeperBroadcast := sweeperBroadcast s;
     currentNetworkLoad := currentNetworkLoad s; storage := st;
     intervals := intervals s; timeouts := timeouts s;
     nextId := nextId s; calls := calls s; now := now s; trace := trace s |}.

Definition with_timers (ivs : list Interval) (tos : list Timeout) (s : State) : State :=
  {| monitoringWallets := monitoringWallets s; knownTokens := knownTokens s;
     specificTokensToMonitor := specificTokensToMonitor s;
     detectorBroadcast := detectorBroadcast s;
     activeSweeps := activeSweeps s; sweeperBroadcast := sweeperBroadcast s;
     currentNetworkLoad := currentNetworkLoad s; storage := storage s;
     intervals := ivs; timeouts := tos;
     nextId := nextId s; calls := calls s; now := now s; trace := trace s |}.

Definition with_nextId (n : nat) (s : State) : State :=
  {| monitoringWallets := monitoringWallets s; knownTokens := knownTokens s;
     specificTokensToMonitor := specificTokensToMonitor s;
     detectorBroadcast := detectorBroadcast s;
     activeSweeps := activeSweeps s; sweeperBroadcast := sweeperBroadcast s;
     currentNetworkLoad := currentNetworkLoad s; storage := storage s;
     intervals := intervals s; timeouts := timeouts s;
     nextId := n; calls := calls s; now := now s; trace := trace s |}.

Definition with_calls (n : nat) (s : State) : State :=
  {| monitoringWallets := monitoringWallets s; knownTokens := knownTokens s;
     specificTokensToMonitor := specificTokensToMonitor s;
     detectorBroadcast := detectorBroadcast s;
     activeSweeps := activeSweeps s; sweeperBroadcast := sweeperBroadcast s;
     currentNetworkLoad := currentNetworkLoad s; storage := storage s;
     intervals := intervals s; timeouts := timeouts s;
     nextId := nextId s; calls := n; now := now s; trace := trace s |}.

Definition with_now (t : Z) (s : State) : State :=
  {| monitoringWallets := monitoringWallets s; knownTokens := knownTokens s;
     specificTokensToMonitor := specificTokensToMonitor s;
     detectorBroadcast := detectorBroadcast s;
     activeSweeps := activeSweeps s; sweeperBroadcast := sweeperBroadcast s;
     currentNetworkLoad := currentNetworkLoad s; storage := storage s;
     intervals := intervals s; timeouts := timeouts s;
     nextId := nextId s; calls := calls s; now := t; trace := trace s |}.

Definition with_trace (t : list Event) (s : State) : State :=
  {| monitoringWallets := monitoringWallets s; knownTokens := knownTokens s;
     specificTokensToMonitor := specificTokensToMonitor s;
     detectorBroadcast := detectorBroadcast s;
     activeSweeps := activeSweeps s; sweeperBroadcast := sweeperBroadcast s;
     currentNetworkLoad := currentNetworkLoad s; storage := storage s;
     intervals := intervals s; timeouts := timeouts s;
     nextId := nextId s; calls := calls s; now := now s; trace := t |}.

(* ================================================================= *)
(** ** The monad of asynchronous methods *)

Definition M (A : Type) : Type := State -> Completion A * State.

Definition ret {A} (a : A) : M A := fun s => (Return a, s).

Definition bind {A B} (m : M A) (k : A -> M B) : M B :=
  fun s =>
    match m s with
    | (Return a, s') => k a s'
    | (Throw e, s') => (Throw e, s')
    end.

Definition throw {A} (e : string) : M A := fun s => (Throw e, s).

(** [try { m } catch (error) { h error.message }] *)
Definition try_catch {A} (m : M A) (h : string -> M A) : M A :=
  fun s =>
    match m s with
    | (Return a, s') => (Return a, s')
    | (Throw e, s') => h e s'
    end.

(** [try { m } finally { f }] *)
Definition try_finally {A} (m : M A) (f : M unit) : M A :=
  fun s =>
    let '(r, s') := m s in
    match f s' with
    | (Return _, s'') => (r, s'')
    | (Throw e, s'') => (Throw e, s'')
    end.

Definition gets {A} (f : State -> A) : M A := fun s => (Return (f s), s).

Definition modify (f : State -> State) : M unit := fun s => (Return tt, f s).

Declare Scope monad_scope.
Delimit Scope monad_scope with monad.
Notation "x <- m ;; k" := (bind m (fun x => k))
  (at level 100, m at next level, k at level 200, right associativity) : monad_scope.
Notation "m ;; k" := (bind m (fun _ => k))
  (at level 100, k at level 200, right associativity) : monad_scope.
Open Scope monad_scope.

(** [for (const x of l) { body x }] *)
Fixpoint for_each {A} (l : list A) (body : A -> M unit) : M unit :=
  match l with
  | [] => ret tt
  | x :: r => body x ;; for_each r body
  end.

Definition emit (e : Event) : M unit :=
  modify (fun s => with_trace (trace s ++ [e]) s).

(** [randomUUID()] and timer handles: a supply of fresh identifiers. *)
Definition fresh : M nat :=
  fun s => (Return (nextId s), with_nextId (S (nextId s)) s).

(** One call of the web3 client: the call is recorded, the oracle is
    asked at the current call count, and the count advances. *)
Definition web3 {A} (c : Call) (answer : nat -> Completion A) : M A :=
  fun s => (answer (calls s), with_calls (S (calls s)) (with_trace (trace s ++ [EvWeb3 c]) s)).

(* ================================================================= *)
(** ** MemStorage (server/storage.ts)

    Each [Map] of the store is kept as the list of its values in
    insertion order; the keys are the records' identifiers. *)

Definition set_transactions (l : list Transaction) (st : MemStorage) : MemStorage :=
  {| walletConfigs := walletConfigs st; transactions := l;
     tokenDetections := tokenDetections st; activities := activities st |}.

Definition set_tokenDetections (l : list TokenDetection) (st : MemStorage) : MemStorage :=
  {| walletConfigs := walletConfigs st; transactions := transactions st;
     tokenDetections := l; activities := activities st |}.

Definition set_activities (l : list Activity) (st : MemStorage) : MemStorage :=
  {| walletConfigs := walletConfigs st; transactions := transactions st;
     tokenDetections := tokenDetections st; activities := l |}.

Definition getWalletConfig (walletAddress : string) : M (option WalletConfig) :=
  gets (fun s => walletConfigs (storage s) !! walletAddress).

Definition createTransaction (t : InsertTransaction) : M Transaction :=
  id <- fresh ;;
  time <- gets now ;;
  let tx := {| tx_id := id;
               tx_walletAddress := it_walletAddress t;
               tx_tokenAddress := it_tokenAddress t;
               tx_tokenSymbol := it_tokenSymbol t;
               tx_tokenName := it_tokenName t;
               tx_amount := it_amount t;
               tx_amountUSD := JS.or_null (it_amountUSD t);
               tx_txHash := JS.or_null (it_txHash t);
               tx_status := default "pending" (JS.or_null (it_status t));
               tx_gasUsed := JS.or_null (it_gasUsed t);
               tx_gasPrice := JS.or_null (it_gasPrice t);
               tx_blockNumber := JS.or_null (it_blockNumber t);
               tx_createdAt := time;
               tx_completedAt := None |} in
  modify (fun s => with_storage (set_transactions (transactions (storage s) ++ [tx]) (storage s)) s) ;;
  ret tx.

(** [{ ...existing, ...updates }], then [completedAt] is stamped when the
    update says ['completed'] and no stamp is there yet. *)
Definition merge_transaction (u : TransactionUpdates) (time : Z) (e : Transaction) : Transaction :=
  {| tx_id := tx_id e;
     tx_walletAddress := tx_walletAddress e;
     tx_tokenAddress := tx_tokenAddress e;
     tx_tokenSymbol := tx_tokenSymbol e;
     tx_tokenName := tx_tokenName e;
     tx_amount := tx_amount e;
     tx_amountUSD := tx_amountUSD e;
     tx_txHash := match ut_txHash u with Some h => Some h | None => tx_txHash e end;
     tx_status := default (tx_status e) (ut_status u);
     tx_gasUsed := match ut_gasUsed u with Some g => Some g | None => tx_gasUsed e end;
     tx_gasPrice := tx_gasPrice e;
     tx_blockNumber := default (tx_blockNumber e) (ut_blockNumber u);
     tx_createdAt := tx_createdAt e;
     tx_completedAt :=
       match ut_status u, tx_completedAt e with
       | Some st, None => if String.eqb st "completed" then Some time else None
       | _, c => c
       end |}.

Definition updateTransaction (id : Id) (u : TransactionUpdates) : M (option Transaction) :=
  existing <- gets (fun s => List.find (fun tx => (tx_id tx =? id)%nat) (transactions (storage s))) ;;
  match existing with
  | None => ret None
  | Some e =>
      time <- gets now ;;
      modify (fun s => with_storage (set_transactions
                (map (fun tx => if (tx_id tx =? id)%nat then merge_transaction u time tx else tx)
                     (transactions (storage s))) (storage s)) s) ;;
      ret (Some (merge_transaction u time e))
  end.

Definition getTransactionsByStatus (status : string) : M (list Transaction) :=
  gets (fun s => List.filter (fun tx => String.eqb (tx_status tx) status)
                             (transactions (storage s))).

(** [Array.prototype.sort] with the comparator [b.detectedAt - a.detectedAt]:
    a stable sort, newest first. *)
Fixpoint insert_newest_first (d : TokenDetection) (l : list TokenDetection) : list TokenDetection :=
  match l with
  | [] => [d]
  | x :: r => if (detectedAt d <? detectedAt x)%Z then x :: insert_newest_first d r
              else d :: l
  end.

Definition sort_newest_first (l : list TokenDetection) : list TokenDetection :=
  foldr insert_newest_first [] l.

Definition getTokenDetections (walletAddress : string) : M (list TokenDetection) :=
  gets (fun s => sort_newest_first
                   (List.filter (fun d => String.eqb (td_walletAddress d) walletAddress)
                                (tokenDetections (storage s)))).

Definition createTokenDetection (d : InsertTokenDetection) : M TokenDetection :=
  id <- fresh ;;
  time <- gets now ;;
  let det := {| td_id := id;
                td_walletAddress := itd_walletAddress d;
                td_tokenAddress := itd_tokenAddress d;
                td_tokenSymbol := itd_tokenSymbol d;
                td_tokenName := itd_tokenName d;
                td_balance := itd_balance d;
                td_balanceUSD := JS.or_null (itd_balanceUSD d);
                tradingEnabled := default false (itd_tradingEnabled d);
                detectedAt := time;
                lastCheckedAt := time |} in
  modify (fun s => with_storage (set_tokenDetections (tokenDetections (storage s) ++ [det]) (storage s)) s) ;;
  ret det.

(** [{ ...existing, ...updates, lastCheckedAt: new Date() }] *)
Definition merge_detection (u : DetectionUpdates) (time : Z) (e : TokenDetection) : TokenDetection :=
  {| td_id := td_id e;
     td_walletAddress := td_walletAddress e;
     td_tokenAddress := td_tokenAddress e;
     td_tokenSymbol := td_tokenSymbol e;
     td_tokenName := td_tokenName e;
     td_balance := default (td_balance e) (ud_balance u);
     td_balanceUSD := match ud_balanceUSD u with Some b => Some b | None => td_balanceUSD e end;
     tradingEnabled := default (tradingEnabled e) (ud_tradingEnabled u);
     detectedAt := detectedAt e;
     lastCheckedAt := time |}.

Definition updateTokenDetection (id : Id) (u : DetectionUpdates) : M (option TokenDetection) :=
  existing <- gets (fun s => List.find (fun d => (td_id d =? id)%nat) (tokenDetections (storage s))) ;;
  match existing with
  | None => ret None
  | Some e =>
      time <- gets now ;;
      modify (fun s => with_storage (set_tokenDetections
                (map (fun d => if (td_id d =? id)%nat then merge_detection u time d else d)
                     (tokenDetections (storage s))) (storage s)) s) ;;
      ret (Some (merge_detection u time e))
  end.

Definition createActivity (a : InsertActivity) : M Activity :=
  id <- fresh ;;
  time <- gets now ;;
  let act := {| act_id := id;
                act_walletAddress := ia_walletAddress a;
                act_type := ia_type a;
                act_title := ia_title a;
                act_description := ia_description a;
                act_status := ia_status a;
                act_metadata := ia_metadata a;
                act_createdAt := time |} in
  modify (fun s => with_storage (set_activities (activities (storage s) ++ [act]) (storage s)) s) ;;
  ret act.

(* ================================================================= *)
(** ** Timers *)

Definition setTimeout (delay : Z) (p : Poll) : M unit :=
  emit (EvSetTimeout delay) ;;
  modify (fun s => with_timers (intervals s)
                     (timeouts s ++ [{| to_delay := delay; to_poll := p |}]) s).

Definition setInterval (walletAddress : string) (delay : Z) : M nat :=
  h <- fresh ;;
  emit (EvSetInterval h delay) ;;
  modify (fun s => with_timers
                     (intervals s ++ [{| iv_handle := h; iv_walletAddress := walletAddress;
                                         iv_delay := delay; iv_due := (now s + delay)%Z |}])
                     (timeouts s) s) ;;
  ret h.

Definition clearInterval (h : nat) : M unit :=
  emit (EvClearInterval h) ;;
  modify (fun s => with_timers
                     (List.filter (fun iv => negb (iv_handle iv =? h)%nat) (intervals s))
                     (timeouts s) s).

(* ================================================================= *)
(** ** GasOptimizer (server/services/gasOptimizer.ts) *)

Record GasStrategy := {
  gs_name : string;
  multiplier : float;
  gs_description : string
}.

Definition standard : GasStrategy :=
  {| gs_name := "Standard"; multiplier := 1.0; gs_description := "30-50 gwei - Normal priority" |}.

(** [initializeStrategies]; the map is never written again. *)
Definition strategies : list (string * GasStrategy) :=
  [ ("slow", {| gs_name := "Slow"; multiplier := 0.8;
                gs_description := "20-30 gwei - Lower priority" |});
    ("standard", standard);
    ("fast", {| gs_name := "Fast"; multiplier := 1.3;
                gs_description := "50+ gwei - High priority" |}) ].

Definition strategies_get (key : string) : option GasStrategy :=
  option_map snd (List.find (fun kv => String.eqb (fst kv) key) strategies).

(** [this.strategies.get(strategy) || this.strategies.get('standard')!] *)
Definition selectedStrategy (strategy : string) : GasStrategy :=
  match strategies_get strategy with
  | Some g => g
  | None => default standard (strategies_get "standard")
  end.

(** The arithmetic of [getOptimalGasPrice] between reading the base
    price and rendering the result. *)
Definition optimalGasPrice (baseGasPriceGwei : float) (strategy : string)
    (urgency : Urgency) (networkLoad : float) : float :=
  let gasPrice := (baseGasPriceGwei * multiplier (selectedStrategy strategy))%float in
  let gasPrice :=
    match urgency with
    | high => (gasPrice * 1.2)%float
    | low => (gasPrice * 0.9)%float
    | medium => gasPrice
    end in
  let gasPrice :=
    if (80 <? networkLoad)%float then (gasPrice * 1.1)%float
    else if (networkLoad <? 30)%float then (gasPrice * 0.95)%float
    else gasPrice in
  let minGasPrice := 1%float in
  JS.Math_max gasPrice minGasPrice.

(* ================================================================= *)
(** ** TokenSweeper: the price table *)

Definition mockPrices : list (string * float) :=
  [ ("0xa0b86a33e6441b56c6b15fb8b0beaddd8f1af6c4", 1.00%float);
    ("0x514910771af9ca656af840dff83e8264ecf986ca", 14.50%float);
    ("0x1f9840a85d5af5bf1d1762f925bdaddc4201f984", 6.80%float);
    ("0x2260fac5e5542a773aa44fbcfedf7c193bc2c599", 45000%float);
    ("0x7fc66500c84a76ad7e9c93437bfc5ac33e2ddae9", 85.30%float) ].

(** The names that an object literal inherits from [Object.prototype]:
    functions, and the object [__proto__]. *)
Definition objectPrototype : list string :=
  [ "constructor"; "__defineGetter__"; "__defineSetter__"; "hasOwnProperty";
    "__lookupGetter__"; "__lookupSetter__"; "isPrototypeOf"; "propertyIsEnumerable";
    "toString"; "valueOf"; "__proto__"; "toLocaleString" ].

(** [table[key]] on an object literal whose own keys are addresses and
    whose own values are numbers: the own value, or else what the
    prototype has under that name, or else [undefined] ([None]).  An
    inherited value is a function or an object; it is truthy, and as a
    factor of a product it is [NaN], which stands for it here. *)
Definition table_get (table : list (string * float)) (key : string) : option float :=
  match List.find (fun kv => String.eqb (fst kv) key) table with
  | Some kv => Some (snd kv)
  | None => if existsb (String.eqb key) objectPrototype then Some nan else None
  end.

(** [`${walletAddress}-${tokenAddress}`] *)
Definition sweepKey (walletAddress tokenAddress : string) : string :=
  walletAddress +:+ "-" +:+ tokenAddress.

Section Engine.

Context `{Host} (W : Web3Service).

(* --------------------------------------------------------------- *)
(** *** GasOptimizer *)

Definition updateNetworkLoad : M unit :=
  try_catch
    (currentGasPrice <- web3 CallGetGasPrice (w3_getGasPrice W) ;;
     let gasPriceGwei := parseFloat currentGasPrice in
     modify (with_networkLoad
               (if (gasPriceGwei <? 20)%float then 25%float
                else if (gasPriceGwei <? 50)%float then 50%float
                else if (gasPriceGwei <? 100)%float then 75%float
                else 95%float)))
    (fun _ => ret tt).

Definition getOptimalGasPrice (strategy : string) (urgency : Urgency) : M string :=
  try_catch
    (baseGasPrice <- web3 CallGetGasPrice (w3_getGasPrice W) ;;
     let baseGasPriceGwei := parseFloat baseGasPrice in
     load <- gets currentNetworkLoad ;;
     ret (toFixed (optimalGasPrice baseGasPriceGwei strategy urgency load) 2))
    (fun _ => ret "30").

Definition getRecommendedStrategy : M string :=
  load <- gets currentNetworkLoad ;;
  ret (if (load <? 30)%float then "slow"
       else if (80 <? load)%float then "fast"
       else "standard").

(* --------------------------------------------------------------- *)
(** *** TokenSweeper (server/services/tokenSweeper.ts) *)

Definition broadcastSweeper (type : string) (data : list (string * JsVal))
    (walletAddress : string) : M unit :=
  set <- gets sweeperBroadcast ;;
  if set then emit (EvBroadcast type data walletAddress) else ret tt.

Definition getTokenValueUSD (tokenAddress balance : string) : float :=
  let price := default 0%float (table_get mockPrices (JS.toLowerCase tokenAddress)) in
  (parseFloat balance * price)%float.

Definition monitorTransactionReceipt (transactionId : Id) (txHash walletAddress : string)
    : M unit :=
  setTimeout 10000 {| p_transactionId := transactionId; p_txHash := txHash;
                      p_walletAddress := walletAddress; p_attempts := 0 |}.

(** The closure [checkReceipt], run when its timeout fires. *)
Definition checkReceipt (p : Poll) : M unit :=
  try_catch
    (receipt <- web3 (CallGetTransactionReceipt (p_txHash p))
                     (fun n => w3_getTransactionReceipt W n (p_txHash p)) ;;
     match receipt with
     | Some r =>
         let gasUsed := r_gasUsed r in
         let gasPrice := default 0%float (r_gasPrice r) in
         let gasCostETH := toFixed (gasUsed * gasPrice / 1e18)%float 6 in
         let status := if r_status r then "completed" else "failed" in
         updateTransaction (p_transactionId p)
           {| ut_txHash := None; ut_status := Some status;
              ut_gasUsed := Some gasCostETH;
              ut_blockNumber := Some (r_blockNumber r) |} ;;
         broadcastSweeper "transaction_receipt"
           [ ("transactionId", VId (p_transactionId p));
             ("txHash", VStr (p_txHash p));
             ("gasUsed", VStr gasCostETH);
             ("blockNumber", from_option VStr VNull (r_blockNumber r));
             ("status", VStr status) ]
           (p_walletAddress p)
     | None =>
         let attempts := S (p_attempts p) in
         let maxAttempts := 60 in
         if (attempts <? maxAttempts)%nat then
           setTimeout 5000 {| p_transactionId := p_transactionId p; p_txHash := p_txHash p;
                              p_walletAddress := p_walletAddress p; p_attempts := attempts |}
         else ret tt
     end)
    (fun _ => ret tt).

(** The [try] block of [sweepToken]. *)
Definition sweepBody (walletAddress tokenAddress tokenSymbol tokenName balance : string)
    (urgency : Urgency) : M (option string) :=
  walletConfig <- getWalletConfig walletAddress ;;
  match walletConfig with
  | None => throw "Wallet not configured or inactive"
  | Some walletConfig =>
      if negb (isActive walletConfig) then throw "Wallet not configured or inactive" else
      let balanceUSD := getTokenValueUSD tokenAddress balance in
      let minTransferUSD := parseFloat (minTransferAmount walletConfig) in
      if (balanceUSD <? minTransferUSD)%float then ret None else
      gasPrice <- getOptimalGasPrice (gasStrategy walletConfig) urgency ;;
      transaction <- createTransaction
        {| it_walletAddress := walletAddress; it_tokenAddress := tokenAddress;
           it_tokenSymbol := tokenSymbol; it_tokenName := tokenName;
           it_amount := balance; it_amountUSD := Some (toFixed balanceUSD 2);
           it_txHash := None; it_status := Some "pending"; it_gasUsed := None;
           it_gasPrice := Some gasPrice; it_blockNumber := None |} ;;
      createActivity
        {| ia_walletAddress := walletAddress;
           ia_type := "transfer_started";
           ia_title := tokenSymbol +:+ " Auto-Sweep Started";
           ia_description := "Transferring " +:+ balance +:+ " " +:+ tokenSymbol +:+ " ($"
                               +:+ toFixed balanceUSD 2 +:+ ") to safe wallet";
           ia_status := "pending";
           ia_metadata := [ ("tokenAddress", VStr tokenAddress);
                            ("amount", VStr balance);
                            ("estimatedValueUSD", VNum balanceUSD);
                            ("gasStrategy", VStr (gasStrategy walletConfig));
                            ("urgency", VStr (urgency_text urgency)) ] |} ;;
      broadcastSweeper "sweep_initiated"
        [ ("transactionId", VId (tx_id transaction)); ("tokenSymbol", VStr tokenSymbol);
          ("amount", VStr balance); ("status", VStr "pending") ]
        walletAddress ;;
      txHash <- web3 (CallTransferToken (privateKey walletConfig) tokenAddress
                        (safeWalletAddress walletConfig) balance gasPrice)
                     (fun n => w3_transferToken W n (privateKey walletConfig) tokenAddress
                                 (safeWalletAddress walletConfig) balance gasPrice) ;;
      updateTransaction (tx_id transaction)
        {| ut_txHash := Some txHash; ut_status := Some "completed";
           ut_gasUsed := None; ut_blockNumber := None |} ;;
      createActivity
        {| ia_walletAddress := walletAddress;
           ia_type := "transfer_completed";
           ia_title := tokenSymbol +:+ " Transfer Completed";
           ia_description := "Successfully transferred " +:+ balance +:+ " " +:+ tokenSymbol
                               +:+ " to safe wallet";
           ia_status := "completed";
           ia_metadata := [ ("tokenAddress", VStr tokenAddress); ("txHash", VStr txHash);
                            ("amount", VStr balance); ("gasUsed", VStr "pending") ] |} ;;
      broadcastSweeper "sweep_completed"
        [ ("transactionId", VId (tx_id transaction)); ("txHash", VStr txHash);
          ("tokenSymbol", VStr tokenSymbol); ("amount", VStr balance);
          ("status", VStr "completed") ]
        walletAddress ;;
      monitorTransactionReceipt (tx_id transaction) txHash walletAddress ;;
      ret (Some txHash)
  end.

(** The [catch] block of [sweepToken]. *)
Definition sweepFailed (walletAddress tokenAddress tokenSymbol balance : string)
    (message : string) : M (option string) :=
  pending <- getTransactionsByStatus "pending" ;;
  match List.find (fun tx => String.eqb (tx_walletAddress tx) walletAddress
                             && String.eqb (tx_tokenAddress tx) tokenAddress) pending with
  | Some failedTx =>
      updateTransaction (tx_id failedTx)
        {| ut_txHash := None; ut_status := Some "failed";
           ut_gasUsed := None; ut_blockNumber := None |} ;;
      createActivity
        {| ia_walletAddress := walletAddress;
           ia_type := "transfer_failed";
           ia_title := tokenSymbol +:+ " Transfer Failed";
           ia_description := "Failed to transfer " +:+ balance +:+ " " +:+ tokenSymbol
                               +:+ ": " +:+ message;
           ia_status := "failed";
           ia_metadata := [ ("tokenAddress", VStr tokenAddress); ("error", VStr message);
                            ("amount", VStr balance) ] |} ;;
      broadcastSweeper "sweep_failed"
        [ ("transactionId", VId (tx_id failedTx)); ("tokenSymbol", VStr tokenSymbol);
          ("amount", VStr balance); ("status", VStr "failed"); ("error", VStr message) ]
        walletAddress
  | None => ret tt
  end ;;
  ret None.

(** [sweepToken] after the lock is taken: [try], [catch], [finally]. *)
Definition sweepAttempt (walletAddress tokenAddress tokenSymbol tokenName balance : string)
    (urgency : Urgency) : M (option string) :=
  try_finally
    (try_catch
       (sweepBody walletAddress tokenAddress tokenSymbol tokenName balance urgency)
       (sweepFailed walletAddress tokenAddress tokenSymbol balance))
    (modify (fun s => with_activeSweeps
                        (delete (sweepKey walletAddress tokenAddress) (activeSweeps s)) s)).

(** The synchronous head of [sweepToken]: the guard and the lock.
    Returns whether the lock was taken. *)
Definition sweepAcquire (walletAddress tokenAddress : string) : M bool :=
  held <- gets (fun s => activeSweeps s !! sweepKey walletAddress tokenAddress) ;;
  match held with
  | Some true => ret false
  | _ =>
      modify (fun s => with_activeSweeps
                         (<[sweepKey walletAddress tokenAddress := true]> (activeSweeps s)) s) ;;
      ret true
  end.

Definition sweepToken (walletAddress tokenAddress tokenSymbol tokenName balance : string)
    (urgency : Urgency) : M (option string) :=
  acquired <- sweepAcquire walletAddress tokenAddress ;;
  if acquired
  then sweepAttempt walletAddress tokenAddress tokenSymbol tokenName balance urgency
  else ret None.

Definition emergencyStop (walletAddress : option string) : M unit :=
  match walletAddress with
  | Some w =>
      modify (fun s => with_activeSweeps
                         (filter (fun kv => JS.startsWith (fst kv) w = false) (activeSweeps s)) s)
  | None => modify (with_activeSweeps ∅)
  end.

Definition getActiveSweepCount (walletAddress : option string) : M nat :=
  match walletAddress with
  | Some w =>
      gets (fun s => size (filter (fun kv => JS.startsWith (fst kv) w = true) (activeSweeps s)))
  | None => gets (fun s => size (activeSweeps s))
  end.

End Engine.

(* ================================================================= *)
(** ** TokenDetector (server/services/tokenDetector.ts) *)

(** [this.tokenPrices], as [updateTokenPrices] sets it while the
    detector is constructed. *)
Definition tokenPrices : list (string * float) :=
  [ ("0xa0b86a33e6441b56c6b15fb8b0beaddd8f1af6c4", 1.00%float);
    ("0x514910771af9ca656af840dff83e8264ecf986ca", 14.50%float);
    ("0x1f9840a85d5af5bf1d1762f925bdaddc4201f984", 6.80%float);
    ("0x2260fac5e5542a773aa44fbcfedf7c193bc2c599", 45000%float);
    ("0x7fc66500c84a76ad7e9c93437bfc5ac33e2ddae9", 85.30%float) ].

(** [initializeKnownTokens] *)
Definition initialKnownTokens : list (string * TokenInfo) :=
  map (fun t : string * string * string =>
         let '(address, n, sy) := t in
         (JS.toLowerCase address, {| name := n; symbol := sy |}))
    [ ("0xA0b86a33E6441b56C6B15fb8b0BeaDDD8F1aF6c4", "USD Coin", "USDC");
      ("0x514910771AF9Ca656af840dff83E8264EcF986CA", "Chainlink", "LINK");
      ("0x1f9840a85d5aF5bf1D1762F925BDADdC4201F984", "Uniswap", "UNI");
      ("0x2260FAC5E5542a773Aa44fBCfeDf7C193bc2C599", "Wrapped Bitcoin", "WBTC");
      ("0x7Fc66500c84A76Ad7e9c93437bFc5Ac33E2DDaE9", "Aave", "AAVE") ].

Definition known_get (kt : list (string * TokenInfo)) (key : string) : option TokenInfo :=
  option_map snd (List.find (fun kv => String.eqb (fst kv) key) kt).

Definition known_has (kt : list (string * TokenInfo)) (key : string) : bool :=
  existsb (fun kv => String.eqb (fst kv) key) kt.

(** [Map.prototype.set]: an existing key keeps its place. *)
Definition known_set (key : string) (v : TokenInfo) (kt : list (string * TokenInfo))
    : list (string * TokenInfo) :=
  if known_has kt key
  then map (fun kv => if String.eqb (fst kv) key then (key, v) else kv) kt
  else kt ++ [(key, v)].

Definition includes (l : list string) (x : string) : bool := existsb (String.eqb x) l.

(** [l.splice(l.indexOf(x), 1)] when [x] occurs in [l] *)
Fixpoint remove_first (x : string) (l : list string) : list string :=
  match l with
  | [] => []
  | y :: r => if String.eqb y x then r else y :: remove_first x r
  end.

(** [d => d.tokenAddress.toLowerCase() === key] *)
Definition detection_for (key : string) (d : TokenDetection) : bool :=
  String.eqb (JS.toLowerCase (td_tokenAddress d)) key.

Inductive Response :=
| Json (status : nat) (message : string) (transactionHash : option string).

Section Detector.

Context `{Host} (W : Web3Service).

Definition broadcastDetector (type : string) (data : list (string * JsVal))
    (walletAddress : string) : M unit :=
  set <- gets detectorBroadcast ;;
  if set then emit (EvBroadcast type data walletAddress) else ret tt.

(** A call of [tokenSweeper.sweepToken] from outside the sweeper; the
    invocation is recorded in the trace. *)
Definition invokeSweepToken (walletAddress tokenAddress tokenSymbol tokenName balance : string)
    (urgency : Urgency) : M (option string) :=
  emit (EvSweepToken walletAddress tokenAddress tokenSymbol tokenName balance urgency) ;;
  sweepToken W walletAddress tokenAddress tokenSymbol tokenName balance urgency.

Definition getTokenBalance (walletAddress tokenAddress : string) : M string :=
  web3 (CallGetTokenBalance walletAddress tokenAddress)
       (fun n => w3_getTokenBalance W n walletAddress tokenAddress).

Definition getTokenInfo (tokenAddress : string) : M TokenInfo :=
  web3 (CallGetTokenInfo tokenAddress) (fun n => w3_getTokenInfo W n tokenAddress).

Definition isContractTradingEnabled (tokenAddress : string) : M bool :=
  web3 (CallIsContractTradingEnabled tokenAddress)
       (fun n => Return (w3_isContractTradingEnabled W n tokenAddress)).

Definition addSpecificTokenToMonitor (walletAddress tokenAddress : string) : M unit :=
  modify (fun s =>
    let tokens := default [] (specificTokensToMonitor s !! walletAddress) in
    if negb (includes tokens (JS.toLowerCase tokenAddress)) then
      with_detector (monitoringWallets s) (knownTokens s)
        (<[walletAddress := (tokens ++ [JS.toLowerCase tokenAddress])%list]>
           (specificTokensToMonitor s)) s
    else s).

Definition removeSpecificTokenFromMonitor (walletAddress tokenAddress : string) : M unit :=
  modify (fun s =>
    let tokens := default [] (specificTokensToMonitor s !! walletAddress) in
    if includes tokens (JS.toLowerCase tokenAddress) then
      with_detector (monitoringWallets s) (knownTokens s)
        (<[walletAddress := remove_first (JS.toLowerCase tokenAddress) tokens]>
           (specificTokensToMonitor s)) s
    else s).

Definition calculateUSDValue (tokenAddress balance : string) : float :=
  let price := default 0%float (table_get tokenPrices (JS.toLowerCase tokenAddress)) in
  (parseFloat balance * price)%float.

Definition handleNewTokenDetection (walletAddress tokenAddress tokenName tokenSymbol
    balance : string) : M unit :=
  let balanceUSD := calculateUSDValue tokenAddress balance in
  createTokenDetection
    {| itd_walletAddress := walletAddress; itd_tokenAddress := tokenAddress;
       itd_tokenName := tokenName; itd_tokenSymbol := tokenSymbol;
       itd_balance := balance; itd_balanceUSD := Some (toFixed balanceUSD 2);
       itd_tradingEnabled := Some false |} ;;
  createActivity
    {| ia_walletAddress := walletAddress;
       ia_type := "token_detected";
       ia_title := tokenSymbol +:+ " Token Detected";
       ia_description := balance +:+ " " +:+ tokenSymbol +:+ " found in wallet";
       ia_status := "completed";
       ia_metadata := [ ("tokenAddress", VStr tokenAddress); ("balance", VStr balance);
                        ("balanceUSD", VNum balanceUSD) ] |} ;;
  ret tt.

Definition checkTradingStatus (walletAddress tokenAddress tokenSymbol : string) : M unit :=
  try_catch
    (enabledNow <- isContractTradingEnabled tokenAddress ;;
     existingDetections <- getTokenDetections walletAddress ;;
     match List.find (detection_for (JS.toLowerCase tokenAddress)) existingDetections with
     | Some detection =>
         if negb (tradingEnabled detection) && enabledNow then
           updateTokenDetection (td_id detection)
             {| ud_balance := None; ud_balanceUSD := None; ud_tradingEnabled := Some true |} ;;
           createActivity
             {| ia_walletAddress := walletAddress;
                ia_type := "trading_enabled";
                ia_title := tokenSymbol +:+ " Trading Enabled";
                ia_description := "Trading is now enabled for " +:+ tokenSymbol;
                ia_status := "active";
                ia_metadata := [ ("tokenAddress", VStr tokenAddress);
                                 ("tokenSymbol", VStr tokenSymbol) ] |} ;;
           walletConfig <- getWalletConfig walletAddress ;;
           if from_option autoSweepEnabled false walletConfig then
             currentBalance <- getTokenBalance walletAddress tokenAddress ;;
             invokeSweepToken walletAddress tokenAddress tokenSymbol
               (td_tokenName detection) currentBalance high ;;
             ret tt
           else ret tt
         else ret tt
     | None => ret tt
     end)
    (fun _ => ret tt).

(** The body of the loop of [scanWalletForTokens] for one known token. *)
Definition scanKnownToken (walletAddress : string) (existingDetections : list TokenDetection)
    (entry : string * TokenInfo) : M unit :=
  let '(tokenAddress, tokenInfo) := entry in
  try_catch
    (balance <- getTokenBalance walletAddress tokenAddress ;;
     let balanceNum := parseFloat balance in
     if (0 <? balanceNum)%float then
       (if negb (includes (map (fun d => JS.toLowerCase (td_tokenAddress d)) existingDetections)
                   tokenAddress) then
          handleNewTokenDetection walletAddress tokenAddress (name tokenInfo)
            (symbol tokenInfo) balance
        else
          match List.find (detection_for tokenAddress) existingDetections with
          | Some existing =>
              if negb (parseFloat (td_balance existing) =? balanceNum)%float then
                let balanceUSD := calculateUSDValue tokenAddress balance in
                updateTokenDetection (td_id existing)
                  {| ud_balance := Some balance; ud_balanceUSD := Some (toFixed balanceUSD 2);
                     ud_tradingEnabled := None |} ;;
                ret tt
              else ret tt
          | None => ret tt
          end) ;;
       checkTradingStatus walletAddress tokenAddress (symbol tokenInfo)
     else ret tt)
    (fun _ => ret tt).

Definition scanWalletForTokens (walletAddress : string) : M unit :=
  try_catch
    (existingDetections <- getTokenDetections walletAddress ;;
     known <- gets knownTokens ;;
     for_each known (scanKnownToken walletAddress existingDetections))
    (fun _ => ret tt).

(** The body of the loop of [scanSpecificTokens] for one token. *)
Definition scanSpecificToken (walletAddress tokenAddress : string) : M unit :=
  try_catch
    (known <- gets knownTokens ;;
     (if negb (known_has known tokenAddress) then
        tokenInfo <- getTokenInfo tokenAddress ;;
        modify (fun s => with_detector (monitoringWallets s)
                           (known_set tokenAddress
                              {| name := name tokenInfo; symbol := symbol tokenInfo |}
                              (knownTokens s))
                           (specificTokensToMonitor s) s)
      else ret tt) ;;
     known <- gets knownTokens ;;
     match known_get known tokenAddress with
     | None => throw "Cannot read properties of undefined"
     | Some tokenInfo =>
         balance <- getTokenBalance walletAddress tokenAddress ;;
         let balanceNum := parseFloat balance in
         if (0 <? balanceNum)%float then
           existingDetections <- getTokenDetections walletAddress ;;
           detection <-
             match List.find (detection_for tokenAddress) existingDetections with
             | None =>
                 handleNewTokenDetection walletAddress tokenAddress (name tokenInfo)
                   (symbol tokenInfo) balance ;;
                 again <- getTokenDetections walletAddress ;;
                 ret (List.find (detection_for tokenAddress) again)
             | Some detection =>
                 let balanceUSD := calculateUSDValue tokenAddress balance in
                 updateTokenDetection (td_id detection)
                   {| ud_balance := Some balance; ud_balanceUSD := Some (toFixed balanceUSD 2);
                      ud_tradingEnabled := None |} ;;
                 ret (Some detection)
             end ;;
           enabledNow <- isContractTradingEnabled tokenAddress ;;
           match detection with
           | Some detection =>
               if negb (tradingEnabled detection) && enabledNow then
                 updateTokenDetection (td_id detection)
                   {| ud_balance := None; ud_balanceUSD := None;
                      ud_tradingEnabled := Some true |} ;;
                 createActivity
                   {| ia_walletAddress := walletAddress;
                      ia_type := "trading_enabled";
                      ia_title := symbol tokenInfo +:+ " Trading Enabled!";
                      ia_description := "Trading is now active for " +:+ symbol tokenInfo
                                          +:+ ". Auto-sweep initiated.";
                      ia_status := "active";
                      ia_metadata := [ ("tokenAddress", VStr tokenAddress);
                                       ("tokenSymbol", VStr (symbol tokenInfo));
                                       ("balance", VStr balance) ] |} ;;
                 broadcastDetector "trading_enabled"
                   [ ("tokenAddress", VStr tokenAddress);
                     ("tokenSymbol", VStr (symbol tokenInfo));
                     ("tokenName", VStr (name tokenInfo));
                     ("balance", VStr balance) ]
                   walletAddress ;;
                 walletConfig <- getWalletConfig walletAddress ;;
                 if from_option autoSweepEnabled false walletConfig then
                   invokeSweepToken walletAddress tokenAddress (symbol tokenInfo)
                     (name tokenInfo) balance high ;;
                   ret tt
                 else ret tt
               else ret tt
           | None => ret tt
           end
         else ret tt
     end)
    (fun _ => ret tt).

Definition scanSpecificTokens (walletAddress : string) : M unit :=
  specificTokens <- gets (fun s => specificTokensToMonitor s !! walletAddress) ;;
  match specificTokens with
  | None | Some [] => ret tt
  | Some tokens => for_each tokens (scanSpecificToken walletAddress)
  end.

Definition schedulePeriodicScan (walletAddress : string) : M unit :=
  setInterval walletAddress 15000 ;;
  ret tt.

Definition startMonitoring (walletAddress : string) : M unit :=
  modify (fun s => with_detector (monitoringWallets s ∪ {[ JS.toLowerCase walletAddress ]})
                     (knownTokens s) (specificTokensToMonitor s) s) ;;
  scanWalletForTokens walletAddress ;;
  schedulePeriodicScan walletAddress.

Definition stopMonitoring (walletAddress : string) : M unit :=
  modify (fun s => with_detector (monitoringWallets s ∖ {[ JS.toLowerCase walletAddress ]})
                     (knownTokens s) (specificTokensToMonitor s) s).

(** The callback that [schedulePeriodicScan] hands to [setInterval],
    in two parts: the synchronous head, which tells whether a scan is
    started, and the scan that the callback then awaits. *)
Definition periodicScanHead (iv : Interval) : M bool :=
  monitored <- gets (fun s => bool_decide
                       (JS.toLowerCase (iv_walletAddress iv) ∈ monitoringWallets s)) ;;
  if negb monitored then clearInterval (iv_handle iv) ;; ret false
  else ret true.

Definition periodicScanBody (iv : Interval) : M unit :=
  try_catch
    (scanWalletForTokens (iv_walletAddress iv) ;;
     scanSpecificTokens (iv_walletAddress iv))
    (fun _ => ret tt).

Definition periodicScan (iv : Interval) : M unit :=
  started <- periodicScanHead iv ;;
  if started then periodicScanBody iv else ret tt.

Definition addAndMonitorSpecificToken (walletAddress tokenAddress : string) : M bool :=
  try_catch
    (addSpecificTokenToMonitor walletAddress tokenAddress ;;
     tokenInfo <- getTokenInfo tokenAddress ;;
     modify (fun s => with_detector (monitoringWallets s)
                        (known_set (JS.toLowerCase tokenAddress)
                           {| name := name tokenInfo; symbol := symbol tokenInfo |}
                           (knownTokens s))
                        (specificTokensToMonitor s) s) ;;
     balance <- getTokenBalance walletAddress tokenAddress ;;
     let balanceNum := parseFloat balance in
     if (0 <? balanceNum)%float then
       existingDetections <- getTokenDetections walletAddress ;;
       match List.find (detection_for (JS.toLowerCase tokenAddress)) existingDetections with
       | None =>
           handleNewTokenDetection walletAddress tokenAddress (name tokenInfo)
             (symbol tokenInfo) balance
       | Some _ => ret tt
       end ;;
       enabledNow <- isContractTradingEnabled tokenAddress ;;
       (if enabledNow then
          walletConfig <- getWalletConfig walletAddress ;;
          if from_option autoSweepEnabled false walletConfig then
            invokeSweepToken walletAddress tokenAddress (symbol tokenInfo)
              (name tokenInfo) balance high ;;
            ret tt
          else ret tt
        else ret tt) ;;
       ret true
     else ret false)
    (fun _ => ret false).

(** [manualSweepToken] calls [this.triggerAutoSweep], a method that
    [TokenDetector] does not have: the call is a [TypeError]. *)
Definition manualSweepToken (walletAddress tokenAddress : string) : M unit :=
  detections <- getTokenDetections walletAddress ;;
  match List.find (detection_for (JS.toLowerCase tokenAddress)) detections with
  | Some detection => throw "this.triggerAutoSweep is not a function"
  | None => ret tt
  end.

(** [POST /api/wallet/:address/tokens/:tokenAddress/sweep] of
    server/routes.ts; [urgency] is [None] when the body has none. *)
Definition routeManualSweep (address tokenAddress : string) (urgency : option Urgency)
    : M Response :=
  try_catch
    (let urgency := default medium urgency in
     tokens <- getTokenDetections address ;;
     match List.find (detection_for (JS.toLowerCase tokenAddress)) tokens with
     | None => ret (Json 404 "Token not found in wallet" None)
     | Some token =>
         txHash <- invokeSweepToken address tokenAddress (td_tokenSymbol token)
                     (td_tokenName token) (td_balance token) urgency ;;
         match txHash with
         | Some h => ret (Json 200 "Token sweep initiated" (Some h))
         | None => ret (Json 400 "Failed to initiate token sweep" None)
         end
     end)
    (fun _ => ret (Json 500 "Error initiating token sweep" None)).

End Detector.

(* ================================================================= *)
(** ** The event loop

    Timers fire from the event loop.  A pending timeout may fire in any
    order with respect to the others.  An interval fires when the clock
    reaches its due time and is then due again one period later; the
    callback it starts is asynchronous, so the loop keeps the callbacks
    that have started and have not yet completed. *)

Section EventLoop.

Context `{Host} (W : Web3Service).

(** The [i]-th pending timeout fires. *)
Definition fireTimeout (i : nat) : M unit :=
  pending <- gets timeouts ;;
  match pending !! i with
  | None => ret tt
  | Some t =>
      modify (fun s => with_timers (intervals s) (delete i (timeouts s)) s) ;;
      checkReceipt W (to_poll t)
  end.

Record Loop := {
  l_state : State;
  (** interval callbacks in flight, each with the time it started *)
  l_running : list (Interval * Z)
}.

Inductive Action :=
| Elapse (t : Z)
| Fire (h : nat)
| Finish (i : nat)
| Start (walletAddress : string)
| Stop (walletAddress : string).

Definition rearm (h : nat) (s : State) : State :=
  with_timers
    (map (fun iv => if (iv_handle iv =? h)%nat
                    then {| iv_handle := iv_handle iv;
                            iv_walletAddress := iv_walletAddress iv;
                            iv_delay := iv_delay iv;
                            iv_due := (iv_due iv + iv_delay iv)%Z |}
                    else iv) (intervals s))
    (timeouts s) s.

(** One action of the loop; [None] when the action cannot happen:
    time does not run past a due interval, an interval fires only when
    it is due, and only a running callback completes. *)
Definition act (a : Action) (l : Loop) : option Loop :=
  let s := l_state l in
  match a with
  | Elapse t =>
      if bool_decide (now s <= t)%Z
         && forallb (fun iv => bool_decide (t <= iv_due iv)%Z) (intervals s)
      then Some {| l_state := with_now t s; l_running := l_running l |}
      else None
  | Fire h =>
      match List.find (fun iv => (iv_handle iv =? h)%nat) (intervals s) with
      | Some iv =>
          if bool_decide (iv_due iv = now s) then
            let '(started, s') := periodicScanHead iv (rearm h s) in
            Some {| l_state := s';
                    l_running := match started with
                                 | Return true => l_running l ++ [(iv, now s)]
                                 | _ => l_running l
                                 end |}
          else None
      | None => None
      end
  | Finish i =>
      match l_running l !! i with
      | Some (iv, _) =>
          Some {| l_state := snd (periodicScanBody W iv s);
                  l_running := delete i (l_running l) |}
      | None => None
      end
  | Start w => Some {| l_state := snd (startMonitoring W w s); l_running := l_running l |}
  | Stop w => Some {| l_state := snd (stopMonitoring w s); l_running := l_running l |}
  end.

Fixpoint run (actions : list Action) (l : Loop) : option Loop :=
  match actions with
  | [] => Some l
  | a :: rest =>
      match act a l with
      | Some l' => run rest l'
      | None => None
      end
  end.

(** Two callbacks of the same wallet are in flight. *)
Definition overlapping (l : Loop) : Prop :=
  ¬ NoDup (map (fun r => iv_walletAddress (fst r)) (l_running l)).

End EventLoop.

(* ================================================================= *)
(** ** Vocabulary of the results *)

Definition is_transfer (e : Event) : bool :=
  match e with EvWeb3 (CallTransferToken _ _ _ _ _) => true | _ => false end.

Definition is_receipt_query (e : Event) : bool :=
  match e with EvWeb3 (CallGetTransactionReceipt _) => true | _ => false end.

Definition is_sweep_invocation (e : Event) : bool :=
  match e with EvSweepToken _ _ _ _ _ _ => true | _ => false end.

Definition count {A} (f : A -> bool) (l : list A) : nat := length (List.filter f l).

(** Every run of [m] relates the state before to the state after. *)
Definition preserves {A} (R : relation State) (m : M A) : Prop :=
  forall s, R s (snd (m s)).

(** The arguments of one call of [sweepToken] besides the key. *)
Record SweepArgs := {
  a_tokenSymbol : string;
  a_tokenName : string;
  a_balance : string;
  a_urgency : Urgency
}.

Fixpoint sequence {A} (l : list (M A)) : M (list A) :=
  match l with
  | [] => ret []
  | m :: r => a <- m ;; rest <- sequence r ;; ret (a :: rest)
  end.

(** Calls of [sweepToken] for one key that overlap: the first call has
    run its synchronous head and awaits; the other calls arrive; then
    the first call resumes. *)
Definition overlappingSweeps `{Host} (W : Web3Service) (walletAddress tokenAddress : string)
    (first : SweepArgs) (others : list SweepArgs) : M (option string * list (option string)) :=
  acquired <- sweepAcquire walletAddress tokenAddress ;;
  rest <- sequence (map (fun o => sweepToken W walletAddress tokenAddress (a_tokenSymbol o)
                                    (a_tokenName o) (a_balance o) (a_urgency o)) others) ;;
  r <- (if acquired
        then sweepAttempt W walletAddress tokenAddress (a_tokenSymbol first)
               (a_tokenName first) (a_balance first) (a_urgency first)
        else ret None) ;;
  ret (r, rest).

(** A number that is neither [NaN] nor an infinity. *)
Definition finite (x : float) : Prop :=
  match Prim2SF x with
  | S754_zero _ | S754_finite _ _ _ => True
  | _ => False
  end.

Definition unchanged {A} (proj : State -> A) : relation State :=
  fun s s' => proj s' = proj s.

Definition transaction_ids (s : State) : list Id := map tx_id (transactions (storage s)).

(** The events of the trace that [f] selects. *)
Definition events (f : Event -> bool) (s : State) : list Event := List.filter f (trace s).

(** At most [n] more events of the kind [f]. *)
Definition within (f : Event -> bool) (n : nat) : relation State :=
  fun s s' => length (events f s') <= length (events f s) + n.

(** The factors of the fee price as the specification names them.  The
    multiplier of a strategy is 0.8 for slow, 1.0 for standard and 1.3
    for fast; a name that is none of the three counts as standard. *)
Definition strategyMultiplier (strategy : string) : float :=
  if String.eqb strategy "slow" then 0.8%float
  else if String.eqb strategy "fast" then 1.3%float
  else 1.0%float.

Definition urgencyMultiplier (u : Urgency) : float :=
  match u with high => 1.2%float | low => 0.9%float | medium => 1.0%float end.

Definition congestionAdjustment (networkLoad : float) : float :=
  if (80 <? networkLoad)%float then 1.1%float
  else if (networkLoad <? 30)%float then 0.95%float
  else 1.0%float.

Definition feeProduct (base : float) (strategy : string) (u : Urgency) (load : float) : float :=
  (base * strategyMultiplier strategy * urgencyMultiplier u
   * congestionAdjustment load)%float.

(** *** A concrete process and ledger, for the examples *)

Definition demoConfig : WalletConfig :=
  {| wc_walletAddress := "0xw"; privateKey := "key"; safeWalletAddress := "0xsafe";
     gasStrategy := "standard"; minTransferAmount := "10.00";
     autoSweepEnabled := true; isActive := true |}.

(** A freshly started process that knows one wallet. *)
Definition demoState : State :=
  {| monitoringWallets := ∅; knownTokens := initialKnownTokens;
     specificTokensToMonitor := ∅; detectorBroadcast := true;
     activeSweeps := ∅; sweeperBroadcast := true; currentNetworkLoad := 50%float;
     storage := {| walletConfigs := {[ "0xw" := demoConfig ]}; transactions := [];
                   tokenDetections := []; activities := [] |};
     intervals := []; timeouts := []; nextId := 0; calls := 0; now := 0%Z; trace := [] |}.

Definition LINK : string := "0x514910771af9ca656af840dff83e8264ecf986ca".

(** A ledger on which the wallet holds 100 LINK and 100 units of an
    unlisted token, every token trades, the base fee is 30 gwei,
    transfers succeed and no receipt ever arrives. *)
Definition demoLedger : Web3Service :=
  {| w3_getTokenBalance := fun _ _ t =>
       if String.eqb t LINK || String.eqb t "0xdead" then Return "100.000000"
       else Return "0.000000";
     w3_getTokenInfo := fun _ _ => Return {| name := "Token"; symbol := "TKN" |};
     w3_isContractTradingEnabled := fun _ _ => true;
     w3_getGasPrice := fun _ => Return "30";
     w3_transferToken := fun _ _ _ _ _ _ => Return "0xhash";
     w3_getTransactionReceipt := fun _ _ => Return None |}.

(** [m], run from [s], ends with a completion and a state that satisfy [Q]. *)
Definition wp {A} (m : M A) (s : State) (Q : Completion A -> State -> Prop) : Prop :=
  Q (fst (m s)) (snd (m s)).


Definition demoDetection : TokenDetection :=
  {| td_id := 0; td_walletAddress := "0xw"; td_tokenAddress := LINK;
     td_tokenSymbol := "LINK"; td_tokenName := "Chainlink";
     td_balance := "100.000000"; td_balanceUSD := Some "1450.00";
     tradingEnabled := false; detectedAt := 0; lastCheckedAt := 0 |}.

(** The process of [demoState] once the wallet's LINK has been detected. *)
Definition demoWatched : State :=
  with_nextId 1
    (with_storage (set_tokenDetections [demoDetection] (storage demoState)) demoState).

(** [demoState] while a sweep of the wallet's LINK is in progress. *)
Definition demoLocked : State :=
  with_activeSweeps {[ sweepKey "0xw" LINK := true ]} demoState.

(** Receipt queries that a pending timeout can still cause: its poll asks
    once now and is re-armed while its counter stays below 60. *)
Definition remaining (t : Timeout) : nat := Nat.max 1 (60 - p_attempts (to_poll t)).

Definition budget (s : State) : nat := sum_list_with remaining (timeouts s).

Definition receipt_queries (s : State) : nat := length (events is_receipt_query s).

(** The receipt queries for one transaction hash. *)
Definition is_receipt_query_of (txHash : string) (e : Event) : bool :=
  match e with
  | EvWeb3 (CallGetTransactionReceipt h) => String.eqb h txHash
  | _ => false
  end.

Definition receipt_queries_of (txHash : string) (s : State) : nat :=
  length (events (is_receipt_query_of txHash) s).

(** The queries for [txHash] that the pending timeouts can still cause. *)
Definition budget_of (txHash : string) (s : State) : nat :=
  sum_list_with (fun t => if String.eqb (p_txHash (to_poll t)) txHash then remaining t else 0)
    (timeouts s).

(** The pending timeout at [position] fires, [n] times over.  A poll
    that was armed last keeps its position while no other timeout fires:
    it is re-armed at the end of the queue. *)
Definition firings `{Host} (W : Web3Service) (position n : nat) : M unit :=
  for_each (repeat position n) (fireTimeout W).

(** The trace of a poll that asks [k] times and never sees a receipt. *)
Fixpoint pollTrace (txHash : string) (k : nat) : list Event :=
  match k with
  | 0 => []
  | 1 => [EvWeb3 (CallGetTransactionReceipt txHash)]
  | S k' => EvWeb3 (CallGetTransactionReceipt txHash) :: EvSetTimeout 5000 :: pollTrace txHash k'
  end.

(** *** The operations of the engine *)

Inductive Op :=
| OpStartMonitoring (walletAddress : string)
| OpStopMonitoring (walletAddress : string)
| OpPeriodicScan (iv : Interval)
| OpAddSpecificToken (walletAddress tokenAddress : string)
| OpRemoveSpecificToken (walletAddress tokenAddress : string)
| OpAddAndMonitor (walletAddress tokenAddress : string)
| OpManualSweepToken (walletAddress tokenAddress : string)
| OpRouteManualSweep (walletAddress tokenAddress : string) (urgency : option Urgency)
| OpFireTimeout (i : nat)
| OpEmergencyStop (walletAddress : option string)
| OpUpdateNetworkLoad.

(** The operations that scan a wallet: the first scan of
    [startMonitoring] and the ticks of its interval. *)
Definition is_scan (op : Op) : bool :=
  match op with
  | OpStartMonitoring _ | OpPeriodicScan _ => true
  | _ => false
  end.

Definition exec `{Host} (W : Web3Service) (op : Op) : M unit :=
  match op with
  | OpStartMonitoring w => startMonitoring W w
  | OpStopMonitoring w => stopMonitoring w
  | OpPeriodicScan iv => periodicScan W iv
  | OpAddSpecificToken w t => addSpecificTokenToMonitor w t
  | OpRemoveSpecificToken w t => removeSpecificTokenFromMonitor w t
  | OpAddAndMonitor w t => addAndMonitorSpecificToken W w t ;; ret tt
  | OpManualSweepToken w t => manualSweepToken w t
  | OpRouteManualSweep w t u => routeManualSweep W w t u ;; ret tt
  | OpFireTimeout i => fireTimeout W i
  | OpEmergencyStop w => emergencyStop w
  | OpUpdateNetworkLoad => updateNetworkLoad W
  end.

(** Operations one after the other; an operation that throws is over,
    the next one still runs. *)
Fixpoint execAll `{Host} (W : Web3Service) (ops : list Op) (s : State) : State :=
  match ops with
  | [] => s
  | op :: rest => execAll W rest (snd (exec W op s))
  end.

Definition detections (s : State) : list TokenDetection := tokenDetections (storage s).

(** [d'] is the record [d] at a later time: the same identity, and a
    flag that has not gone back to false. *)
Definition flag_le (d d' : TokenDetection) : Prop :=
  td_id d' = td_id d
  /\ td_walletAddress d' = td_walletAddress d
  /\ td_tokenAddress d' = td_tokenAddress d
  /\ (tradingEnabled d = true -> tradingEnabled d' = true).

(** The detection records of [s] are all in [s'], each later in time,
    followed by the records created since. *)
Definition detections_grow : relation State :=
  fun s s' => exists kept new,
    detections s' = kept ++ new /\ Forall2 flag_le (detections s) kept.

(** The record belongs to the pair (wallet, asset). *)
Definition same_asset (w t : string) (d : TokenDetection) : bool :=
  String.eqb (td_walletAddress d) w
  && String.eqb (JS.toLowerCase (td_tokenAddress d)) (JS.toLowerCase t).

(** The number of records of (wallet, asset) whose flag is true. *)
Definition enabled_records (w t : string) (s : State) : nat :=
  count (fun d => same_asset w t d && tradingEnabled d) (detections s).

Definition is_sweep_of (w t : string) (e : Event) : bool :=
  match e with
  | EvSweepToken w' t' _ _ _ _ =>
      String.eqb w' w && String.eqb (JS.toLowerCase t') (JS.toLowerCase t)
  | _ => false
  end.

(** The number of calls of [sweepToken] for (wallet, asset) so far. *)
Definition sweeps_of (w t : string) (s : State) : nat := length (events (is_sweep_of w t) s).

(** At least [gain] more flags of (wallet, asset) are true, and at most
    [spend] more sweeps of it were invoked. *)
Definition trade (w t : string) (gain spend : nat) : relation State :=
  fun s s' => enabled_records w t s + gain <= enabled_records w t s'
              /\ sweeps_of w t s' <= sweeps_of w t s + spend.

(** Every sweep invoked since is paid for by a flag that has turned true. *)
Definition paid (w t : string) : relation State :=
  fun s s' => sweeps_of w t s' + enabled_records w t s
              <= sweeps_of w t s + enabled_records w t s'.

(** The record that a scan of the wallet finds for the token in [s]:
    [(await storage.getTokenDetections(w)).find(d => d.tokenAddress.toLowerCase() === key)]. *)
Definition observed (walletAddress key : string) (s : State) : option TokenDetection :=
  match fst (getTokenDetections walletAddress s) with
  | Return l => List.find (detection_for key) l
  | Throw _ => None
  end.

(** *** The scheduler *)


(** What the scans of a wallet leave alone: the timers, the watched
    wallets and the clock. *)
Definition schedule (s : State) : list Interval * gset string * Z :=
  (intervals s, monitoringWallets s, now s).

(** The process of [demoState] 15 s after the wallet was watched: the
    first tick of its interval is due. *)
Definition demoTick : State :=
  with_now 15000 (snd (startMonitoring demoLedger "0xw" demoState)).

Definition demoInterval : Interval :=
  {| iv_handle := 6; iv_walletAddress := "0xw"; iv_delay := 15000; iv_due := 15000 |}.

(** The wallet is watched, and its scan of the first tick is still in
    flight when the second tick comes. *)
Definition slowScan : list Action :=
  [Start "0xw"; Elapse 15000; Fire 6; Elapse 30000; Fire 6].

(* ================================================================= *)
(** ** More of the engine *)

(** *** GasOptimizer *)

(** [shouldDelayTransaction] *)
Definition shouldDelayTransaction (gasStrategy : string) : M bool :=
  load <- gets currentNetworkLoad ;;
  if String.eqb gasStrategy "slow" && (80 <? load)%float then ret true
  else ret false.

(** *** TokenDetector *)

(** [this.specificTokensToMonitor.get(walletAddress) || []] *)
Definition specificTokens (walletAddress : string) (s : State) : list string :=
  default [] (specificTokensToMonitor s !! walletAddress).

(** *** The sweeps *)

(** The fee that [getOptimalGasPrice] quotes in [s]. *)
Definition quotedGasPrice `{Host} (W : Web3Service) (strategy : string) (urgency : Urgency)
    (s : State) : string :=
  match fst (getOptimalGasPrice W strategy urgency s) with
  | Return gasPrice => gasPrice
  | Throw _ => "30"
  end.

(** The pending transactions of (wallet, token), oldest first: the list
    that the [catch] block of [sweepToken] searches. *)
Definition pendingOf (w t : string) (s : State) : list Transaction :=
  List.filter (fun tx => String.eqb (tx_walletAddress tx) w
                         && String.eqb (tx_tokenAddress tx) t)
    (List.filter (fun tx => String.eqb (tx_status tx) "pending") (transactions (storage s))).

Definition is_timer (e : Event) : bool :=
  match e with EvSetTimeout _ => true | _ => false end.

(** *** MemStorage: the wallet configurations *)

Definition set_walletConfigs (m : gmap string WalletConfig) (st : MemStorage) : MemStorage :=
  {| walletConfigs := m; transactions := transactions st;
     tokenDetections := tokenDetections st; activities := activities st |}.

(** [Partial<WalletConfig>] *)
Record WalletConfigUpdates := {
  uc_walletAddress : option string;
  uc_privateKey : option string;
  uc_safeWalletAddress : option string;
  uc_gasStrategy : option string;
  uc_minTransferAmount : option string;
  uc_autoSweepEnabled : option bool;
  uc_isActive : option bool
}.

(** [{ ...existing, ...updates }] *)
Definition merge_config (u : WalletConfigUpdates) (e : WalletConfig) : WalletConfig :=
  {| wc_walletAddress := default (wc_walletAddress e) (uc_walletAddress u);
     privateKey := default (privateKey e) (uc_privateKey u);
     safeWalletAddress := default (safeWalletAddress e) (uc_safeWalletAddress u);
     gasStrategy := default (gasStrategy e) (uc_gasStrategy u);
     minTransferAmount := default (minTransferAmount e) (uc_minTransferAmount u);
     autoSweepEnabled := default (autoSweepEnabled e) (uc_autoSweepEnabled u);
     isActive := default (isActive e) (uc_isActive u) |}.

Definition updateWalletConfig (walletAddress : string) (u : WalletConfigUpdates)
    : M (option WalletConfig) :=
  existing <- getWalletConfig walletAddress ;;
  match existing with
  | None => ret None
  | Some e =>
      let updated := merge_config u e in
      modify (fun s => with_storage
                (set_walletConfigs (<[walletAddress := updated]> (walletConfigs (storage s)))
                   (storage s)) s) ;;
      ret (Some updated)
  end.

(** [{ isActive: false }] *)
Definition deactivate : WalletConfigUpdates :=
  {| uc_walletAddress := None; uc_privateKey := None; uc_safeWalletAddress := None;
     uc_gasStrategy := None; uc_minTransferAmount := None; uc_autoSweepEnabled := None;
     uc_isActive := Some false |}.

(** *** The emergency stop route (server/routes.ts) *)

(** [getMonitoredWallets]: the watched wallets as an array.  The array
    of the source is in insertion order, [elements] is in some order;
    the loop that runs over it ends in the same state for every order. *)
Definition getMonitoredWallets : M (list string) :=
  gets (fun s => elements (monitoringWallets s)).

(** The loop of the route over the watched wallets. *)
Definition stopWallets (monitoredWallets : list string) : M unit :=
  for_each monitoredWallets
    (fun wallet =>
       stopMonitoring wallet ;;
       updateWalletConfig wallet deactivate ;;
       ret tt).

(** [POST /api/emergency/stop]; [walletAddress] is the field of the
    request body, [None] when the body has none.  The empty string is
    falsy, for the route as for [broadcast]. *)
Definition routeEmergencyStop (walletAddress : option string) : M Response :=
  try_catch
    (match walletAddress with
     | Some (String c w) =>
         let walletAddress := String c w in
         stopMonitoring walletAddress ;;
         emergencyStop (Some walletAddress) ;;
         updateWalletConfig walletAddress deactivate ;;
         ret tt
     | _ =>
         monitoredWallets <- getMonitoredWallets ;;
         stopWallets monitoredWallets ;;
         emergencyStop None
     end ;;
     emit (EvBroadcast "emergency_stop"
             [ ("walletAddress", from_option VStr VNull walletAddress) ]
             (default "" walletAddress)) ;;
     ret (Json 200 "Emergency stop executed" None))
    (fun _ => ret (Json 500 "Error executing emergency stop" None)).

(** *** MemStorage: the reads that are sorted and cut *)

(** [Array.prototype.sort] with the comparator [b.time - a.time]: a
    stable sort, newest first. *)
Fixpoint insert_newest {A} (time : A -> Z) (x : A) (l : list A) : list A :=
  match l with
  | [] => [x]
  | y :: r => if (time x <? time y)%Z then y :: insert_newest time x r else x :: l
  end.

Definition sort_newest {A} (time : A -> Z) (l : list A) : list A :=
  foldr (insert_newest time) [] l.

(** [l.slice(0, limit)]: a negative [limit] counts from the end. *)
Definition slice_to {A} (limit : Z) (l : list A) : list A :=
  if (limit <? 0)%Z then firstn (Z.to_nat (Z.of_nat (length l) + limit)) l
  else firstn (Z.to_nat limit) l.

(** [getTransactions(walletAddress, limit = 50)] *)
Definition getTransactions (walletAddress : string) (limit : option Z) : M (list Transaction) :=
  let limit := default 50%Z limit in
  gets (fun s => slice_to limit
                   (sort_newest tx_createdAt
                      (List.filter (fun tx => String.eqb (tx_walletAddress tx) walletAddress)
                                   (transactions (storage s))))).

(** [getActivities(walletAddress, limit = 20)] *)
Definition getActivities (walletAddress : string) (limit : option Z) : M (list Activity) :=
  let limit := default 20%Z limit in
  gets (fun s => slice_to limit
                   (sort_newest act_createdAt
                      (List.filter (fun a => String.eqb (act_walletAddress a) walletAddress)
                                   (activities (storage s))))).

(** [parseInt(req.query.limit) || fallback]: [None] is [NaN]. *)
Definition limit_or (fallback : Z) (parsed : option Z) : Z :=
  match parsed with
  | None => fallback
  | Some n => if (n =? 0)%Z then fallback else n
  end.

(** [GET /api/wallet/:address/transactions] *)
Definition routeTransactions (address : string) (limit : option Z) : M (list Transaction) :=
  getTransactions address (Some (limit_or 50 limit)).

(** [GET /api/wallet/:address/activities] *)
Definition routeActivities (address : string) (limit : option Z) : M (list Activity) :=
  getActivities address (Some (limit_or 20 limit)).

(** Newest first. *)
Definition newest_first {A} (time : A -> Z) (l : list A) : Prop :=
  forall i j x y, l !! i = Some x -> l !! j = Some y -> i <= j -> (time y <= time x)%Z.

(* ================================================================= *)
(** ** Web3Service: is trading enabled? (server/services/web3Service.ts)

    [isContractTradingEnabled] asks the chain through read-only calls.
    The chain is an oracle: one answer, or a rejection, for each call
    that the four checks make. *)

Module Web3.

Record Chain := {
  (** [factory.methods.getPair(tokenA, tokenB).call()] of Uniswap V2 *)
  ch_getPair : string -> string -> Completion string;
  (** [pair.methods.getReserves().call()]: [_reserve0] and [_reserve1] *)
  ch_getReserves : string -> Completion (N * N);
  (** [factory.methods.getPool(tokenA, tokenB, fee).call()] of Uniswap V3 *)
  ch_getPool : string -> string -> Z -> Completion string;
  (** [pool.methods.liquidity().call()] *)
  ch_liquidity : string -> Completion N;
  (** the flags [tradingEnabled()], [tradingActive()] and [launched()]
      of the token contract *)
  ch_tradingEnabled : string -> Completion bool;
  ch_tradingActive : string -> Completion bool;
  ch_launched : string -> Completion bool;
  (** [web3.eth.getBlockNumber()] *)
  ch_getBlockNumber : Completion Z;
  (** [web3.eth.getPastLogs({fromBlock, toBlock: 'latest', address, topics})]:
      the number of logs *)
  ch_getPastLogs : Z -> string -> Completion nat
}.

Definition zeroAddress : string := "0x0000000000000000000000000000000000000000".
Definition WETH_ADDRESS : string := "0xC02aaA39b223FE8D0A0e5C4F27eAD9083C756Cc2".

(** [try { ... } catch (error) { return false; }] *)
Definition or_false (r : Completion bool) : bool :=
  match r with Return b => b | Throw _ => false end.

Definition cbind {A B} (r : Completion A) (k : A -> Completion B) : Completion B :=
  match r with Return a => k a | Throw e => Throw e end.

Section TradingChecks.

Context (chain : Chain).

Definition checkUniswapV2Trading (tokenAddress : string) : bool :=
  or_false
    (cbind (ch_getPair chain tokenAddress WETH_ADDRESS) (fun pairAddress =>
     if String.eqb pairAddress zeroAddress then Return false else
     cbind (ch_getReserves chain pairAddress) (fun reserves =>
     Return ((0 <? fst reserves)%N && (0 <? snd reserves)%N)))).

(** The loop over the fee tiers. *)
Fixpoint checkPools (tokenAddress : string) (fees : list Z) : Completion bool :=
  match fees with
  | [] => Return false
  | fee :: rest =>
      cbind (ch_getPool chain tokenAddress WETH_ADDRESS fee) (fun poolAddress =>
      if negb (String.eqb poolAddress zeroAddress) then
        cbind (ch_liquidity chain poolAddress) (fun liquidity =>
        if (0 <? liquidity)%N then Return true else checkPools tokenAddress rest)
      else checkPools tokenAddress rest)
  end.

Definition checkUniswapV3Trading (tokenAddress : string) : bool :=
  or_false (checkPools tokenAddress [500; 3000; 10000]%Z).

(** [result.status === 'fulfilled' && result.value === true] *)
Definition fulfilled_true (r : Completion bool) : bool :=
  match r with Return true => true | _ => false end.

Definition checkContractTradingFlag (tokenAddress : string) : bool :=
  existsb fulfilled_true
    [ ch_tradingEnabled chain tokenAddress;
      ch_tradingActive chain tokenAddress;
      ch_launched chain tokenAddress ].

Definition checkRecentTransactions (tokenAddress : string) : bool :=
  or_false
    (cbind (ch_getBlockNumber chain) (fun currentBlock =>
     let fromBlock := (currentBlock - 100)%Z in
     cbind (ch_getPastLogs chain fromBlock tokenAddress) (fun logs =>
     Return (5 <? logs)%nat))).

(** The four checks never reject, so [Promise.allSettled] finds each
    fulfilled. *)
Definition isContractTradingEnabled (tokenAddress : string) : bool :=
  existsb fulfilled_true
    [ Return (checkUniswapV2Trading tokenAddress);
      Return (checkUniswapV3Trading tokenAddress);
      Return (checkContractTradingFlag tokenAddress);
      Return (checkRecentTransactions tokenAddress) ].

End TradingChecks.

(** A fee tier shows trading when its pool exists and has liquidity. *)
Definition tier_open (chain : Chain) (tokenAddress : string) (fee : Z) : Prop :=
  exists poolAddress liquidity,
    ch_getPool chain tokenAddress WETH_ADDRESS fee = Return poolAddress
    /\ poolAddress <> zeroAddress
    /\ ch_liquidity chain poolAddress = Return liquidity
    /\ (0 < liquidity)%N.

(** A fee tier is passed over when it is answered and shows no trading. *)
Definition tier_closed (chain : Chain) (tokenAddress : string) (fee : Z) : Prop :=
  exists poolAddress,
    ch_getPool chain tokenAddress WETH_ADDRESS fee = Return poolAddress
    /\ (poolAddress = zeroAddress \/ ch_liquidity chain poolAddress = Return 0%N).

(** A node that answers nothing. *)
Definition unreachable : Chain :=
  {| ch_getPair := fun _ _ => Throw "connection refused";
     ch_getReserves := fun _ => Throw "connection refused";
     ch_getPool := fun _ _ _ => Throw "connection refused";
     ch_liquidity := fun _ => Throw "connection refused";
     ch_tradingEnabled := fun _ => Throw "connection refused";
     ch_tradingActive := fun _ => Throw "connection refused";
     ch_launched := fun _ => Throw "connection refused";
     ch_getBlockNumber := Throw "connection refused";
     ch_getPastLogs := fun _ _ => Throw "connection refused" |}.

End Web3.

(** *** The records of a wallet's tokens *)

(** What identifies the asset of a detection record: the wallet and
    the token address without regard to case. *)
Definition asset_key (d : TokenDetection) : string * string :=
  (td_walletAddress d, JS.toLowerCase (td_tokenAddress d)).

Definition asset_keys (s : State) : list (string * string) := map asset_key (detections s).

Definition lowercase (x : string) : Prop := JS.toLowerCase x = x.

(** The keys of the detector's maps, which the scans leave alone or
    extend. *)
Definition keyed (s : State) : list (string * string) * list (string * TokenInfo)
                               * gmap string (list string) :=
  (asset_keys s, knownTokens s, specificTokensToMonitor s).

(** The detector's tables are well keyed: no two detection records are
    of the same wallet and token, [knownTokens] is a map (no key twice)
    with lowercased keys, and the tokens to monitor are lowercased. *)
Definition well_keyed (s : State) : Prop :=
  List.NoDup (asset_keys s)
  /\ List.NoDup (map fst (knownTokens s))
  /\ List.Forall (fun kv => lowercase (fst kv)) (knownTokens s)
  /\ (forall w l, specificTokensToMonitor s !! w = Some l -> List.Forall lowercase l).

(** *** More ledgers and processes, for the examples *)

(** [demoLedger], but the transfers are rejected. *)
Definition demoRejecting : Web3Service :=
  {| w3_getTokenBalance := w3_getTokenBalance demoLedger;
     w3_getTokenInfo := w3_getTokenInfo demoLedger;
     w3_isContractTradingEnabled := w3_isContractTradingEnabled demoLedger;
     w3_getGasPrice := w3_getGasPrice demoLedger;
     w3_transferToken := fun _ _ _ _ _ _ => Throw "insufficient funds";
     w3_getTransactionReceipt := w3_getTransactionReceipt demoLedger |}.

(** The receipt of a transfer that was mined and reverted. *)
Definition demoReceipt : Receipt :=
  {| r_gasUsed := 52000%float; r_gasPrice := Some 30000000000%float;
     r_blockNumber := Some "19000000"; r_status := false |}.

(** [demoLedger], but every transfer has the receipt [demoReceipt]. *)
Definition demoConfirming : Web3Service :=
  {| w3_getTokenBalance := w3_getTokenBalance demoLedger;
     w3_getTokenInfo := w3_getTokenInfo demoLedger;
     w3_isContractTradingEnabled := w3_isContractTradingEnabled demoLedger;
     w3_getGasPrice := w3_getGasPrice demoLedger;
     w3_transferToken := w3_transferToken demoLedger;
     w3_getTransactionReceipt := fun _ _ => Return (Some demoReceipt) |}.

(** [demoLedger], but the wallets hold nothing. *)
Definition demoEmpty : Web3Service :=
  {| w3_getTokenBalance := fun _ _ _ => Return "0.000000";
     w3_getTokenInfo := w3_getTokenInfo demoLedger;
     w3_isContractTradingEnabled := w3_isContractTradingEnabled demoLedger;
     w3_getGasPrice := w3_getGasPrice demoLedger;
     w3_transferToken := w3_transferToken demoLedger;
     w3_getTransactionReceipt := w3_getTransactionReceipt demoLedger |}.

(** [demoState] with the confirmation poll of one transfer pending. *)
Definition demoPolling : State :=
  snd (monitorTransactionReceipt 0 "0xhash" "0xw" demoState).

Definition demoTimeout : Timeout :=
  {| to_delay := 10000;
     to_poll := {| p_transactionId := 0; p_txHash := "0xhash"; p_walletAddress := "0xw";
                   p_attempts := 0 |} |}.

(** The record of the wallet's LINK once trading was seen. *)
Definition demoFlagged : TokenDetection :=
  {| td_id := 0; td_walletAddress := "0xw"; td_tokenAddress := LINK;
     td_tokenSymbol := "LINK"; td_tokenName := "Chainlink";
     td_balance := "100.000000"; td_balanceUSD := Some "1450.00";
     tradingEnabled := true; detectedAt := 0; lastCheckedAt := 0 |}.

Definition demoSettled : State :=
  with_nextId 1
    (with_storage (set_tokenDetections [demoFlagged] (storage demoState)) demoState).

(** The wallet is watched, then its interval ticks. *)
Definition demoScans : list Op := [OpStartMonitoring "0xw"; OpPeriodicScan demoInterval].

(** *** The route that adds a token to monitor *)

(** [POST /api/wallet/:address/tokens/monitor]; [tokenAddress] is the
    field of the request body when it is a string, [None] when the body
    has none.  The empty string is falsy.  The answer is sent with
    [res.json] ([EvSendJson]) before the broadcast. *)
Definition routeMonitorToken `{Host} (W : Web3Service) (address : string)
    (tokenAddress : option string) : M unit :=
  try_catch
    (match tokenAddress with
     | Some (String c t) =>
         let tokenAddress := String c t in
         success <- addAndMonitorSpecificToken W address tokenAddress ;;
         if success then
           emit (EvSendJson 200 [ ("message", VStr "Token added to monitoring");
                                  ("tokenAddress", VStr tokenAddress);
                                  ("walletAddress", VStr address) ]) ;;
           emit (EvBroadcast "token_monitoring_added"
                   [ ("walletAddress", VStr address); ("tokenAddress", VStr tokenAddress) ]
                   address)
         else emit (EvSendJson 400 [ ("message", VStr "Failed to add token to monitoring") ])
     | _ => emit (EvSendJson 400 [ ("message", VStr "Token address is required") ])
     end)
    (fun _ => emit (EvSendJson 500 [ ("message", VStr "Error adding token to monitoring") ])).

(** The answers that the routes have sent. *)
Definition is_response (e : Event) : bool :=
  match e with EvSendJson _ _ => true | _ => false end.

(** What [addAndMonitorSpecificToken] finds on the ledger, asked at the
    calls [n] and [n + 1]: the token is described and the wallet holds
    some of it. *)
Definition holds_token `{Host} (W : Web3Service) (n : nat) (walletAddress tokenAddress : string)
    : bool :=
  match w3_getTokenInfo W n tokenAddress with
  | Return _ =>
      match w3_getTokenBalance W (S n) walletAddress tokenAddress with
      | Return balance => (0 <? parseFloat balance)%float
      | Throw _ => false
      end
  | Throw _ => false
  end.

(** *** Overlapping sweeps *)

(** The checks of [sweepToken] that stand before the transfer: the lock
    of (wallet, token) is free, the wallet has an active configuration,
    and the value of the amount is not below the wallet's minimum. *)
Definition admits `{Host} (walletAddress tokenAddress balance : string) (s : State) : bool :=
  negb (bool_decide (activeSweeps s !! sweepKey walletAddress tokenAddress = Some true))
  && match walletConfigs (storage s) !! walletAddress with
     | Some cfg =>
         isActive cfg
         && negb (getTokenValueUSD tokenAddress balance
                  <? parseFloat (minTransferAmount cfg))%float
     | None => false
     end.

(** The transfers that a call of [sweepToken] from [s] is to submit:
    one, to the safe wallet of the configuration and at the fee quoted
    for its strategy, when the checks pass, and none when they do not. *)
Definition submissions `{Host} (W : Web3Service) (walletAddress tokenAddress balance : string)
    (urgency : Urgency) (s : State) : list Event :=
  match walletConfigs (storage s) !! walletAddress with
  | Some cfg =>
      if admits walletAddress tokenAddress balance s
      then [EvWeb3 (CallTransferToken (privateKey cfg) tokenAddress (safeWalletAddress cfg)
                      balance (quotedGasPrice W (gasStrategy cfg) urgency s))]
      else []
  | None => []
  end.

(** Three calls for the wallet's LINK overlap; the first is for half a
    LINK, which is below the wallet's minimum. *)
Definition demoOverlap : M (option string * list (option string)) :=
  overlappingSweeps demoLedger "0xw" LINK
    {| a_tokenSymbol := "LINK"; a_tokenName := "Chainlink"; a_balance := "0.5";
       a_urgency := medium |}
    [ {| a_tokenSymbol := "LINK"; a_tokenName := "Chainlink"; a_balance := "100.000000";
         a_urgency := high |};
      {| a_tokenSymbol := "LINK"; a_tokenName := "Chainlink"; a_balance := "100.000000";
         a_urgency := high |} ].

(** *** Scans that overlap *)

(** What a scan of a specific token holds while it awaits the answer of
    [isContractTradingEnabled]: the description of the token, the
    balance it has read, the detection record as it was when the scan
    read it, and the answer that is on its way. *)
Record Suspended := {
  su_tokenInfo : TokenInfo;
  su_balance : string;
  su_detection : option TokenDetection;
  su_tradingEnabled : bool
}.

Section OverlappingScans.

Context `{Host} (W : Web3Service).

(** The [try] block of [scanSpecificToken] up to its
    [await web3Service.isContractTradingEnabled(tokenAddress)]; [None]
    when the block ends before, on a balance that is not positive. *)
Definition scanSpecificTokenHead (walletAddress tokenAddress : string)
    : M (option Suspended) :=
  known <- gets knownTokens ;;
  (if negb (known_has known tokenAddress) then
     tokenInfo <- getTokenInfo W tokenAddress ;;
     modify (fun s => with_detector (monitoringWallets s)
                        (known_set tokenAddress
                           {| name := name tokenInfo; symbol := symbol tokenInfo |}
                           (knownTokens s))
                        (specificTokensToMonitor s) s)
   else ret tt) ;;
  known <- gets knownTokens ;;
  match known_get known tokenAddress with
  | None => throw "Cannot read properties of undefined"
  | Some tokenInfo =>
      balance <- getTokenBalance W walletAddress tokenAddress ;;
      let balanceNum := parseFloat balance in
      if (0 <? balanceNum)%float then
        existingDetections <- getTokenDetections walletAddress ;;
        detection <-
          match List.find (detection_for tokenAddress) existingDetections with
          | None =>
              handleNewTokenDetection walletAddress tokenAddress (name tokenInfo)
                (symbol tokenInfo) balance ;;
              again <- getTokenDetections walletAddress ;;
              ret (List.find (detection_for tokenAddress) again)
          | Some detection =>
              let balanceUSD := calculateUSDValue tokenAddress balance in
              updateTokenDetection (td_id detection)
                {| ud_balance := Some balance; ud_balanceUSD := Some (toFixed balanceUSD 2);
                   ud_tradingEnabled := None |} ;;
              ret (Some detection)
          end ;;
        enabledNow <- isContractTradingEnabled W tokenAddress ;;
        ret (Some {| su_tokenInfo := tokenInfo; su_balance := balance;
                     su_detection := detection; su_tradingEnabled := enabledNow |})
      else ret None
  end.

(** The rest of the [try] block, run when the answer has arrived. *)
Definition scanSpecificTokenTail (walletAddress tokenAddress : string) (k : Suspended)
    : M unit :=
  let tokenInfo := su_tokenInfo k in
  let balance := su_balance k in
  let enabledNow := su_tradingEnabled k in
  match su_detection k with
  | Some detection =>
      if negb (tradingEnabled detection) && enabledNow then
        updateTokenDetection (td_id detection)
          {| ud_balance := None; ud_balanceUSD := None;
             ud_tradingEnabled := Some true |} ;;
        createActivity
          {| ia_walletAddress := walletAddress;
             ia_type := "trading_enabled";
             ia_title := symbol tokenInfo +:+ " Trading Enabled!";
             ia_description := "Trading is now active for " +:+ symbol tokenInfo
                                 +:+ ". Auto-sweep initiated.";
             ia_status := "active";
             ia_metadata := [ ("tokenAddress", VStr tokenAddress);
                              ("tokenSymbol", VStr (symbol tokenInfo));
                              ("balance", VStr balance) ] |} ;;
        broadcastDetector "trading_enabled"
          [ ("tokenAddress", VStr tokenAddress);
            ("tokenSymbol", VStr (symbol tokenInfo));
            ("tokenName", VStr (name tokenInfo));
            ("balance", VStr balance) ]
          walletAddress ;;
        walletConfig <- getWalletConfig walletAddress ;;
        if from_option autoSweepEnabled false walletConfig then
          invokeSweepToken W walletAddress tokenAddress (symbol tokenInfo)
            (name tokenInfo) balance high ;;
          ret tt
        else ret tt
      else ret tt
  | None => ret tt
  end.

(** One scan, suspended at its await and resumed with the answer. *)
Definition suspend (walletAddress tokenAddress : string) : M (option Suspended) :=
  try_catch (scanSpecificTokenHead walletAddress tokenAddress) (fun _ => ret None).

Definition resume (walletAddress tokenAddress : string) (k : option Suspended) : M unit :=
  match k with
  | Some k => try_catch (scanSpecificTokenTail walletAddress tokenAddress k) (fun _ => ret tt)
  | None => ret tt
  end.

(** Two scans of one token of a wallet overlap: both read the record and
    ask whether the token trades before either has its answer; then the
    first resumes and runs to its end, and then the second. *)
Definition overlappingScans (walletAddress tokenAddress : string) : M unit :=
  first <- suspend walletAddress tokenAddress ;;
  second <- suspend walletAddress tokenAddress ;;
  resume walletAddress tokenAddress first ;;
  resume walletAddress tokenAddress second.

End OverlappingScans.

(** [demoWatched] with the wallet's LINK on its list of specific tokens. *)
Definition demoListed : State :=
  snd (addSpecificTokenToMonitor "0xw" LINK demoWatched).

(* ================================================================= *)
(** * Results *)

(** ** The monad *)

Section Preserves.

Context (R : relation State) `{!PreOrder R}.

Lemma preserves_ret {A} (a : A) : preserves R (ret a).
Proof. intros s. reflexivity. Qed.

Lemma preserves_throw {A} e : preserves R (@throw A e).
Proof. intros s. reflexivity. Qed.

Lemma preserves_gets {A} (f : State -> A) : preserves R (gets f).
Proof. intros s. reflexivity. Qed.

Lemma preserves_modify f : (forall s, R s (f s)) -> preserves R (modify f).
Proof. intros Hf s. apply Hf. Qed.

Lemma preserves_bind {A B} (m : M A) (k : A -> M B) :
  preserves R m -> (forall a, preserves R (k a)) -> preserves R (bind m k).
Proof.
  intros Hm Hk s. unfold bind. specialize (Hm s).
  destruct (m s) as [[a|e] s1]; simpl in *; [|done].
  etrans; [exact Hm|apply Hk].
Qed.

Lemma preserves_try_catch {A} (m : M A) h :
  preserves R m -> (forall e, preserves R (h e)) -> preserves R (try_catch m h).
Proof.
  intros Hm Hh s. unfold try_catch. specialize (Hm s).
  destruct (m s) as [[a|e] s1]; simpl in *; [done|].
  etrans; [exact Hm|apply Hh].
Qed.

Lemma preserves_try_finally {A} (m : M A) f :
  preserves R m -> preserves R f -> preserves R (try_finally m f).
Proof.
  intros Hm Hf s. unfold try_finally. specialize (Hm s).
  destruct (m s) as [r s1]; simpl in *. specialize (Hf s1).
  destruct (f s1) as [[[]|e] s2]; simpl in *; etrans; eauto.
Qed.

Lemma preserves_for_each {A} (l : list A) body :
  (forall x, preserves R (body x)) -> preserves R (for_each l body).
Proof.
  intros Hb. induction l as [|x l IH]; simpl.
  - apply preserves_ret.
  - apply preserves_bind; auto.
Qed.

End Preserves.

(** ** Binary64 arithmetic *)

Section FloatFacts.
Open Scope float_scope.

Lemma digits2_shift52 (m : positive) :
  digits2_pos (4503599627370496 * m) = (digits2_pos m + 52)%positive.
Proof. cbv beta iota fix delta [Pos.mul]. cbn [digits2_pos]. lia. Qed.

(** Multiplying by [1.0] changes no binary64 value. *)
Lemma mul_one (x : float) : x * 1 = x.
Proof.
  apply Prim2SF_inj. rewrite FloatAxioms.mul_spec.
  pose proof (Prim2SF_valid x) as V.
  change (Prim2SF 1) with (S754_finite false 4503599627370496 (-52)).
  destruct (Prim2SF x) as [s|s| |s m e]; cbn [SF64mul SFmul];
    try reflexivity; try (destruct s; reflexivity).
  cbn [valid_binary] in V. unfold bounded, canonical_mantissa in V.
  apply andb_prop in V as [V1 V2]. apply Z.eqb_eq in V1.
  rewrite Bool.xorb_false_r. unfold binary_round_aux.
  assert (E : shr_fexp prec emax (Z.pos (m * 4503599627370496)) (e + -52) loc_Exact
              = ({| shr_m := Z.pos m; shr_r := false; shr_s := false |}, e)).
  { unfold shr_fexp. rewrite Pos.mul_comm. cbn [Zdigits2]. rewrite digits2_shift52.
    replace (Z.pos (digits2_pos m + 52) + (e + -52))%Z with (Z.pos (digits2_pos m) + e)%Z by lia.
    rewrite V1. replace (e - (e + -52))%Z with 52%Z by lia.
    cbv beta iota fix delta [Pos.mul].
    cbn [shr shr_record_of_loc iter_pos shr_1 orb]. f_equal. lia. }
  rewrite E. cbn [shr_m loc_of_shr_record round_nearest_even].
  unfold shr_fexp. cbn [Zdigits2]. rewrite V1, Z.sub_diag. cbn [shr shr_record_of_loc shr_m].
  rewrite V2. reflexivity.
Qed.

(** [Math.max(x, 1)] is never below 1. *)
Lemma max_floor (x : float) : (JS.Math_max x 1 <? 1) = false.
Proof.
  unfold JS.Math_max. destruct (is_nan x); [reflexivity|]. cbn [orb].
  change (is_nan 1) with false. cbv iota.
  destruct (x <? 1) eqn:E1; [reflexivity|].
  destruct (1 <? x); [exact E1|]. destruct (get_sign x); [reflexivity|exact E1].
Qed.

Lemma SFcompare_finite_le (m M : positive) (e E : Z) :
  SFleb (S754_finite false M E) (S754_finite false m e) = true ->
  SFltb (S754_finite false m e) (S754_finite false M E) = false /\
  (SFltb (S754_finite false M E) (S754_finite false m e) = true \/ (m = M /\ e = E)).
Proof.
  unfold SFleb, SFltb. cbn [SFcompare].
  rewrite (Z.compare_antisym E e).
  replace (Pos.compare_cont Eq m M) with (CompOpp (Pos.compare_cont Eq M m))
    by (rewrite Pos.compare_cont_antisym; reflexivity).
  destruct (E ?= e)%Z eqn:Ce; cbn [CompOpp];
    try (intros; split; [reflexivity|left; reflexivity]); try discriminate.
  destruct (Pos.compare_cont Eq M m) eqn:Cm; cbn [CompOpp]; try discriminate;
    intros _; split; try reflexivity; [right|left; reflexivity].
  apply Z.compare_eq in Ce. apply Pos.compare_eq in Cm. auto.
Qed.

(** At 1 and above, the floor leaves the number as it is. *)
Lemma max_above (x : float) : (1 <=? x) = true -> JS.Math_max x 1 = x.
Proof.
  intros L. unfold JS.Math_max.
  rewrite FloatAxioms.leb_spec in L.
  change (Prim2SF 1) with (S754_finite false 4503599627370496 (-52)) in L.
  assert (N : is_nan x = false).
  { unfold is_nan. rewrite FloatAxioms.eqb_spec. unfold SFeqb.
    destruct (Prim2SF x) as [s|s| |s m e]; try reflexivity; try discriminate L.
    - destruct s; reflexivity.
    - cbn [SFcompare]. rewrite Z.compare_refl, Pos.compare_cont_refl.
      destruct s; reflexivity. }
  rewrite N. change (is_nan 1) with false. cbn [orb].
  rewrite !FloatAxioms.ltb_spec.
  change (Prim2SF 1) with (S754_finite false 4503599627370496 (-52)).
  destruct (Prim2SF x) as [s|s| |s m e] eqn:Ex; try discriminate L.
  - destruct s; [discriminate L|reflexivity].
  - destruct s; [discriminate L|].
    destruct (SFcompare_finite_le _ _ _ _ L) as [-> [->|[-> ->]]]; [reflexivity|].
    assert (x = 1%float) as ->; [|destruct (SFltb _ _), (get_sign 1); reflexivity].
    apply Prim2SF_inj. rewrite Ex. reflexivity.
Qed.


Lemma is_finite_spec x : is_finite x = true -> finite x.
Proof.
  unfold is_finite, is_infinity, is_nan, finite.
  rewrite !FloatAxioms.eqb_spec, FloatAxioms.abs_spec.
  change (Prim2SF infinity) with (S754_infinity false).
  destruct (Prim2SF x) as [s|s| |s m e]; try discriminate; auto;
    destruct s; discriminate.
Qed.
(** A number, as opposed to [NaN]. *)
Lemma is_nan_spec (x : float) : is_nan x = false <-> Prim2SF x <> S754_nan.
Proof.
  unfold is_nan. rewrite FloatAxioms.eqb_spec. unfold SFeqb.
  destruct (Prim2SF x) as [s|s| |s m e]; cbn [SFcompare].
  - destruct s; split; [discriminate|reflexivity|discriminate|reflexivity].
  - destruct s; split; [discriminate|reflexivity|discriminate|reflexivity].
  - split; [discriminate|intros N; contradiction].
  - rewrite Z.compare_refl, Pos.compare_cont_refl.
    destruct s; split; [discriminate|reflexivity|discriminate|reflexivity].
Qed.

Lemma shr_1_nonneg (mrs : shr_record) : (0 <= shr_m mrs)%Z -> (0 <= shr_m (shr_1 mrs))%Z.
Proof.
  destruct mrs as [m r s0]. cbn [shr_m]. intros Hm. unfold shr_1.
  destruct m as [|p|p]; [cbn; lia| |lia]. destruct p; cbn; lia.
Qed.

Lemma iter_shr_1_nonneg (p : positive) (mrs : shr_record) :
  (0 <= shr_m mrs)%Z -> (0 <= shr_m (SpecFloat.iter_pos shr_1 p mrs))%Z.
Proof.
  revert mrs. induction p as [p IH|p IH|]; intros mrs Hm; cbn [SpecFloat.iter_pos].
  - apply IH, IH, shr_1_nonneg, Hm.
  - apply IH, IH, Hm.
  - apply shr_1_nonneg, Hm.
Qed.

Lemma shr_fexp_nonneg (m e : Z) (l : location) :
  (0 <= m)%Z -> (0 <= shr_m (fst (shr_fexp prec emax m e l)))%Z.
Proof.
  intros Hm. unfold shr_fexp, shr.
  assert (H0 : (0 <= shr_m (shr_record_of_loc m l))%Z).
  { unfold shr_record_of_loc. destruct l as [|[| |]]; exact Hm. }
  destruct (fexp prec emax (Zdigits2 m + e) - e)%Z; cbn [fst]; [exact H0| |exact H0].
  apply iter_shr_1_nonneg, H0.
Qed.

(** Rounding a number gives a number. *)
Lemma binary_round_aux_number (sx : bool) (mx ex : Z) (lx : location) :
  (0 <= mx)%Z -> binary_round_aux prec emax sx mx ex lx <> S754_nan.
Proof.
  intros Hm. unfold binary_round_aux.
  pose proof (shr_fexp_nonneg mx ex lx Hm) as H1.
  destruct (shr_fexp prec emax mx ex lx) as [mrs' e']. cbn [fst] in H1.
  assert (H2 : (0 <= round_nearest_even (shr_m mrs') (loc_of_shr_record mrs'))%Z).
  { unfold round_nearest_even. destruct (loc_of_shr_record mrs') as [|[| |]]; try lia.
    destruct (Z.even (shr_m mrs')); lia. }
  pose proof (shr_fexp_nonneg _ e' loc_Exact H2) as H3.
  destruct (shr_fexp prec emax _ e' loc_Exact) as [mrs'' e'']. cbn [fst] in H3.
  destruct (shr_m mrs'') as [|p|p]; [discriminate| |lia].
  destruct (e'' <=? emax - prec)%Z; discriminate.
Qed.

(** A number times a finite number other than zero is a number. *)
Lemma mul_number (x c : float) (sc : bool) (mc : positive) (ec : Z) :
  Prim2SF c = S754_finite sc mc ec -> is_nan x = false -> is_nan (x * c) = false.
Proof.
  intros Hc Hx. apply is_nan_spec in Hx. apply is_nan_spec.
  rewrite FloatAxioms.mul_spec, Hc. unfold SF64mul.
  destruct (Prim2SF x) as [s|s| |s m e]; cbn [SFmul]; try discriminate; [contradiction|].
  apply binary_round_aux_number. lia.
Qed.

(** [Math.max(x, 1)] of a number is at least 1. *)
Lemma max_floor_number (x : float) : is_nan x = false -> (1 <=? JS.Math_max x 1) = true.
Proof.
  intros N. unfold JS.Math_max. rewrite N. change (is_nan 1) with false. cbn [orb].
  destruct (x <? 1) eqn:E1; [reflexivity|].
  assert (L : (1 <=? x) = true).
  { apply is_nan_spec in N. rewrite FloatAxioms.ltb_spec in E1. rewrite FloatAxioms.leb_spec.
    change (Prim2SF 1) with (S754_finite false 4503599627370496 (-52)) in *.
    unfold SFltb in E1. unfold SFleb.
    destruct (Prim2SF x) as [s|s| |s m e]; cbn [SFcompare] in *;
      try contradiction; try (destruct s; try discriminate E1; reflexivity).
    destruct s; [discriminate E1|].
    rewrite (Z.compare_antisym e (-52)).
    replace (Pos.compare_cont Eq 4503599627370496 m)
      with (CompOpp (Pos.compare_cont Eq m 4503599627370496))
      by (rewrite Pos.compare_cont_antisym; reflexivity).
    destruct (e ?= -52)%Z; cbn [CompOpp] in *; try discriminate E1; try reflexivity.
    destruct (Pos.compare_cont Eq m 4503599627370496); cbn [CompOpp] in *;
      try discriminate E1; reflexivity. }
  destruct (1 <? x); [exact L|]. destruct (get_sign x); [reflexivity|exact L].
Qed.
End FloatFacts.

(** ** Strings *)

Lemma lower_ascii_idem c : JS.lower_ascii (JS.lower_ascii c) = JS.lower_ascii c.
Proof. destruct c as [[] [] [] [] [] [] [] []]; reflexivity. Qed.

Lemma toLowerCase_idem x : JS.toLowerCase (JS.toLowerCase x) = JS.toLowerCase x.
Proof. induction x as [|c x IH]; simpl; [reflexivity|]. rewrite lower_ascii_idem, IH. reflexivity. Qed.



(** ** GasOptimizer *)

Section GasOptimizerFacts.

Context `{Host} (W : Web3Service).

(** The strategy that [getOptimalGasPrice] selects has the multiplier
    that the specification gives the name. *)
Lemma selectedStrategy_multiplier strategy :
  multiplier (selectedStrategy strategy) = strategyMultiplier strategy.
Proof.
  unfold selectedStrategy, strategies_get, strategies, strategyMultiplier.
  cbn [List.find fst snd option_map].
  rewrite (String.eqb_sym "slow"), (String.eqb_sym "standard"), (String.eqb_sym "fast").
  destruct (String.eqb strategy "slow") eqn:Es; [reflexivity|].
  destruct (String.eqb strategy "standard") eqn:Et.
  { apply String.eqb_eq in Et. subst strategy. reflexivity. }
  destruct (String.eqb strategy "fast"); reflexivity.
Qed.

(** The branches of [getOptimalGasPrice] multiply by the factors the
    specification names; a branch that leaves the price alone is a
    multiplication by [1.0]. *)
Lemma optimalGasPrice_product base strategy urgency load :
  optimalGasPrice base strategy urgency load
  = JS.Math_max (feeProduct base strategy urgency load) 1.
Proof.
  unfold optimalGasPrice, feeProduct, urgencyMultiplier, congestionAdjustment.
  rewrite selectedStrategy_multiplier.
  destruct urgency; destruct (80 <? load)%float; try destruct (load <? 30)%float;
    rewrite ?mul_one; reflexivity.
Qed.

(** When the base fee is a number, so is the product: every factor is
    finite and not zero. *)
Lemma feeProduct_number base strategy urgency load :
  is_nan base = false -> is_nan (feeProduct base strategy urgency load) = false.
Proof.
  intros N. unfold feeProduct.
  assert (N1 : is_nan (base * strategyMultiplier strategy) = false).
  { unfold strategyMultiplier.
    destruct (String.eqb strategy "slow"); [|destruct (String.eqb strategy "fast")];
      (eapply mul_number; [reflexivity|exact N]). }
  assert (N2 : is_nan (base * strategyMultiplier strategy * urgencyMultiplier urgency) = false).
  { unfold urgencyMultiplier. destruct urgency; (eapply mul_number; [reflexivity|exact N1]). }
  unfold congestionAdjustment.
  destruct (80 <? load)%float; [|destruct (load <? 30)%float];
    (eapply mul_number; [reflexivity|exact N2]).
Qed.

(** C7.  With the base fee that the ledger reports, [getOptimalGasPrice]
    returns the two-decimal rendering of
    base x strategy multiplier (slow 0.8, standard 1.0, fast 1.3, any
    other name 1.0) x urgency multiplier (high 1.2, low 0.9, medium 1.0)
    x congestion adjustment (1.1 above a load of 80, 0.95 below 30, else
    1.0), floored at 1 gwei (and the fallback "30" when the base fee
    cannot be read): the result is a function of these inputs alone.
    The floored price is never below 1; it is at least 1 whenever the
    base fee is a number; and it is the product itself whenever the
    product is at least 1. *)
Theorem getOptimalGasPrice_formula (strategy : string) (urgency : Urgency) (s : State) :
  fst (getOptimalGasPrice W strategy urgency s)
  = match w3_getGasPrice W (calls s) with
    | Return baseGasPrice =>
        Return (toFixed (JS.Math_max (feeProduct (parseFloat baseGasPrice) strategy urgency
                                        (currentNetworkLoad s)) 1) 2)
    | Throw _ => Return "30"
    end
  /\ (forall base : float,
        let product := feeProduct base strategy urgency (currentNetworkLoad s) in
        (JS.Math_max product 1 <? 1)%float = false
        /\ (is_nan base = false -> (1 <=? JS.Math_max product 1)%float = true)
        /\ ((1 <=? product)%float = true -> JS.Math_max product 1 = product)).
Proof.
  split.
  - unfold getOptimalGasPrice, try_catch, bind, web3, gets, ret.
    destruct (w3_getGasPrice W (calls s)) as [base|e]; cbn [fst]; [|reflexivity].
    rewrite optimalGasPrice_product. reflexivity.
  - intros base product. split; [apply max_floor|]. split; [|apply max_above].
    intros N. apply max_floor_number, feeProduct_number, N.
Qed.

End GasOptimizerFacts.

(** ** Relations between the state before and after *)

#[export] Instance unchanged_preorder {A} (proj : State -> A) : PreOrder (unchanged proj).
Proof.
  split; [intros s; reflexivity|].
  intros s1 s2 s3 H1 H2. unfold unchanged in *. congruence.
Qed.

Ltac preserves_step :=
  lazymatch goal with
  | |- preserves _ (bind _ _) => apply preserves_bind; [try apply _| |intros ?]
  | |- preserves _ (ret _) => apply preserves_ret; try apply _
  | |- preserves _ (throw _) => apply preserves_throw; try apply _
  | |- preserves _ (gets _) => apply preserves_gets; try apply _
  | |- preserves _ (try_catch _ _) => apply preserves_try_catch; [try apply _| |intros ?]
  | |- preserves _ (try_finally _ _) => apply preserves_try_finally; [try apply _| |]
  | |- preserves _ (for_each _ _) => apply preserves_for_each; [try apply _|intros ?]
  | |- preserves _ (match ?x with _ => _ end) => destruct x
  | |- preserves _ (let _ := _ in _) => cbv zeta
  end.

Lemma filter_app_one {A} (f : A -> bool) l x :
  List.filter f (l ++ [x]) = List.filter f l ++ (if f x then [x] else []).
Proof. rewrite List.filter_app. simpl. destruct (f x); reflexivity. Qed.

Lemma preserves_impl {A} (R R' : relation State) (m : M A) :
  (forall s s', R s s' -> R' s s') -> preserves R m -> preserves R' m.
Proof. intros HR Hm s. apply HR, Hm. Qed.

Lemma unchanged_trace_events {A} f (m : M A) :
  preserves (unchanged trace) m -> preserves (unchanged (events f)) m.
Proof. apply preserves_impl. unfold unchanged, events. intros s s' ->. reflexivity. Qed.

Lemma unchanged_within {A} f n (m : M A) :
  preserves (unchanged (events f)) m -> preserves (within f n) m.
Proof. apply preserves_impl. unfold unchanged, within. intros s s' ->. lia. Qed.

Lemma within_bind {A B} f n1 n2 (m : M A) (k : A -> M B) :
  preserves (within f n1) m -> (forall a, preserves (within f n2) (k a)) ->
  preserves (within f (n1 + n2)) (bind m k).
Proof.
  intros Hm Hk s. unfold bind. specialize (Hm s).
  destruct (m s) as [[a|e] s1]; simpl in *.
  - specialize (Hk a s1). unfold within in *. lia.
  - unfold within in *. lia.
Qed.

Lemma within_try_catch {A} f n1 n2 (m : M A) h :
  preserves (within f n1) m -> (forall e, preserves (within f n2) (h e)) ->
  preserves (within f (n1 + n2)) (try_catch m h).
Proof.
  intros Hm Hh s. unfold try_catch. specialize (Hm s).
  destruct (m s) as [[a|e] s1]; simpl in *.
  - unfold within in *. lia.
  - specialize (Hh e s1). unfold within in *. lia.
Qed.

Lemma within_try_finally {A} f n (m : M A) fin :
  preserves (within f n) m -> preserves (unchanged (events f)) fin ->
  preserves (within f n) (try_finally m fin).
Proof.
  intros Hm Hf s. unfold try_finally. specialize (Hm s).
  destruct (m s) as [r s1]; simpl in *. specialize (Hf s1).
  destruct (fin s1) as [[[]|e] s2]; simpl in *; unfold within, unchanged in *;
    rewrite Hf; exact Hm.
Qed.

(** *** What the primitives leave alone *)

Lemma fresh_trace : preserves (unchanged trace) fresh.
Proof. intros s. reflexivity. Qed.

Lemma modify_trace f : (forall s, trace (f s) = trace s) -> preserves (unchanged trace) (modify f).
Proof. intros Hf s. apply Hf. Qed.

Lemma getWalletConfig_trace w : preserves (unchanged trace) (getWalletConfig w).
Proof. intros s. reflexivity. Qed.

Lemma createTransaction_trace t : preserves (unchanged trace) (createTransaction t).
Proof. intros s. reflexivity. Qed.

Lemma updateTransaction_trace id u : preserves (unchanged trace) (updateTransaction id u).
Proof.
  intros s. unfold updateTransaction, bind, gets, unchanged.
  destruct (List.find _ _); reflexivity.
Qed.

Lemma getTransactionsByStatus_trace st : preserves (unchanged trace) (getTransactionsByStatus st).
Proof. intros s. reflexivity. Qed.

Lemma getTokenDetections_trace w : preserves (unchanged trace) (getTokenDetections w).
Proof. intros s. reflexivity. Qed.

Lemma createTokenDetection_trace d : preserves (unchanged trace) (createTokenDetection d).
Proof. intros s. reflexivity. Qed.

Lemma updateTokenDetection_trace id u : preserves (unchanged trace) (updateTokenDetection id u).
Proof.
  intros s. unfold updateTokenDetection, bind, gets, unchanged.
  destruct (List.find _ _); reflexivity.
Qed.

Lemma createActivity_trace a : preserves (unchanged trace) (createActivity a).
Proof. intros s. reflexivity. Qed.

Lemma emit_events f e : f e = false -> preserves (unchanged (events f)) (emit e).
Proof.
  intros He s. unfold unchanged, events, emit, modify. simpl.
  rewrite filter_app_one, He. apply app_nil_r.
Qed.

Lemma emit_within f e : preserves (within f 1) (emit e).
Proof.
  intros s. unfold within, events, emit, modify. simpl.
  rewrite filter_app_one, length_app. destruct (f e); simpl; lia.
Qed.

Lemma web3_events {A} f c (answer : nat -> Completion A) :
  f (EvWeb3 c) = false -> preserves (unchanged (events f)) (web3 c answer).
Proof.
  intros He s. unfold unchanged, events, web3. simpl.
  rewrite filter_app_one, He. apply app_nil_r.
Qed.

Lemma web3_within {A} f c (answer : nat -> Completion A) :
  preserves (within f 1) (web3 c answer).
Proof.
  intros s. unfold within, events, web3. simpl.
  rewrite filter_app_one, length_app. destruct (f _); simpl; lia.
Qed.

Lemma setTimeout_events f d p :
  f (EvSetTimeout d) = false -> preserves (unchanged (events f)) (setTimeout d p).
Proof.
  intros He. unfold setTimeout. preserves_step; [apply emit_events, He|].
  apply unchanged_trace_events, modify_trace. reflexivity.
Qed.

Create HintDb quiet discriminated.

#[export] Hint Resolve fresh_trace getWalletConfig_trace createTransaction_trace
  updateTransaction_trace getTransactionsByStatus_trace getTokenDetections_trace
  createTokenDetection_trace updateTokenDetection_trace createActivity_trace : quiet.

(** A leaf of a computation that adds no event of the kind at hand. *)
Ltac quiet_leaf :=
  first
    [ apply unchanged_trace_events; solve [auto with quiet]
    | apply unchanged_trace_events, modify_trace; intros ?; reflexivity
    | apply emit_events; reflexivity
    | apply web3_events; reflexivity
    | apply setTimeout_events; reflexivity ].

Ltac quiet := repeat first [preserves_step | quiet_leaf].

(** ** TokenSweeper *)

Section SweeperFacts.

Context `{Host} (W : Web3Service).

Lemma sweepAcquire_held w t s :
  activeSweeps s !! sweepKey w t = Some true ->
  sweepAcquire w t s = (Return false, s).
Proof. intros Hk. unfold sweepAcquire, bind, gets. rewrite Hk. reflexivity. Qed.

Lemma sweepAcquire_free w t s :
  activeSweeps s !! sweepKey w t <> Some true ->
  sweepAcquire w t s
  = (Return true, with_activeSweeps (<[sweepKey w t := true]> (activeSweeps s)) s).
Proof.
  intros Hk. unfold sweepAcquire, bind, gets.
  destruct (activeSweeps s !! sweepKey w t) as [[]|]; try done.
Qed.

Lemma sweepToken_held w t sym nm bal urg s :
  activeSweeps s !! sweepKey w t = Some true ->
  sweepToken W w t sym nm bal urg s = (Return None, s).
Proof.
  intros Hk. unfold sweepToken, bind. rewrite (sweepAcquire_held _ _ _ Hk). reflexivity.
Qed.

Lemma sweepToken_free w t sym nm bal urg s :
  activeSweeps s !! sweepKey w t <> Some true ->
  sweepToken W w t sym nm bal urg s
  = sweepAttempt W w t sym nm bal urg
      (with_activeSweeps (<[sweepKey w t := true]> (activeSweeps s)) s).
Proof.
  intros Hk. unfold sweepToken, bind. rewrite (sweepAcquire_free _ _ _ Hk). reflexivity.
Qed.

Lemma sequence_held w t (others : list SweepArgs) s :
  activeSweeps s !! sweepKey w t = Some true ->
  sequence (map (fun o => sweepToken W w t (a_tokenSymbol o) (a_tokenName o)
                            (a_balance o) (a_urgency o)) others) s
  = (Return (repeat None (length others)), s).
Proof.
  intros Hk. induction others as [|o l IH]; simpl; [done|].
  unfold bind at 1. rewrite (sweepToken_held _ _ _ _ _ _ _ Hk).
  unfold bind at 1. rewrite IH. reflexivity.
Qed.

Lemma overlapping_as_one w t first others s :
  overlappingSweeps W w t first others s
  = let '(r, s') := sweepToken W w t (a_tokenSymbol first) (a_tokenName first)
                      (a_balance first) (a_urgency first) s in
    (match r with
     | Return x => Return (x, repeat None (length others))
     | Throw e => Throw e
     end, s').
Proof.
  unfold overlappingSweeps.
  destruct (decide (activeSweeps s !! sweepKey w t = Some true)) as [Hk|Hk].
  - rewrite (sweepToken_held _ _ _ _ _ _ _ Hk).
    unfold bind. rewrite (sweepAcquire_held _ _ _ Hk).
    rewrite (sequence_held _ _ _ _ Hk). reflexivity.
  - rewrite (sweepToken_free _ _ _ _ _ _ _ Hk).
    unfold bind. rewrite (sweepAcquire_free _ _ _ Hk).
    rewrite sequence_held by (simpl; apply lookup_insert_eq).
    destruct (sweepAttempt _ _ _ _ _ _ _ _) as [[x|e] s']; reflexivity.
Qed.

Lemma broadcastSweeper_events f ty d w :
  f (EvBroadcast ty d w) = false ->
  preserves (unchanged (events f)) (broadcastSweeper ty d w).
Proof. intros Hf. unfold broadcastSweeper. quiet. apply emit_events, Hf. Qed.

Lemma getOptimalGasPrice_events f strategy urgency :
  f (EvWeb3 CallGetGasPrice) = false ->
  preserves (unchanged (events f)) (getOptimalGasPrice W strategy urgency).
Proof. intros Hf. unfold getOptimalGasPrice. quiet. apply web3_events, Hf. Qed.

Lemma sweepFailed_events f w t sym bal msg :
  (forall ty d w, f (EvBroadcast ty d w) = false) ->
  preserves (unchanged (events f)) (sweepFailed w t sym bal msg).
Proof.
  intros Hf. unfold sweepFailed.
  quiet; apply broadcastSweeper_events, Hf.
Qed.

(** The [catch] block completes, with [null]. *)
Lemma sweepFailed_returns w t sym bal msg s :
  fst (sweepFailed w t sym bal msg s) = Return None.
Proof.
  unfold sweepFailed, getTransactionsByStatus, bind, gets.
  destruct (List.find _ _); [|reflexivity].
  unfold updateTransaction, bind, gets.
  destruct (List.find _ _); simpl; unfold broadcastSweeper, bind, gets; simpl;
    destruct (sweeperBroadcast s); reflexivity.
Qed.

(** [sweepToken] never rejects: every error ends in its [catch]. *)
Lemma sweepAttempt_returns w t sym nm bal urg s :
  exists r, fst (sweepAttempt W w t sym nm bal urg s) = Return r.
Proof.
  unfold sweepAttempt, try_finally, try_catch, modify.
  destruct (sweepBody W w t sym nm bal urg s) as [[r|e] s1]; simpl; [eauto|].
  pose proof (sweepFailed_returns w t sym bal e s1) as Hr.
  destruct (sweepFailed w t sym bal e s1) as [r s2]. simpl in *. subst r. eauto.
Qed.

Lemma sweepToken_returns w t sym nm bal urg s :
  exists r, fst (sweepToken W w t sym nm bal urg s) = Return r.
Proof.
  destruct (decide (activeSweeps s !! sweepKey w t = Some true)) as [Hk|Hk].
  - rewrite (sweepToken_held _ _ _ _ _ _ _ Hk). eauto.
  - rewrite (sweepToken_free _ _ _ _ _ _ _ Hk). apply sweepAttempt_returns.
Qed.

Lemma sweepBody_invocations w t sym nm bal urg :
  preserves (unchanged (events is_sweep_invocation)) (sweepBody W w t sym nm bal urg).
Proof.
  unfold sweepBody, monitorTransactionReceipt.
  quiet; first [apply getOptimalGasPrice_events | apply broadcastSweeper_events]; reflexivity.
Qed.

Lemma sweepToken_invocations w t sym nm bal urg :
  preserves (unchanged (events is_sweep_invocation)) (sweepToken W w t sym nm bal urg).
Proof.
  unfold sweepToken, sweepAcquire, sweepAttempt.
  quiet; first [apply sweepBody_invocations | apply sweepFailed_events; reflexivity].
Qed.

Lemma sweepBody_transfers w t sym nm bal urg :
  preserves (within is_transfer 1) (sweepBody W w t sym nm bal urg).
Proof.
  unfold sweepBody, monitorTransactionReceipt.
  apply (within_bind _ 0 1); [apply unchanged_within; quiet|intros cfg].
  destruct cfg as [cfg|]; [|apply unchanged_within; quiet].
  destruct (negb (isActive cfg)); [apply unchanged_within; quiet|].
  cbv zeta. destruct (_ <? _)%float; [apply unchanged_within; quiet|].
  apply (within_bind _ 0 1);
    [apply unchanged_within, getOptimalGasPrice_events; reflexivity|intros gasPrice].
  apply (within_bind _ 0 1); [apply unchanged_within; quiet|intros tx].
  apply (within_bind _ 0 1); [apply unchanged_within; quiet|intros _].
  apply (within_bind _ 0 1);
    [apply unchanged_within, broadcastSweeper_events; reflexivity|intros _].
  apply (within_bind _ 1 0); [apply web3_within|intros txHash].
  apply unchanged_within. quiet; apply broadcastSweeper_events; reflexivity.
Qed.

(** One call of [sweepToken] submits at most one transfer. *)
Lemma sweepToken_transfers w t sym nm bal urg :
  preserves (within is_transfer 1) (sweepToken W w t sym nm bal urg).
Proof.
  unfold sweepToken.
  apply (within_bind _ 0 1); [apply unchanged_within; unfold sweepAcquire; quiet|].
  intros [|]; [|apply unchanged_within; quiet].
  unfold sweepAttempt. apply within_try_finally; [|quiet].
  apply (within_try_catch _ 1 0); [apply sweepBody_transfers|].
  intros e. apply unchanged_within, sweepFailed_events. reflexivity.
Qed.

Lemma map_merge_ids u time id l :
  map tx_id (map (fun tx => if (tx_id tx =? id)%nat then merge_transaction u time tx else tx) l)
  = map tx_id l.
Proof. rewrite map_map. apply map_ext. intros tx. destruct (_ =? _)%nat; reflexivity. Qed.

Lemma updateTransaction_ids id u : preserves (unchanged transaction_ids) (updateTransaction id u).
Proof.
  intros s. unfold updateTransaction, bind, gets, modify, ret, unchanged, transaction_ids.
  destruct (List.find _ _); simpl; [apply map_merge_ids|reflexivity].
Qed.

Lemma sweepFailed_ids w t sym bal msg :
  preserves (unchanged transaction_ids) (sweepFailed w t sym bal msg).
Proof.
  unfold sweepFailed, broadcastSweeper.
  repeat preserves_step;
    first [apply updateTransaction_ids | intros s; reflexivity].
Qed.

(** The [try] block stops before the fee is asked for when the wallet
    is missing or inactive or the value is below the threshold. *)
Lemma sweepBody_aborts w t sym nm bal urg s :
  (forall cfg, walletConfigs (storage s) !! w = Some cfg -> isActive cfg = true ->
     (getTokenValueUSD t bal <? parseFloat (minTransferAmount cfg))%float = true) ->
  sweepBody W w t sym nm bal urg s = (Return None, s)
  \/ exists msg, sweepBody W w t sym nm bal urg s = (Throw msg, s).
Proof.
  intros Hb. unfold sweepBody, bind, getWalletConfig, gets.
  destruct (walletConfigs (storage s) !! w) as [cfg|] eqn:Hc; [|right; eexists; reflexivity].
  destruct (isActive cfg) eqn:Ha; simpl; [|right; eexists; reflexivity].
  rewrite (Hb cfg eq_refl Ha). left. reflexivity.
Qed.

Lemma sweepToken_aborts w t sym nm bal urg s :
  (forall cfg, walletConfigs (storage s) !! w = Some cfg -> isActive cfg = true ->
     (getTokenValueUSD t bal <? parseFloat (minTransferAmount cfg))%float = true) ->
  let r := sweepToken W w t sym nm bal urg s in
  fst r = Return None
  /\ events is_transfer (snd r) = events is_transfer s
  /\ transaction_ids (snd r) = transaction_ids s.
Proof.
  intros Hb r. subst r.
  destruct (decide (activeSweeps s !! sweepKey w t = Some true)) as [Hk|Hk].
  { rewrite (sweepToken_held _ _ _ _ _ _ _ Hk). auto. }
  rewrite (sweepToken_free _ _ _ _ _ _ _ Hk).
  set (s1 := with_activeSweeps _ s).
  unfold sweepAttempt, try_finally, try_catch, modify.
  destruct (sweepBody_aborts w t sym nm bal urg s1 Hb) as [-> | [msg ->]]; [auto|].
  pose proof (sweepFailed_returns w t sym bal msg s1) as Hr.
  pose proof (sweepFailed_events is_transfer w t sym bal msg (fun _ _ _ => eq_refl) s1) as He.
  pose proof (sweepFailed_ids w t sym bal msg s1) as Hi.
  destruct (sweepFailed w t sym bal msg s1) as [r s2]. simpl in *. auto.
Qed.

(** C3.  A call of [sweepToken] whose amount is valued strictly below
    the minimum transfer amount of the wallet's configuration returns
    [null], submits no transfer and creates no transaction record; when
    the wallet is active, the store and the trace are left as they
    were. *)
Theorem sweepToken_below_minimum (w t sym nm bal : string) (urg : Urgency)
    (s : State) (cfg : WalletConfig) :
  walletConfigs (storage s) !! w = Some cfg ->
  (getTokenValueUSD t bal <? parseFloat (minTransferAmount cfg))%float = true ->
  let r := sweepToken W w t sym nm bal urg s in
  fst r = Return None
  /\ events is_transfer (snd r) = events is_transfer s
  /\ transaction_ids (snd r) = transaction_ids s
  /\ (isActive cfg = true -> storage (snd r) = storage s /\ trace (snd r) = trace s).
Proof.
  intros Hc Hb r.
  assert (Hall : forall cfg', walletConfigs (storage s) !! w = Some cfg' ->
            isActive cfg' = true ->
            (getTokenValueUSD t bal <? parseFloat (minTransferAmount cfg'))%float = true).
  { intros cfg' Hc' _. rewrite Hc in Hc'. injection Hc' as <-. exact Hb. }
  destruct (sweepToken_aborts w t sym nm bal urg s Hall) as (Hr & He & Hi).
  split; [exact Hr|]. split; [exact He|]. split; [exact Hi|].
  intros Ha. subst r.
  destruct (decide (activeSweeps s !! sweepKey w t = Some true)) as [Hk|Hk].
  { rewrite (sweepToken_held _ _ _ _ _ _ _ Hk). split; reflexivity. }
  rewrite (sweepToken_free _ _ _ _ _ _ _ Hk).
  unfold sweepAttempt, try_finally, try_catch, sweepBody, bind, getWalletConfig, gets.
  cbn [storage with_activeSweeps]. rewrite Hc, Ha. cbn [negb]. rewrite Hb.
  split; reflexivity.
Qed.



End SweeperFacts.

(** ** Weakest preconditions *)

Section Wp.
Context {A B : Type}.

Lemma wp_ret (a : A) s Q : Q (Return a) s -> wp (ret a) s Q.
Proof. exact id. Qed.

Lemma wp_throw e s (Q : Completion A -> State -> Prop) : Q (Throw e) s -> wp (throw e) s Q.
Proof. exact id. Qed.

Lemma wp_gets (f : State -> A) s Q : Q (Return (f s)) s -> wp (gets f) s Q.
Proof. exact id. Qed.

Lemma wp_modify f s Q : Q (Return tt) (f s) -> wp (modify f) s Q.
Proof. exact id. Qed.

Lemma wp_bind (m : M A) (k : A -> M B) s Q :
  wp m s (fun r s' => match r with
                      | Return a => wp (k a) s' Q
                      | Throw e => Q (Throw e) s'
                      end) ->
  wp (bind m k) s Q.
Proof. unfold wp, bind. destruct (m s) as [[a|e] s']; exact id. Qed.

Lemma wp_try_catch (m : M A) h s Q :
  wp m s (fun r s' => match r with
                      | Return a => Q (Return a) s'
                      | Throw e => wp (h e) s' Q
                      end) ->
  wp (try_catch m h) s Q.
Proof. unfold wp, try_catch. destruct (m s) as [[a|e] s']; exact id. Qed.

Lemma wp_web3 c (answer : nat -> Completion A) s Q :
  Q (answer (calls s)) (with_calls (S (calls s)) (with_trace (trace s ++ [EvWeb3 c]) s)) ->
  wp (web3 c answer) s Q.
Proof. exact id. Qed.

Lemma wp_conseq (m : M A) s (Q Q' : Completion A -> State -> Prop) :
  wp m s Q -> (forall r s', Q r s' -> Q' r s') -> wp m s Q'.
Proof. unfold wp. auto. Qed.
End Wp.

Lemma wp_emit e s Q : Q (Return tt) (with_trace (trace s ++ [e]) s) -> wp (emit e) s Q.
Proof. exact id. Qed.

Lemma wp_for_each {A} (I : State -> Prop) (l : list A) body s :
  I s ->
  (forall x s, I s -> wp (body x) s (fun _ s' => I s')) ->
  wp (for_each l body) s (fun _ s' => I s').
Proof.
  intros Hs Hb. revert s Hs. induction l as [|x l IH]; intros s Hs; simpl; [exact Hs|].
  apply wp_bind. eapply wp_conseq; [apply (Hb x s Hs)|].
  intros [[]|e] s' Hs'; [apply IH, Hs'|exact Hs'].
Qed.

(** ** TokenDetector *)

Section DetectorFacts.
Context `{Host} (W : Web3Service).

Lemma wp_invokeSweepToken w t sym nm bal urg s :
  wp (invokeSweepToken W w t sym nm bal urg) s
     (fun r s' => (exists x, r = Return x)
                  /\ events is_sweep_invocation s'
                     = events is_sweep_invocation s ++ [EvSweepToken w t sym nm bal urg]).
Proof.
  unfold wp, invokeSweepToken, bind, emit, modify.
  set (s1 := with_trace _ s).
  destruct (sweepToken_returns W w t sym nm bal urg s1) as [r Hr].
  pose proof (sweepToken_invocations W w t sym nm bal urg s1) as Hi.
  destruct (sweepToken W w t sym nm bal urg s1) as [r' s2]. simpl in *. subst r'.
  split; [eauto|]. rewrite Hi. unfold events, s1. simpl.
  rewrite filter_app_one. reflexivity.
Qed.




Lemma manualSweepToken_spec w t s :
  manualSweepToken w t s
  = (match List.find (detection_for (JS.toLowerCase t))
             (sort_newest_first
                (List.filter (fun d => String.eqb (td_walletAddress d) w)
                             (tokenDetections (storage s)))) with
     | Some _ => Throw "this.triggerAutoSweep is not a function"
     | None => Return tt
     end, s).
Proof.
  unfold manualSweepToken, bind, getTokenDetections, gets.
  destruct (List.find _ _); reflexivity.
Qed.

(** The route of server/routes.ts does forward a detection, whatever
    its [tradingEnabled], with the urgency of the request. *)
Lemma routeManualSweep_forwards address t urgency d s :
  List.find (detection_for (JS.toLowerCase t))
    (sort_newest_first
       (List.filter (fun d => String.eqb (td_walletAddress d) address)
                    (tokenDetections (storage s)))) = Some d ->
  events is_sweep_invocation (snd (routeManualSweep W address t urgency s))
  = events is_sweep_invocation s
    ++ [EvSweepToken address t (td_tokenSymbol d) (td_tokenName d) (td_balance d)
          (default medium urgency)].
Proof.
  intros Hd.
  change (wp (routeManualSweep W address t urgency) s (fun _ s' =>
            events is_sweep_invocation s'
            = events is_sweep_invocation s
              ++ [EvSweepToken address t (td_tokenSymbol d) (td_tokenName d) (td_balance d)
                    (default medium urgency)])).
  unfold routeManualSweep. apply wp_try_catch. cbv zeta.
  apply wp_bind. unfold getTokenDetections. apply wp_gets. rewrite Hd.
  apply wp_bind. eapply wp_conseq; [apply wp_invokeSweepToken|].
  intros r s' [[x ->] He]. destruct x; apply wp_ret; exact He.
Qed.

End DetectorFacts.

(** C6.  [manualSweepToken] finds the detection of the wallet's LINK and
    then fails: it calls [this.triggerAutoSweep], which [TokenDetector]
    does not define, so nothing reaches [sweepToken] and the state is as
    before.  The route of server/routes.ts, given the same detection
    (whose [tradingEnabled] is false) and the urgency [low], does call
    [sweepToken] with that urgency. *)
Theorem manualSweepToken_rejects :
  manualSweepToken "0xw" LINK demoWatched
  = (Throw "this.triggerAutoSweep is not a function", demoWatched)
  /\ events is_sweep_invocation (snd (routeManualSweep demoLedger "0xw" LINK (Some low) demoWatched))
     = [EvSweepToken "0xw" LINK "LINK" "Chainlink" "100.000000" low].
Proof. split; vm_compute; reflexivity. Qed.

(** ** Confirmation polling *)

Section PollingFacts.
Context `{Host} (W : Web3Service).

Lemma updateTransaction_timers id u s Q :
  (forall s', intervals s' = intervals s -> timeouts s' = timeouts s ->
              trace s' = trace s -> forall r, Q (Return r) s') ->
  wp (updateTransaction id u) s Q.
Proof.
  intros HQ. unfold wp, updateTransaction, bind, gets.
  destruct (List.find _ _); apply HQ; reflexivity.
Qed.

Lemma broadcastSweeper_timers ty d w s Q :
  (forall s', intervals s' = intervals s -> timeouts s' = timeouts s ->
              events is_receipt_query s' = events is_receipt_query s -> Q (Return tt) s') ->
  wp (broadcastSweeper ty d w) s Q.
Proof.
  intros HQ. unfold wp, broadcastSweeper, bind, gets.
  destruct (sweeperBroadcast s); apply HQ; try reflexivity.
  unfold events. simpl. rewrite filter_app_one. apply app_nil_r.
Qed.

Lemma checkReceipt_spec (p : Poll) (s : State) :
  wp (checkReceipt W p) s (fun r s' =>
    r = Return tt
    /\ receipt_queries s' = receipt_queries s + 1
    /\ (timeouts s' = timeouts s
        \/ (S (p_attempts p) < 60
            /\ timeouts s' = timeouts s ++
                 [{| to_delay := 5000;
                     to_poll := {| p_transactionId := p_transactionId p;
                                   p_txHash := p_txHash p;
                                   p_walletAddress := p_walletAddress p;
                                   p_attempts := S (p_attempts p) |} |}]))).
Proof.
  assert (Hq : forall s', trace s' = trace s ++ [EvWeb3 (CallGetTransactionReceipt (p_txHash p))] ->
               receipt_queries s' = receipt_queries s + 1).
  { intros s' Ht. unfold receipt_queries, events. rewrite Ht, filter_app_one, length_app.
    reflexivity. }
  unfold checkReceipt. apply wp_try_catch, wp_bind, wp_web3. cbv beta.
  set (s1 := with_calls _ _).
  destruct (w3_getTransactionReceipt W (calls s) (p_txHash p)) as [[r|]|e].
  - cbv zeta. apply wp_bind, updateTransaction_timers. intros s2 Hi2 Ht2 Htr2 _.
    apply broadcastSweeper_timers. intros s3 Hi3 Ht3 He3.
    split; [reflexivity|]. split; [|left; rewrite Ht3, Ht2; reflexivity].
    unfold receipt_queries. rewrite He3. apply Hq. rewrite Htr2. reflexivity.
  - cbv zeta. destruct (S (p_attempts p) <? 60)%nat eqn:Ea.
    + unfold setTimeout. apply wp_bind, wp_emit, wp_modify.
      split; [reflexivity|]. split.
      * unfold receipt_queries, events. cbn [trace with_trace with_timers with_calls s1].
        rewrite !filter_app_one, !length_app. simpl. lia.
      * right. split; [apply Nat.ltb_lt, Ea|reflexivity].
    + apply wp_ret. split; [reflexivity|]. split; [apply Hq; reflexivity|left; reflexivity].
  - apply wp_ret. split; [reflexivity|]. split; [apply Hq; reflexivity|left; reflexivity].
Qed.

Lemma budget_delete s i t :
  timeouts s !! i = Some t ->
  budget s = remaining t + sum_list_with remaining (delete i (timeouts s)).
Proof.
  unfold budget. generalize (timeouts s). intros l. revert i.
  induction l as [|y l IH]; intros [|i] Hl; simpl in *; try discriminate.
  - injection Hl as ->. reflexivity.
  - rewrite (IH i Hl). lia.
Qed.

(** A firing asks the ledger at most once and uses up the budget it
    asks from; it never throws. *)
Lemma fireTimeout_budget (i : nat) (s : State) :
  wp (fireTimeout W i) s (fun r s' =>
    r = Return tt
    /\ receipt_queries s' + budget s' <= receipt_queries s + budget s
    /\ (i < length (timeouts s) -> budget s' < budget s)).
Proof.
  unfold fireTimeout. apply wp_bind, wp_gets.
  destruct (timeouts s !! i) as [t|] eqn:Ht.
  2:{ apply wp_ret. split; [reflexivity|]. split; [lia|].
      intros Hi. apply lookup_ge_None in Ht. lia. }
  apply wp_bind, wp_modify.
  set (s1 := with_timers _ _ s).
  eapply wp_conseq; [apply checkReceipt_spec|].
  intros r s2 (-> & Hq & Hts).
  pose proof (budget_delete s i t Ht) as Hb.
  assert (Hq1 : receipt_queries s1 = receipt_queries s) by reflexivity.
  assert (Hr : 1 <= remaining t) by (unfold remaining; lia).
  split; [reflexivity|].
  destruct Hts as [Hts|[Ha Hts]].
  - assert (budget s2 = sum_list_with remaining (delete i (timeouts s))) as ->.
    { unfold budget. rewrite Hts. reflexivity. }
    split; [lia|intros _; lia].
  - assert (budget s2 = sum_list_with remaining (delete i (timeouts s))
                        + (60 - S (p_attempts (to_poll t)))) as ->.
    { unfold budget. rewrite Hts. cbn [timeouts with_timers s1].
      rewrite sum_list_with_app. simpl. unfold remaining at 2. simpl. lia. }
    assert (remaining t = 60 - p_attempts (to_poll t)) by (unfold remaining; lia).
    split; [lia|intros _; lia].
Qed.

Lemma for_each_returns {A} (l : list A) (body : A -> M unit) s :
  (forall x s, fst (body x s) = Return tt) -> fst (for_each l body s) = Return tt.
Proof.
  intros Hb. revert s. induction l as [|x l IH]; intros s; simpl; [reflexivity|].
  unfold bind. specialize (Hb x s). destruct (body x s) as [r s']. simpl in Hb. subst r.
  apply IH.
Qed.

Lemma schedule_budget (schedule : list nat) (s : State) :
  let r := for_each schedule (fireTimeout W) s in
  fst r = Return tt
  /\ receipt_queries (snd r) + budget (snd r) <= receipt_queries s + budget s.
Proof.
  split.
  - apply for_each_returns. intros i s'. apply (fireTimeout_budget i s').
  - apply (wp_for_each (fun s' => receipt_queries s' + budget s' <= receipt_queries s + budget s));
      [lia|].
    intros i s' Hs'. eapply wp_conseq; [apply fireTimeout_budget|].
    intros r s'' (_ & Hle & _). simpl in *. lia.
Qed.

Lemma broadcastSweeper_quiet f ty d w s Q :
  (forall ty d w, f (EvBroadcast ty d w) = false) ->
  (forall s', intervals s' = intervals s -> timeouts s' = timeouts s ->
              events f s' = events f s -> Q (Return tt) s') ->
  wp (broadcastSweeper ty d w) s Q.
Proof.
  intros Hf HQ. unfold wp, broadcastSweeper, bind, gets.
  destruct (sweeperBroadcast s); apply HQ; try reflexivity.
  unfold events. simpl. rewrite filter_app_one, Hf. apply app_nil_r.
Qed.

(** One run of [checkReceipt] asks once, for the hash of its poll, and
    either ends the poll or arms its next timeout. *)
Lemma checkReceipt_spec_of (txHash : string) (p : Poll) (s : State) :
  wp (checkReceipt W p) s (fun r s' =>
    r = Return tt
    /\ receipt_queries_of txHash s'
       = receipt_queries_of txHash s + (if String.eqb (p_txHash p) txHash then 1 else 0)
    /\ (timeouts s' = timeouts s
        \/ (S (p_attempts p) < 60
            /\ timeouts s' = timeouts s ++
                 [{| to_delay := 5000;
                     to_poll := {| p_transactionId := p_transactionId p;
                                   p_txHash := p_txHash p;
                                   p_walletAddress := p_walletAddress p;
                                   p_attempts := S (p_attempts p) |} |}]))).
Proof.
  assert (Hq : forall s', events (is_receipt_query_of txHash) s'
                          = events (is_receipt_query_of txHash)
                              (with_trace (trace s ++ [EvWeb3 (CallGetTransactionReceipt
                                                                 (p_txHash p))]) s) ->
               receipt_queries_of txHash s'
               = receipt_queries_of txHash s
                 + (if String.eqb (p_txHash p) txHash then 1 else 0)).
  { intros s' Ht. unfold receipt_queries_of. rewrite Ht. unfold events. cbn [trace with_trace].
    rewrite filter_app_one, length_app. cbn [is_receipt_query_of].
    destruct (String.eqb (p_txHash p) txHash); reflexivity. }
  unfold checkReceipt. apply wp_try_catch, wp_bind, wp_web3. cbv beta.
  set (s1 := with_calls _ _).
  destruct (w3_getTransactionReceipt W (calls s) (p_txHash p)) as [[r|]|e].
  - cbv zeta. apply wp_bind, updateTransaction_timers. intros s2 Hi2 Ht2 Htr2 _.
    apply (broadcastSweeper_quiet (is_receipt_query_of txHash)); [reflexivity|].
    intros s3 Hi3 Ht3 He3.
    split; [reflexivity|]. split; [|left; rewrite Ht3, Ht2; reflexivity].
    apply Hq. rewrite He3. unfold events. rewrite Htr2. reflexivity.
  - cbv zeta. destruct (S (p_attempts p) <? 60)%nat eqn:Ea.
    + unfold setTimeout. apply wp_bind, wp_emit, wp_modify.
      split; [reflexivity|]. split.
      * apply Hq. unfold events. cbn [trace with_trace with_timers with_calls s1].
        rewrite (filter_app_one _ _ (EvSetTimeout 5000)). apply app_nil_r.
      * right. split; [apply Nat.ltb_lt, Ea|reflexivity].
    + apply wp_ret. split; [reflexivity|]. split; [apply Hq; reflexivity|left; reflexivity].
  - apply wp_ret. split; [reflexivity|]. split; [apply Hq; reflexivity|left; reflexivity].
Qed.

Lemma budget_of_delete txHash s i t :
  timeouts s !! i = Some t ->
  budget_of txHash s
  = (if String.eqb (p_txHash (to_poll t)) txHash then remaining t else 0)
    + sum_list_with (fun t => if String.eqb (p_txHash (to_poll t)) txHash
                              then remaining t else 0) (delete i (timeouts s)).
Proof.
  unfold budget_of. generalize (timeouts s). intros l. revert i.
  induction l as [|y l IH]; intros [|i] Hl; simpl in *; try discriminate.
  - injection Hl as ->. reflexivity.
  - rewrite (IH i Hl). lia.
Qed.

(** A firing uses up the budget of the hash it asks for. *)
Lemma fireTimeout_budget_of (txHash : string) (i : nat) (s : State) :
  wp (fireTimeout W i) s (fun r s' =>
    receipt_queries_of txHash s' + budget_of txHash s'
    <= receipt_queries_of txHash s + budget_of txHash s).
Proof.
  unfold fireTimeout. apply wp_bind, wp_gets.
  destruct (timeouts s !! i) as [t|] eqn:Ht; [|apply wp_ret; lia].
  apply wp_bind, wp_modify.
  set (s1 := with_timers _ _ s).
  eapply wp_conseq; [apply (checkReceipt_spec_of txHash)|].
  intros r s2 (-> & Hq & Hts).
  pose proof (budget_of_delete txHash s i t Ht) as Hb.
  assert (Hq1 : receipt_queries_of txHash s1 = receipt_queries_of txHash s) by reflexivity.
  assert (Hr : 1 <= remaining t) by (unfold remaining; lia).
  rewrite Hq, Hq1, Hb.
  destruct Hts as [Hts|[Ha Hts]].
  - assert (budget_of txHash s2
            = sum_list_with (fun t => if String.eqb (p_txHash (to_poll t)) txHash
                                      then remaining t else 0) (delete i (timeouts s))) as ->.
    { unfold budget_of. rewrite Hts. reflexivity. }
    destruct (String.eqb (p_txHash (to_poll t)) txHash); lia.
  - assert (budget_of txHash s2
            = sum_list_with (fun t => if String.eqb (p_txHash (to_poll t)) txHash
                                      then remaining t else 0) (delete i (timeouts s))
              + (if String.eqb (p_txHash (to_poll t)) txHash
                 then 60 - S (p_attempts (to_poll t)) else 0)) as ->.
    { unfold budget_of. rewrite Hts. cbn [timeouts with_timers s1].
      rewrite sum_list_with_app. cbn [sum_list_with to_poll p_txHash].
      destruct (String.eqb (p_txHash (to_poll t)) txHash); [|lia].
      unfold remaining at 2. cbn [to_poll p_attempts]. lia. }
    assert (remaining t = 60 - p_attempts (to_poll t)) by (unfold remaining; lia).
    destruct (String.eqb (p_txHash (to_poll t)) txHash); lia.
Qed.

Lemma schedule_budget_of (txHash : string) (schedule : list nat) (s : State) :
  let r := for_each schedule (fireTimeout W) s in
  receipt_queries_of txHash (snd r) + budget_of txHash (snd r)
  <= receipt_queries_of txHash s + budget_of txHash s.
Proof.
  apply (wp_for_each (fun s' => receipt_queries_of txHash s' + budget_of txHash s'
                                <= receipt_queries_of txHash s + budget_of txHash s));
    [lia|].
  intros i s' Hs'. eapply wp_conseq; [apply (fireTimeout_budget_of txHash)|].
  intros r s'' Hle. simpl in *. lia.
Qed.

(** No timeout at the position: the firing does nothing. *)
Lemma firings_absent (n : nat) (s : State) :
  firings W (length (timeouts s)) n s = (Return tt, s).
Proof.
  assert (E : fireTimeout W (length (timeouts s)) s = (Return tt, s)).
  { unfold fireTimeout, bind, gets.
    assert (L : timeouts s !! length (timeouts s) = None) by (apply lookup_ge_None; lia).
    rewrite L. reflexivity. }
  induction n as [|n IH]; [reflexivity|].
  unfold firings in *. cbn [repeat for_each]. unfold bind at 1. rewrite E. exact IH.
Qed.

(** The poll at the end of the queue is over once it has fired as often
    as its counter allows, whatever the ledger answers; the timeouts
    before it are left alone. *)
Lemma firings_end (k : nat) :
  forall (s : State) others d p,
    timeouts s = others ++ [{| to_delay := d; to_poll := p |}] ->
    1 <= k -> 60 <= p_attempts p + k ->
    fst (firings W (length others) k s) = Return tt
    /\ timeouts (snd (firings W (length others) k s)) = others.
Proof.
  induction k as [|k IH]; intros s others d p Ht Hk Ha; [lia|].
  unfold firings. cbn [repeat for_each]. fold (firings W (length others) k).
  unfold bind.
  assert (Hstep : wp (fireTimeout W (length others)) s (fun r s' =>
            r = Return tt
            /\ (timeouts s' = others
                \/ (S (p_attempts p) < 60
                    /\ timeouts s' = others ++
                         [{| to_delay := 5000;
                             to_poll := {| p_transactionId := p_transactionId p;
                                           p_txHash := p_txHash p;
                                           p_walletAddress := p_walletAddress p;
                                           p_attempts := S (p_attempts p) |} |}])))).
  { unfold fireTimeout. apply wp_bind, wp_gets. rewrite Ht.
    rewrite lookup_app_r, Nat.sub_diag by lia. cbn [lookup list_lookup].
    apply wp_bind, wp_modify. cbn [to_poll].
    eapply wp_conseq; [apply checkReceipt_spec|].
    intros r s2 (-> & _ & Hts). split; [reflexivity|].
    assert (Hd : delete (length others) (others ++ [{| to_delay := d; to_poll := p |}])
                 = others).
    { clear. induction others as [|x l IHl]; [reflexivity|]. cbn. f_equal. exact IHl. }
    cbn [timeouts with_timers] in Hts. rewrite Ht, Hd in Hts.
    destruct Hts as [Hts|[Hlt Hts]]; [left; exact Hts|right; split; [exact Hlt|exact Hts]]. }
  unfold wp in Hstep. destruct (fireTimeout W (length others) s) as [r s1].
  cbn [fst snd] in Hstep. destruct Hstep as [-> [Hts|[Hlt Hts]]].
  - rewrite <- Hts, firings_absent. split; reflexivity.
  - apply (IH s1 others 5000%Z _ Hts); cbn [p_attempts]; lia.
Qed.

Lemma fireTimeout_last_without_receipt (s : State) others d p :
  (forall n, w3_getTransactionReceipt W n (p_txHash p) = Return None) ->
  timeouts s = others ++ [{| to_delay := d; to_poll := p |}] ->
  fireTimeout W (length others) s
  = (Return tt,
     let s1 := with_calls (S (calls s))
                 (with_trace (trace s ++ [EvWeb3 (CallGetTransactionReceipt (p_txHash p))])
                    (with_timers (intervals s) others s)) in
     if (S (p_attempts p) <? 60)%nat
     then with_timers (intervals s)
            (others ++
             [{| to_delay := 5000;
                 to_poll := {| p_transactionId := p_transactionId p; p_txHash := p_txHash p;
                               p_walletAddress := p_walletAddress p;
                               p_attempts := S (p_attempts p) |} |}])
            (with_trace (trace s1 ++ [EvSetTimeout 5000]) s1)
     else s1).
Proof.
  intros Hnone Ht.
  assert (Hd : delete (length others) (others ++ [{| to_delay := d; to_poll := p |}])
               = others).
  { clear. induction others as [|x l IHl]; [reflexivity|]. cbn. f_equal. exact IHl. }
  unfold fireTimeout, checkReceipt, setTimeout, emit, try_catch, bind, gets, modify, web3, ret.
  rewrite Ht, lookup_app_r, Nat.sub_diag by lia.
  cbn [lookup list_lookup to_poll calls with_timers].
  rewrite Hnone. cbv zeta.
  destruct (S (p_attempts p) <? 60)%nat;
    cbn [timeouts intervals trace with_timers with_trace with_calls];
    rewrite Ht, Hd; reflexivity.
Qed.

Lemma firings_without_receipt (k : nat) :
  forall (s : State) others d p,
    (forall n, w3_getTransactionReceipt W n (p_txHash p) = Return None) ->
    timeouts s = others ++ [{| to_delay := d; to_poll := p |}] ->
    p_attempts p + k = 60 -> 1 <= k ->
    let s' := snd (firings W (length others) k s) in
    storage s' = storage s
    /\ trace s' = trace s ++ pollTrace (p_txHash p) k.
Proof.
  induction k as [|k IH]; intros s others d p Hnone Ht Ha Hk; [lia|].
  unfold firings. cbn [repeat for_each]. unfold bind. fold (firings W (length others) k).
  rewrite (fireTimeout_last_without_receipt s others d p Hnone Ht). cbv zeta.
  destruct k as [|k].
  - assert (E : (S (p_attempts p) <? 60)%nat = false) by (apply Nat.ltb_ge; lia).
    rewrite E. unfold firings. cbn [repeat for_each]. unfold ret. cbn [snd].
    split; reflexivity.
  - assert (E : (S (p_attempts p) <? 60)%nat = true) by (apply Nat.ltb_lt; lia).
    rewrite E.
    match goal with |- context [firings W _ _ ?st] => set (s1 := st) end.
    specialize (IH s1 others 5000%Z
                  {| p_transactionId := p_transactionId p; p_txHash := p_txHash p;
                     p_walletAddress := p_walletAddress p;
                     p_attempts := S (p_attempts p) |} Hnone eq_refl).
    cbn [p_attempts p_txHash] in IH.
    destruct IH as (I2 & I3); [lia|lia|].
    split; [rewrite I2; reflexivity|].
    rewrite I3. unfold s1. cbn [trace with_timers with_trace with_calls].
    rewrite <- !app_assoc. reflexivity.
Qed.

(** C8.  [monitorTransactionReceipt] arms one timeout of 10000 ms behind
    those that are pending.  Whatever the order in which the pending
    timeouts fire and whatever the ledger answers, no firing throws, and
    the receipt of this transaction is asked for at most 60 times more
    than the polls that were pending for the same hash could still ask;
    the new poll adds 60 to the queries that all polls together can
    cause.  Once its timeout has fired 60 times the poll is over: no
    timeout of it is pending, the others are as they were.  If no
    receipt ever arrives, the poll asks exactly 60 times, 5000 ms apart,
    leaves the store (so the transaction record) as it was and arms no
    further timer. *)
Theorem confirmation_polling_bounded (transactionId : Id) (txHash walletAddress : string)
    (schedule : list nat) (s : State) :
  let s1 := snd (monitorTransactionReceipt transactionId txHash walletAddress s) in
  let position := length (timeouts s) in
  timeouts s1
  = timeouts s ++ [{| to_delay := 10000;
                      to_poll := {| p_transactionId := transactionId; p_txHash := txHash;
                                    p_walletAddress := walletAddress; p_attempts := 0 |} |}]
  /\ (let r := for_each schedule (fireTimeout W) s1 in
      fst r = Return tt
      /\ receipt_queries_of txHash (snd r)
         <= receipt_queries_of txHash s + budget_of txHash s + 60
      /\ receipt_queries (snd r) <= receipt_queries s + budget s + 60)
  /\ fst (firings W position 60 s1) = Return tt
  /\ timeouts (snd (firings W position 60 s1)) = timeouts s
  /\ ((forall n, w3_getTransactionReceipt W n txHash = Return None) ->
      storage (snd (firings W position 60 s1)) = storage s
      /\ trace (snd (firings W position 60 s1))
         = trace s ++ EvSetTimeout 10000 :: pollTrace txHash 60).
Proof.
  intros s1 position. subst position.
  assert (Ht1 : timeouts s1
                = timeouts s ++
                  [{| to_delay := 10000;
                      to_poll := {| p_transactionId := transactionId; p_txHash := txHash;
                                    p_walletAddress := walletAddress; p_attempts := 0 |} |}])
    by reflexivity.
  assert (Hb1 : budget s1 = budget s + 60).
  { unfold budget. rewrite Ht1, sum_list_with_app. reflexivity. }
  assert (Hbo : budget_of txHash s1 = budget_of txHash s + 60).
  { unfold budget_of. rewrite Ht1, sum_list_with_app. cbn [sum_list_with to_poll p_txHash].
    rewrite String.eqb_refl. reflexivity. }
  assert (Hq1 : receipt_queries s1 = receipt_queries s).
  { unfold receipt_queries, events, s1. simpl. rewrite filter_app_one. simpl.
    rewrite app_nil_r. reflexivity. }
  assert (Hqo : receipt_queries_of txHash s1 = receipt_queries_of txHash s).
  { unfold receipt_queries_of, events, s1. simpl. rewrite filter_app_one. simpl.
    rewrite app_nil_r. reflexivity. }
  split; [exact Ht1|]. split; [|split; [|split]].
  - destruct (schedule_budget schedule s1) as [Hr Hle].
    pose proof (schedule_budget_of txHash schedule s1) as Hlo.
    split; [exact Hr|]. simpl in *. split; lia.
  - apply (firings_end 60 s1 (timeouts s) _ _ Ht1); cbn [p_attempts]; lia.
  - apply (firings_end 60 s1 (timeouts s) _ _ Ht1); cbn [p_attempts]; lia.
  - intros Hnone.
    destruct (firings_without_receipt 60 s1 (timeouts s) 10000%Z
                {| p_transactionId := transactionId; p_txHash := txHash;
                   p_walletAddress := walletAddress; p_attempts := 0 |} Hnone Ht1)
      as (Hs & Htr); [reflexivity|lia|].
    split; [rewrite Hs; reflexivity|]. rewrite Htr.
    unfold s1. simpl. rewrite <- app_assoc. reflexivity.
Qed.
End PollingFacts.

(** ** The trading flag *)

#[export] Instance flag_le_preorder : PreOrder flag_le.
Proof.
  split.
  - intros d. unfold flag_le. auto.
  - intros d1 d2 d3 (I1 & W1 & T1 & F1) (I2 & W2 & T2 & F2). unfold flag_le.
    repeat split; try congruence. auto.
Qed.

#[export] Instance detections_grow_preorder : PreOrder detections_grow.
Proof.
  split.
  - intros s. exists (detections s), []. split; [symmetry; apply app_nil_r|reflexivity].
  - intros s1 s2 s3 (k1 & n1 & E1 & F1) (k2 & n2 & E2 & F2).
    rewrite E1 in F2. apply Forall2_app_inv_l in F2 as (k2a & k2b & Fa & Fb & ->).
    exists k2a, (k2b ++ n2). split; [rewrite E2; symmetry; apply app_assoc|].
    eapply Forall2_trans; [|exact F1|exact Fa].
    intros x y z Hxy Hyz. etrans; eassumption.
Qed.

Lemma unchanged_grow {A} (m : M A) :
  preserves (unchanged detections) m -> preserves detections_grow m.
Proof.
  apply preserves_impl. intros s s' Hs. exists (detections s), [].
  split; [rewrite Hs; symmetry; apply app_nil_r|reflexivity].
Qed.

Lemma createTokenDetection_grow d : preserves detections_grow (createTokenDetection d).
Proof.
  intros s. unfold detections_grow, detections. simpl.
  eexists _, [_]. split; reflexivity.
Qed.

(** An update that does not write [false] into the flag keeps every
    record's identity and never lowers a flag. *)
Lemma merge_detection_le u time d :
  ud_tradingEnabled u <> Some false -> flag_le d (merge_detection u time d).
Proof.
  intros Hu. unfold flag_le, merge_detection. simpl. repeat split.
  destruct (ud_tradingEnabled u) as [[]|]; simpl; auto; try (exfalso; apply Hu; reflexivity).
Qed.

Lemma updateTokenDetection_grow id u :
  ud_tradingEnabled u <> Some false -> preserves detections_grow (updateTokenDetection id u).
Proof.
  intros Hu s. unfold updateTokenDetection, bind, gets.
  destruct (List.find _ _); [|reflexivity]. simpl.
  unfold detections_grow, detections. simpl.
  eexists _, []. split; [symmetry; apply app_nil_r|].
  induction (tokenDetections (storage s)) as [|d l IH]; simpl; constructor; [|exact IH].
  destruct (_ =? _)%nat; [apply merge_detection_le, Hu|reflexivity].
Qed.

(** Leaves that do not touch the projection at hand. *)
Lemma updateTransaction_frame {B} (proj : State -> B) id u :
  (forall st f, proj (with_storage (set_transactions f (storage st)) st) = proj st) ->
  preserves (unchanged proj) (updateTransaction id u).
Proof.
  intros Hp s. unfold updateTransaction, bind, gets, unchanged.
  destruct (List.find _ _); simpl; [apply Hp|reflexivity].
Qed.

Ltac frame_leaf :=
  first
    [ solve [intros ?; reflexivity]
    | apply updateTransaction_frame; intros; reflexivity ].

Ltac frame := repeat first [preserves_step | frame_leaf].

Section FlagFacts.
Context `{Host} (W : Web3Service).

Lemma sweepToken_detections w t sym nm bal urg :
  preserves (unchanged detections) (sweepToken W w t sym nm bal urg).
Proof.
  unfold sweepToken, sweepAcquire, sweepAttempt, sweepBody, sweepFailed,
    getOptimalGasPrice, monitorTransactionReceipt, broadcastSweeper.
  frame.
Qed.

Lemma fireTimeout_detections i : preserves (unchanged detections) (fireTimeout W i).
Proof. unfold fireTimeout, checkReceipt, broadcastSweeper, setTimeout. frame. Qed.

Lemma emergencyStop_detections w : preserves (unchanged detections) (emergencyStop w).
Proof. unfold emergencyStop. frame. Qed.

Lemma updateNetworkLoad_detections : preserves (unchanged detections) (updateNetworkLoad W).
Proof. unfold updateNetworkLoad. frame. Qed.

Lemma invokeSweepToken_detections w t sym nm bal urg :
  preserves (unchanged detections) (invokeSweepToken W w t sym nm bal urg).
Proof. unfold invokeSweepToken. frame. apply sweepToken_detections. Qed.

Ltac grow_leaf :=
  first
    [ apply createTokenDetection_grow
    | apply updateTokenDetection_grow; discriminate
    | apply unchanged_grow;
      first [ apply invokeSweepToken_detections | frame_leaf ] ].

Ltac grow := repeat first [preserves_step | grow_leaf].

Lemma handleNewTokenDetection_grow w t nm sym bal :
  preserves detections_grow (handleNewTokenDetection w t nm sym bal).
Proof. unfold handleNewTokenDetection. grow. Qed.

Lemma checkTradingStatus_grow w t sym :
  preserves detections_grow (checkTradingStatus W w t sym).
Proof.
  unfold checkTradingStatus, isContractTradingEnabled, getTokenBalance. grow.
Qed.

Lemma scanWalletForTokens_grow w : preserves detections_grow (scanWalletForTokens W w).
Proof.
  unfold scanWalletForTokens, scanKnownToken, getTokenBalance.
  grow; first [apply handleNewTokenDetection_grow | apply checkTradingStatus_grow].
Qed.

Lemma scanSpecificTokens_grow w : preserves detections_grow (scanSpecificTokens W w).
Proof.
  unfold scanSpecificTokens, scanSpecificToken, getTokenBalance, getTokenInfo,
    isContractTradingEnabled, broadcastDetector.
  grow; apply handleNewTokenDetection_grow.
Qed.

Lemma periodicScan_grow iv : preserves detections_grow (periodicScan W iv).
Proof.
  unfold periodicScan, periodicScanHead, periodicScanBody, clearInterval.
  grow; first [apply scanWalletForTokens_grow | apply scanSpecificTokens_grow].
Qed.

Lemma startMonitoring_grow w : preserves detections_grow (startMonitoring W w).
Proof.
  unfold startMonitoring, schedulePeriodicScan, setInterval.
  grow. apply scanWalletForTokens_grow.
Qed.

Lemma addAndMonitorSpecificToken_grow w t :
  preserves detections_grow (addAndMonitorSpecificToken W w t).
Proof.
  unfold addAndMonitorSpecificToken, getTokenBalance, getTokenInfo,
    isContractTradingEnabled.
  grow; try apply handleNewTokenDetection_grow.
  all: apply unchanged_grow; intros s; unfold addSpecificTokenToMonitor, modify, unchanged;
    simpl; destruct (negb _); reflexivity.
Qed.

(** No operation of the engine lowers a flag or drops a record. *)
Lemma exec_grow (op : Op) : preserves detections_grow (exec W op).
Proof.
  destruct op; cbn [exec].
  - apply startMonitoring_grow.
  - unfold stopMonitoring. grow.
  - apply periodicScan_grow.
  - apply unchanged_grow. intros s. unfold addSpecificTokenToMonitor, modify, unchanged.
    simpl. destruct (negb _); reflexivity.
  - apply unchanged_grow. intros s. unfold removeSpecificTokenFromMonitor, modify, unchanged.
    simpl. destruct (includes _ _); reflexivity.
  - grow. apply addAndMonitorSpecificToken_grow.
  - unfold manualSweepToken. grow.
  - unfold routeManualSweep. grow.
  - apply unchanged_grow, fireTimeout_detections.
  - apply unchanged_grow, emergencyStop_detections.
  - apply unchanged_grow, updateNetworkLoad_detections.
Qed.

Lemma Forall2_flag_le_true l k d :
  Forall2 flag_le l k -> In d l -> tradingEnabled d = true ->
  exists d', In d' k /\ td_id d' = td_id d
             /\ td_walletAddress d' = td_walletAddress d
             /\ td_tokenAddress d' = td_tokenAddress d
             /\ tradingEnabled d' = true.
Proof.
  intros F Hd Ht. induction F as [|x y l k Hxy F IH]; [contradiction|].
  destruct Hd as [->|Hd].
  - exists y. destruct Hxy as (Hi & Hw & Hk & Hf). split; [left; reflexivity|auto].
  - destruct (IH Hd) as (d' & Hd' & Hr). exists d'. split; [right; exact Hd'|exact Hr].
Qed.

Lemma grow_flag s s' d :
  detections_grow s s' -> In d (detections s) -> tradingEnabled d = true ->
  exists d', In d' (detections s') /\ td_id d' = td_id d
             /\ td_walletAddress d' = td_walletAddress d
             /\ td_tokenAddress d' = td_tokenAddress d
             /\ tradingEnabled d' = true.
Proof.
  intros (kept & new & E & F) Hd Ht.
  destruct (Forall2_flag_le_true _ _ _ F Hd Ht) as (d' & Hd' & Hr).
  exists d'. split; [|exact Hr]. rewrite E. apply in_or_app. left. exact Hd'.
Qed.

(** *** Sweeps are paid for by flags *)

Section Paid.

Context (w t : string).

#[export] Instance paid_preorder : PreOrder (paid w t).
Proof.
  split; [intros s; unfold paid; lia|].
  intros s1 s2 s3. unfold paid. lia.
Qed.

#[export] Instance still_preorder : PreOrder (trade w t 0 0).
Proof.
  split; [intros s; unfold trade; lia|].
  intros s1 s2 s3. unfold trade. lia.
Qed.

Lemma trade_paid g p s s' : p <= g -> trade w t g p s s' -> paid w t s s'.
Proof. unfold trade, paid. lia. Qed.

Lemma still_paid {A} (m : M A) : preserves (trade w t 0 0) m -> preserves (paid w t) m.
Proof. apply preserves_impl. intros s s'. apply trade_paid. lia. Qed.

Lemma spend_bind {A B} p1 p2 (m : M A) (k : A -> M B) :
  preserves (trade w t 0 p1) m -> (forall a, preserves (trade w t 0 p2) (k a)) ->
  preserves (trade w t 0 (p1 + p2)) (bind m k).
Proof.
  intros Hm Hk s. unfold bind. specialize (Hm s).
  destruct (m s) as [[a|e] s1]; simpl in *.
  - specialize (Hk a s1). unfold trade in *. lia.
  - unfold trade in *. lia.
Qed.

Lemma events_refine (f g : Event -> bool) s s' :
  (forall e, f e = true -> g e = true) ->
  events g s' = events g s -> events f s' = events f s.
Proof.
  intros Hfg Hg. unfold events in *.
  assert (R : forall l, List.filter f l = List.filter f (List.filter g l)).
  { induction l as [|e l IH]; simpl; [reflexivity|].
    destruct (f e) eqn:Ef.
    - rewrite (Hfg e Ef). simpl. rewrite Ef. f_equal. exact IH.
    - destruct (g e); simpl; rewrite ?Ef; exact IH. }
  rewrite (R (trace s')), (R (trace s)), Hg. reflexivity.
Qed.

Lemma is_sweep_of_invocation e : is_sweep_of w t e = true -> is_sweep_invocation e = true.
Proof. destruct e; simpl; auto; discriminate. Qed.

(** A computation that touches neither the detections nor the
    invocations of [sweepToken]. *)
Lemma still_of_unchanged {A} (m : M A) :
  preserves (unchanged detections) m ->
  preserves (unchanged (events is_sweep_invocation)) m ->
  preserves (trade w t 0 0) m.
Proof.
  intros Hd He s. specialize (Hd s). specialize (He s). unfold unchanged in *.
  unfold trade, enabled_records, sweeps_of. rewrite Hd.
  rewrite (events_refine _ _ _ _ is_sweep_of_invocation He). lia.
Qed.

Lemma count_app {A} (f : A -> bool) l k : count f (l ++ k) = count f l + count f k.
Proof. unfold count. rewrite List.filter_app, length_app. reflexivity. Qed.

Lemma count_map_le {A} (P : A -> bool) (f : A -> A) l :
  (forall x, P x = true -> P (f x) = true) -> count P l <= count P (map f l).
Proof.
  intros Hf. unfold count. induction l as [|x l IH]; simpl; [lia|].
  destruct (P x) eqn:Px.
  - rewrite (Hf x Px). simpl. lia.
  - destruct (P (f x)); simpl; lia.
Qed.

Lemma count_map_gain {A} (P : A -> bool) (f : A -> A) l x :
  (forall x, P x = true -> P (f x) = true) ->
  In x l -> P x = false -> P (f x) = true ->
  count P l + 1 <= count P (map f l).
Proof.
  intros Hf Hx Px Pfx. induction l as [|y l IH]; [contradiction|].
  change (y :: l) with ([y] ++ l). rewrite map_app, !count_app.
  destruct Hx as [->|Hx].
  - pose proof (count_map_le P f l Hf). unfold count at 1 3. simpl. rewrite Px, Pfx.
    simpl. lia.
  - specialize (IH Hx). pose proof (count_map_le P f [y] Hf). lia.
Qed.

Lemma merge_keeps_asset u time d :
  same_asset w t (merge_detection u time d) = same_asset w t d.
Proof. reflexivity. Qed.

Lemma merge_enabled u time d :
  ud_tradingEnabled u <> Some false ->
  same_asset w t d && tradingEnabled d = true ->
  same_asset w t (merge_detection u time d) && tradingEnabled (merge_detection u time d) = true.
Proof.
  intros Hu Hd. rewrite merge_keeps_asset. apply andb_prop in Hd as [-> Hf].
  simpl. rewrite Hf. destruct (ud_tradingEnabled u) as [[]|]; auto;
    try (exfalso; apply Hu; reflexivity).
Qed.

Lemma updateTokenDetection_still id u :
  ud_tradingEnabled u <> Some false ->
  preserves (trade w t 0 0) (updateTokenDetection id u).
Proof.
  intros Hu s. unfold updateTokenDetection, bind, gets.
  destruct (List.find _ _); [|reflexivity]. simpl.
  unfold trade, enabled_records, sweeps_of, detections. simpl. split; [|unfold events; simpl; lia].
  rewrite Nat.add_0_r. apply count_map_le. intros d Hd.
  destruct (_ =? _)%nat; [apply merge_enabled; assumption|exact Hd].
Qed.

Lemma handleNewTokenDetection_still w0 t0 nm sym bal :
  preserves (trade w t 0 0) (handleNewTokenDetection w0 t0 nm sym bal).
Proof.
  intros s. unfold trade, enabled_records, sweeps_of, detections, events. simpl.
  rewrite count_app. unfold count at 3. simpl. rewrite Bool.andb_false_r. simpl. lia.
Qed.

(** The flip: a record of which the flag is false is in the store, and
    the update by its identifier turns the flag true. *)
Lemma updateTokenDetection_gain d0 s :
  In d0 (detections s) -> tradingEnabled d0 = false ->
  let r := updateTokenDetection (td_id d0)
             {| ud_balance := None; ud_balanceUSD := None; ud_tradingEnabled := Some true |} s in
  (exists x, fst r = Return x)
  /\ trade w t (Nat.b2n (same_asset w t d0)) 0 s (snd r).
Proof.
  intros Hd Hf r. subst r. unfold updateTokenDetection, bind, gets.
  destruct (List.find _ _) as [e|] eqn:Hfind.
  2:{ pose proof (List.find_none _ _ Hfind d0 Hd) as Hn. cbv beta in Hn.
      rewrite Nat.eqb_refl in Hn. discriminate Hn. }
  simpl. split; [eauto|].
  unfold trade, enabled_records, sweeps_of, detections. simpl.
  split; [|unfold events; simpl; lia].
  set (f := fun d => if (td_id d =? td_id d0)%nat then _ else d).
  assert (Hmono : forall x, same_asset w t x && tradingEnabled x = true ->
                            same_asset w t (f x) && tradingEnabled (f x) = true).
  { intros x Hx. unfold f. destruct (_ =? _)%nat; [|exact Hx].
    apply merge_enabled; [discriminate|exact Hx]. }
  destruct (same_asset w t d0) eqn:Hs; simpl.
  - apply (count_map_gain _ f _ d0 Hmono Hd).
    + rewrite Hs, Hf. reflexivity.
    + unfold f. rewrite Nat.eqb_refl, merge_keeps_asset, Hs. reflexivity.
  - rewrite Nat.add_0_r. apply count_map_le, Hmono.
Qed.

Lemma invokeSweepToken_spend w0 t0 sym nm bal urg :
  preserves (trade w t 0 (Nat.b2n (String.eqb w0 w
                                   && String.eqb (JS.toLowerCase t0) (JS.toLowerCase t))))
    (invokeSweepToken W w0 t0 sym nm bal urg).
Proof.
  intros s. unfold invokeSweepToken, bind, emit, modify. set (s1 := with_trace _ s).
  pose proof (sweepToken_detections w0 t0 sym nm bal urg s1) as Hd.
  pose proof (sweepToken_invocations W w0 t0 sym nm bal urg s1) as He.
  apply (events_refine (is_sweep_of w t) _ _ _ is_sweep_of_invocation) in He.
  destruct (sweepToken W w0 t0 sym nm bal urg s1) as [r s2]. simpl in *.
  unfold unchanged in *. unfold trade, enabled_records, sweeps_of. rewrite Hd, He.
  unfold s1, events, detections. simpl. rewrite filter_app_one, length_app. simpl.
  split; [lia|]. destruct (_ && _); simpl; lia.
Qed.

Lemma spend_weaken {A} p (m : M A) :
  preserves (trade w t 0 0) m -> preserves (trade w t 0 p) m.
Proof. apply preserves_impl. unfold trade. intros s s'. lia. Qed.

Lemma spend_bind_l {A B} p (m : M A) (k : A -> M B) :
  preserves (trade w t 0 0) m -> (forall a, preserves (trade w t 0 p) (k a)) ->
  preserves (trade w t 0 p) (bind m k).
Proof. intros Hm Hk. apply (spend_bind 0 p); assumption. Qed.

Lemma spend_bind_r {A B} p (m : M A) (k : A -> M B) :
  preserves (trade w t 0 p) m -> (forall a, preserves (trade w t 0 0) (k a)) ->
  preserves (trade w t 0 p) (bind m k).
Proof.
  intros Hm Hk s. pose proof (spend_bind p 0 m k Hm Hk s) as Hs.
  unfold trade in *. lia.
Qed.

(** A leaf of a scan that neither writes a detection nor invokes a sweep. *)
Ltac still_leaf :=
  first
    [ apply updateTokenDetection_still; discriminate
    | apply handleNewTokenDetection_still
    | apply still_of_unchanged; [frame_leaf|quiet_leaf] ].

Ltac still := repeat first [preserves_step | still_leaf].

Lemma flip_then_spend d0 s (rest : M unit) :
  In d0 (detections s) -> tradingEnabled d0 = false ->
  preserves (trade w t 0 (Nat.b2n (same_asset w t d0))) rest ->
  paid w t s
    (snd ((updateTokenDetection (td_id d0)
             {| ud_balance := None; ud_balanceUSD := None; ud_tradingEnabled := Some true |} ;;
           rest) s)).
Proof.
  intros Hd Hf Hrest. unfold bind.
  destruct (updateTokenDetection_gain d0 s Hd Hf) as [[x Hx] Hg].
  destruct (updateTokenDetection _ _ s) as [r s1]. simpl in *. subst r.
  specialize (Hrest s1). unfold trade, paid in *. lia.
Qed.

Lemma In_insert_newest_first x d l : In x (insert_newest_first d l) -> x = d \/ In x l.
Proof.
  induction l as [|y l IH]; simpl.
  - intros [->|[]]. auto.
  - destruct (_ <? _)%Z; simpl; intros [->|Hx]; auto.
    destruct (IH Hx); auto.
Qed.

Lemma In_sort_newest_first x l : In x (sort_newest_first l) -> In x l.
Proof.
  induction l as [|y l IH]; simpl; [auto|].
  intros Hx. apply In_insert_newest_first in Hx as [->|Hx]; auto.
Qed.

(** What [getTokenDetections(w0).find(...)] finds is a record of the
    store, of that wallet and of that token. *)
Lemma found_detection w0 key s d :
  List.find (detection_for key)
    (sort_newest_first (List.filter (fun d => String.eqb (td_walletAddress d) w0)
                                    (tokenDetections (storage s)))) = Some d ->
  In d (detections s) /\ td_walletAddress d = w0 /\ JS.toLowerCase (td_tokenAddress d) = key.
Proof.
  intros Hf. apply List.find_some in Hf as [Hin Hk].
  apply In_sort_newest_first, List.filter_In in Hin as [Hin Hw].
  apply String.eqb_eq in Hw. apply String.eqb_eq in Hk. auto.
Qed.

Lemma same_asset_found w0 t0 d :
  td_walletAddress d = w0 ->
  JS.toLowerCase (td_tokenAddress d) = JS.toLowerCase t0 ->
  same_asset w t d
  = String.eqb w0 w && String.eqb (JS.toLowerCase t0) (JS.toLowerCase t).
Proof. intros Hw Ht. unfold same_asset. rewrite Hw, Ht. reflexivity. Qed.

Lemma checkTradingStatus_paid w0 t0 sym :
  preserves (paid w t) (checkTradingStatus W w0 t0 sym).
Proof.
  unfold checkTradingStatus.
  apply preserves_try_catch; [apply _| |intros; apply preserves_ret; apply _].
  apply preserves_bind; [apply _| |intros enabledNow].
  { apply still_paid. unfold isContractTradingEnabled. still. }
  intros s. unfold bind at 1. unfold getTokenDetections at 1, gets at 1.
  destruct (List.find _ _) as [d|] eqn:Hfind; [|reflexivity].
  destruct (negb (tradingEnabled d) && enabledNow) eqn:Hc; [|reflexivity].
  apply andb_prop in Hc as [Hflag _]. apply Bool.negb_true_iff in Hflag.
  apply found_detection in Hfind as (Hin & Hw & Ht).
  apply (flip_then_spend d s); [exact Hin|exact Hflag|].
  rewrite (same_asset_found w0 t0 d Hw Ht).
  apply spend_bind_l; [still|intros _].
  apply spend_bind_l; [still|intros cfg].
  destruct (from_option autoSweepEnabled false cfg); [|apply spend_weaken; still].
  apply spend_bind_l; [unfold getTokenBalance; still|intros bal].
  apply spend_bind_r; [apply invokeSweepToken_spend|intros; still].
Qed.

Lemma scanWalletForTokens_paid w0 : preserves (paid w t) (scanWalletForTokens W w0).
Proof.
  unfold scanWalletForTokens, scanKnownToken, getTokenBalance.
  repeat first
    [ preserves_step
    | apply checkTradingStatus_paid
    | apply still_paid; still_leaf ].
Qed.

Lemma wp_still {A} (m : M A) s (Q : Completion A -> State -> Prop) :
  preserves (unchanged detections) m ->
  preserves (unchanged (events is_sweep_invocation)) m ->
  (forall r s1, detections s1 = detections s ->
                events is_sweep_invocation s1 = events is_sweep_invocation s -> Q r s1) ->
  wp m s Q.
Proof. intros Hd He HQ. apply HQ; [apply Hd|apply He]. Qed.

Lemma paid_ledger s0 s s1 :
  detections s1 = detections s ->
  events is_sweep_invocation s1 = events is_sweep_invocation s ->
  paid w t s0 s -> paid w t s0 s1.
Proof.
  intros Hd He. apply (events_refine (is_sweep_of w t) _ _ _ is_sweep_of_invocation) in He.
  unfold paid, enabled_records, sweeps_of. rewrite Hd, He. auto.
Qed.

(** The update of a balance keeps the record, its owner and its flag. *)
Lemma updateTokenDetection_keeps d s u :
  In d (detections s) -> ud_tradingEnabled u = None ->
  exists d0, In d0 (detections (snd (updateTokenDetection (td_id d) u s)))
             /\ td_id d0 = td_id d /\ tradingEnabled d0 = tradingEnabled d
             /\ td_walletAddress d0 = td_walletAddress d
             /\ td_tokenAddress d0 = td_tokenAddress d.
Proof.
  intros Hd Hu. unfold updateTokenDetection, bind, gets.
  destruct (List.find _ _); [|exists d; auto]. simpl.
  exists (merge_detection u (now s) d). unfold detections. simpl.
  split; [|simpl; rewrite Hu; auto].
  apply List.in_map_iff. exists d. rewrite Nat.eqb_refl. auto.
Qed.

Lemma scanSpecificToken_paid w0 t0 : preserves (paid w t) (scanSpecificToken W w0 t0).
Proof.
  intros s0. unfold scanSpecificToken.
  match goal with
  | |- paid _ _ _ (snd (?m _)) => change (wp m s0 (fun _ s' => paid w t s0 s'))
  end.
  apply wp_try_catch.
  apply (wp_conseq _ _ (fun _ s' => paid w t s0 s')); [|intros [a|e] s' Hq; exact Hq].
  apply wp_bind, wp_gets, wp_bind, wp_still;
    [destruct (negb _); unfold getTokenInfo; frame
    |destruct (negb _); unfold getTokenInfo; quiet|].
  intros r s1 Hd1 He1.
  assert (Hp1 : paid w t s0 s1) by (apply (paid_ledger s0 s0 s1); [assumption..|reflexivity]).
  destruct r as [[]|e]; [|exact Hp1].
  apply wp_bind, wp_gets.
  destruct (known_get _ _) as [info|]; [|exact Hp1].
  apply wp_bind, wp_still; [unfold getTokenBalance; frame|unfold getTokenBalance; quiet|].
  intros r s2 Hd2 He2.
  assert (Hp2 : paid w t s0 s2) by (apply (paid_ledger s0 s1 s2); assumption).
  destruct r as [bal|e]; [|exact Hp2].
  destruct (0 <? _)%float; [|exact Hp2].
  apply wp_bind. unfold getTokenDetections at 1. apply wp_gets.
  match goal with
  | |- wp (bind _ ?k) _ _ =>
      assert (Htail : forall d1 s3, paid w t s0 s3 ->
                (forall d, d1 = Some d ->
                   exists d0, In d0 (detections s3) /\ td_id d0 = td_id d
                              /\ tradingEnabled d0 = tradingEnabled d
                              /\ td_walletAddress d0 = w0
                              /\ JS.toLowerCase (td_tokenAddress d0) = t0) ->
                wp (k d1) s3 (fun _ s' => paid w t s0 s'))
  end.
  { intros d1 s3 Hp3 Hfound. cbv beta.
    apply wp_bind, wp_still;
      [unfold isContractTradingEnabled; frame|unfold isContractTradingEnabled; quiet|].
    intros r s4 Hd4 He4.
    assert (Hp4 : paid w t s0 s4) by (apply (paid_ledger s0 s3 s4); assumption).
    destruct r as [enabledNow|e]; [|exact Hp4].
    destruct d1 as [d|]; [|exact Hp4].
    destruct (negb (tradingEnabled d) && enabledNow) eqn:Hc; [|exact Hp4].
    apply andb_prop in Hc as [Hflag _]. apply Bool.negb_true_iff in Hflag.
    destruct (Hfound d eq_refl) as (d0 & Hin & Hid & Hfl & Hw & Ht).
    rewrite <- Hid. unfold wp. cbv beta.
    etransitivity; [exact Hp4|].
    assert (Ht' : JS.toLowerCase (td_tokenAddress d0) = JS.toLowerCase t0).
    { rewrite <- Ht. symmetry. apply toLowerCase_idem. }
    apply flip_then_spend; [rewrite Hd4; exact Hin|rewrite Hfl; exact Hflag|].
    rewrite (same_asset_found w0 t0 d0 Hw Ht').
    apply spend_bind_l; [still|intros _].
    apply spend_bind_l; [unfold broadcastDetector; still|intros _].
    apply spend_bind_l; [still|intros cfg].
    destruct (from_option autoSweepEnabled false cfg); [|apply spend_weaken; still].
    apply spend_bind_r; [apply invokeSweepToken_spend|intros; still]. }
  apply wp_bind.
  destruct (List.find _ _) as [d|] eqn:Hfind.
  - apply found_detection in Hfind as (Hin & Hw & Ht).
    change (In d (detections s2)) in Hin.
    apply wp_bind. unfold wp at 1.
    match goal with
    | |- context [updateTokenDetection _ ?u s2] =>
        destruct (updateTokenDetection_keeps d s2 u Hin eq_refl)
          as (d0 & Hin0 & Hid & Hfl & Hw0 & Ht0);
        pose proof (still_paid _ (updateTokenDetection_still (td_id d) u ltac:(discriminate)) s2)
          as Hst;
        destruct (updateTokenDetection (td_id d) u s2) as [r s3]
    end.
    cbn [fst snd] in Hin0, Hst |- *.
    assert (Hp3 : paid w t s0 s3) by (etransitivity; eassumption).
    destruct r as [x|e]; [|exact Hp3].
    apply wp_ret. refine (Htail (Some d) s3 Hp3 _).
    intros d' [= <-]. exists d0. rewrite Hw0, Ht0. auto.
  - apply wp_bind. unfold wp at 1.
    pose proof (still_paid _ (handleNewTokenDetection_still w0 t0 (name info) (symbol info) bal) s2)
      as Hst.
    destruct (handleNewTokenDetection w0 t0 (name info) (symbol info) bal s2) as [r s3].
    cbn [fst snd] in Hst |- *.
    assert (Hp3 : paid w t s0 s3) by (etransitivity; eassumption).
    destruct r as [x|e]; [|exact Hp3].
    apply wp_bind. unfold getTokenDetections at 1. apply wp_gets, wp_ret.
    match goal with
    | |- context [List.find ?f ?l] => refine (Htail (List.find f l) s3 Hp3 _)
    end.
    intros d' Hagain. apply found_detection in Hagain as (Hin & Hw & Ht).
    exists d'. auto.
Qed.

Lemma scanSpecificTokens_paid w0 : preserves (paid w t) (scanSpecificTokens W w0).
Proof.
  unfold scanSpecificTokens.
  apply preserves_bind; [apply _|apply preserves_gets; apply _|intros [[|x l]|]];
    try (apply preserves_ret; apply _).
  apply preserves_for_each; [apply _|]. intros y. apply scanSpecificToken_paid.
Qed.

Lemma periodicScan_paid iv : preserves (paid w t) (periodicScan W iv).
Proof.
  unfold periodicScan, periodicScanHead, periodicScanBody, clearInterval.
  repeat first
    [ preserves_step
    | apply scanWalletForTokens_paid
    | apply scanSpecificTokens_paid
    | apply still_paid; still_leaf ].
Qed.

Lemma startMonitoring_paid w0 : preserves (paid w t) (startMonitoring W w0).
Proof.
  unfold startMonitoring, schedulePeriodicScan, setInterval.
  repeat first
    [ preserves_step
    | apply scanWalletForTokens_paid
    | apply still_paid; still_leaf ].
Qed.

Lemma exec_scan_paid op : is_scan op = true -> preserves (paid w t) (exec W op).
Proof.
  destruct op; try discriminate; intros _; cbn [exec];
    [apply startMonitoring_paid|apply periodicScan_paid].
Qed.

Lemma execAll_paid ops s : forallb is_scan ops = true -> paid w t s (execAll W ops s).
Proof.
  revert s. induction ops as [|op ops IH]; intros s Hs; [reflexivity|].
  simpl in Hs. apply andb_prop in Hs as [Hop Hs]. cbn [execAll].
  etransitivity; [apply (exec_scan_paid op Hop s)|apply IH, Hs].
Qed.

End Paid.

(** *** A scan that finds the flag true *)

Lemma observed_unchanged w0 key s s1 :
  detections s1 = detections s -> observed w0 key s1 = observed w0 key s.
Proof. unfold observed, getTokenDetections, gets, detections. simpl. intros ->. reflexivity. Qed.

Lemma checkTradingStatus_settled w0 t0 sym s d :
  observed w0 (JS.toLowerCase t0) s = Some d -> tradingEnabled d = true ->
  detections (snd (checkTradingStatus W w0 t0 sym s)) = detections s
  /\ events is_sweep_invocation (snd (checkTradingStatus W w0 t0 sym s))
     = events is_sweep_invocation s.
Proof.
  intros Hobs Hflag. unfold checkTradingStatus.
  match goal with
  | |- context [snd (?m s)] =>
      change (wp m s (fun _ s' => detections s' = detections s
                /\ events is_sweep_invocation s' = events is_sweep_invocation s))
  end.
  apply wp_try_catch, wp_bind, wp_still;
    [unfold isContractTradingEnabled; frame|unfold isContractTradingEnabled; quiet|].
  intros r s1 Hd1 He1. destruct r as [enabledNow|e]; [|split; assumption].
  apply wp_bind. unfold getTokenDetections at 1. apply wp_gets.
  pose proof (observed_unchanged w0 (JS.toLowerCase t0) s s1 Hd1) as Ho.
  rewrite Hobs in Ho. unfold observed, getTokenDetections, gets in Ho. simpl in Ho.
  rewrite Ho, Hflag. simpl. split; assumption.
Qed.

Lemma updateTokenDetection_flags id u s :
  ud_tradingEnabled u = None ->
  map tradingEnabled (detections (snd (updateTokenDetection id u s)))
  = map tradingEnabled (detections s)
  /\ trace (snd (updateTokenDetection id u s)) = trace s.
Proof.
  intros Hu. unfold updateTokenDetection, bind, gets.
  destruct (List.find _ _); [|split; reflexivity]. simpl. split; [|reflexivity].
  unfold detections. simpl. rewrite List.map_map. apply List.map_ext.
  intros d. destruct (_ =? _)%nat; [|reflexivity]. simpl. rewrite Hu. reflexivity.
Qed.

Lemma scanSpecificToken_settled w0 t0 s d :
  observed w0 t0 s = Some d -> tradingEnabled d = true ->
  map tradingEnabled (detections (snd (scanSpecificToken W w0 t0 s)))
  = map tradingEnabled (detections s)
  /\ events is_sweep_invocation (snd (scanSpecificToken W w0 t0 s))
     = events is_sweep_invocation s.
Proof.
  intros Hobs Hflag. unfold scanSpecificToken.
  match goal with
  | |- context [snd (?m s)] =>
      change (wp m s (fun _ s' =>
                map tradingEnabled (detections s') = map tradingEnabled (detections s)
                /\ events is_sweep_invocation s' = events is_sweep_invocation s))
  end.
  apply wp_try_catch.
  apply (wp_conseq _ _ (fun _ s' =>
           map tradingEnabled (detections s') = map tradingEnabled (detections s)
           /\ events is_sweep_invocation s' = events is_sweep_invocation s));
    [|intros [a|e] s' Hq; exact Hq].
  apply wp_bind, wp_gets, wp_bind, wp_still;
    [destruct (negb _); unfold getTokenInfo; frame
    |destruct (negb _); unfold getTokenInfo; quiet|].
  intros r s1 Hd1 He1.
  destruct r as [[]|e]; [|rewrite Hd1; auto].
  apply wp_bind, wp_gets.
  destruct (known_get _ _) as [info|]; [|unfold wp, throw; simpl; rewrite Hd1; auto].
  apply wp_bind, wp_still; [unfold getTokenBalance; frame|unfold getTokenBalance; quiet|].
  intros r s2 Hd2 He2. rewrite Hd1 in Hd2. rewrite He1 in He2.
  destruct r as [bal|e]; [|rewrite Hd2; auto].
  destruct (0 <? _)%float; [|unfold wp, ret; simpl; rewrite Hd2; auto].
  apply wp_bind. unfold getTokenDetections at 1. apply wp_gets.
  pose proof (observed_unchanged w0 t0 s s2 Hd2) as Ho.
  rewrite Hobs in Ho. unfold observed, getTokenDetections, gets in Ho. simpl in Ho.
  rewrite Ho. apply wp_bind, wp_bind. unfold wp at 1.
  match goal with
  | |- context [updateTokenDetection ?id ?u s2] =>
      destruct (updateTokenDetection_flags id u s2 eq_refl) as [Hf3 Ht3];
      destruct (updateTokenDetection id u s2) as [r s3]
  end.
  cbn [fst snd] in Hf3, Ht3 |- *.
  assert (He3 : events is_sweep_invocation s3 = events is_sweep_invocation s)
    by (unfold events in *; rewrite Ht3; exact He2).
  rewrite Hd2 in Hf3.
  destruct r as [x|e]; [|split; assumption].
  apply wp_ret, wp_bind, wp_still;
    [unfold isContractTradingEnabled; frame|unfold isContractTradingEnabled; quiet|].
  intros r s4 Hd4 He4. rewrite <- Hd4 in Hf3. rewrite <- He4 in He3.
  destruct r as [enabledNow|e]; [|exact (conj Hf3 He3)].
  rewrite Hflag. exact (conj Hf3 He3).
Qed.

Lemma execAll_grow ops s : detections_grow s (execAll W ops s).
Proof.
  revert s. induction ops as [|op ops IH]; intros s; [reflexivity|].
  cbn [execAll]. etransitivity; [apply exec_grow|apply IH].
Qed.

Lemma bind_assoc_at {A B C} (m : M A) (f : A -> M B) (g : B -> M C) s :
  bind (bind m f) g s = bind m (fun a => bind (f a) g) s.
Proof. unfold bind. destruct (m s) as [[a|e] s1]; reflexivity. Qed.

Lemma bind_ext_at {A B} (m : M A) (f g : A -> M B) s :
  (forall a s1, f a s1 = g a s1) -> bind m f s = bind m g s.
Proof. intros E. unfold bind. destruct (m s) as [[a|e] s1]; [apply E|reflexivity]. Qed.

(** A [try] block that may end early, cut in two. *)
Lemma try_catch_cut {A} (m : M (option A)) (k : A -> M unit) s :
  try_catch (x <- m ;; match x with Some a => k a | None => ret tt end) (fun _ => ret tt) s
  = (x <- try_catch m (fun _ => ret None) ;;
     match x with
     | Some a => try_catch (k a) (fun _ => ret tt)
     | None => ret tt
     end) s.
Proof.
  unfold try_catch, bind, ret. destruct (m s) as [[[a|]|e] s1]; reflexivity.
Qed.

(** A scan that is suspended and resumed at once is the scan. *)
Lemma scanSpecificToken_suspends w tokenAddress s :
  scanSpecificToken W w tokenAddress s
  = (k <- suspend W w tokenAddress ;; resume W w tokenAddress k) s.
Proof.
  unfold suspend, resume. rewrite <- try_catch_cut.
  unfold scanSpecificToken, try_catch.
  match goal with
  | |- (let '(_, _) := ?body s in _) = (let '(_, _) := ?cut s in _) =>
      assert (E : body s = cut s); [|rewrite E; reflexivity]
  end.
  unfold scanSpecificTokenHead.
  etransitivity; [|symmetry; apply bind_assoc_at]. apply bind_ext_at. intros known s1.
  etransitivity; [|symmetry; apply bind_assoc_at]. apply bind_ext_at. intros [] s2.
  etransitivity; [|symmetry; apply bind_assoc_at]. apply bind_ext_at. intros known2 s3.
  destruct (known_get known2 tokenAddress) as [tokenInfo|]; [|reflexivity].
  etransitivity; [|symmetry; apply bind_assoc_at]. apply bind_ext_at. intros bal s4.
  cbv zeta. destruct (0 <? parseFloat bal)%float; [|reflexivity].
  etransitivity; [|symmetry; apply bind_assoc_at]. apply bind_ext_at. intros existing s5.
  etransitivity; [|symmetry; apply bind_assoc_at]. apply bind_ext_at. intros detection s6.
  etransitivity; [|symmetry; apply bind_assoc_at]. apply bind_ext_at. intros enabledNow s7.
  reflexivity.
Qed.

Lemma overlappingScans_grow w t : preserves detections_grow (overlappingScans W w t).
Proof.
  assert (Hs : preserves detections_grow (suspend W w t)).
  { unfold suspend, scanSpecificTokenHead, getTokenBalance, getTokenInfo,
      isContractTradingEnabled.
    grow; apply handleNewTokenDetection_grow. }
  assert (Hr : forall k, preserves detections_grow (resume W w t k)).
  { intros [k|]; unfold resume, scanSpecificTokenTail, broadcastDetector; grow. }
  unfold overlappingScans. grow; first [apply Hs | apply Hr].
Qed.

(** C2.  The [tradingEnabled] flag of a detection record is monotone
    under every operation of the engine, in any number and order, and
    also under scans of a token that overlap: a record whose flag is
    true is still in the store afterwards, for the same wallet and
    token, with its flag true.  Over any sequence of scans (the first
    scan of [startMonitoring] and the ticks of the interval) that run
    one after the other, each to its end, the calls of [sweepToken] for
    a (wallet, token) are at most as many as the flags of that pair
    that have turned true: one automatic sweep at most for each
    transition from false to true.  A scan that finds the flag already
    true invokes no sweep and sets no flag: [checkTradingStatus] leaves
    the records as they are, and the scan of a specific token only
    rewrites the balance. *)
Theorem tradingEnabled_monotone :
  (forall ops s d,
      In d (detections s) -> tradingEnabled d = true ->
      exists d', In d' (detections (execAll W ops s))
                 /\ td_id d' = td_id d
                 /\ td_walletAddress d' = td_walletAddress d
                 /\ td_tokenAddress d' = td_tokenAddress d
                 /\ tradingEnabled d' = true)
  /\ (forall w t ops s,
         forallb is_scan ops = true ->
         sweeps_of w t (execAll W ops s) + enabled_records w t s
         <= sweeps_of w t s + enabled_records w t (execAll W ops s))
  /\ (forall w t sym s d,
         observed w (JS.toLowerCase t) s = Some d -> tradingEnabled d = true ->
         detections (snd (checkTradingStatus W w t sym s)) = detections s
         /\ events is_sweep_invocation (snd (checkTradingStatus W w t sym s))
            = events is_sweep_invocation s)
  /\ (forall w t s d,
         observed w t s = Some d -> tradingEnabled d = true ->
         map tradingEnabled (detections (snd (scanSpecificToken W w t s)))
         = map tradingEnabled (detections s)
         /\ events is_sweep_invocation (snd (scanSpecificToken W w t s))
            = events is_sweep_invocation s)
  /\ (forall w t s d,
         In d (detections s) -> tradingEnabled d = true ->
         exists d', In d' (detections (snd (overlappingScans W w t s)))
                    /\ td_id d' = td_id d
                    /\ td_walletAddress d' = td_walletAddress d
                    /\ td_tokenAddress d' = td_tokenAddress d
                    /\ tradingEnabled d' = true).
Proof.
  split; [|split; [|split; [|split]]].
  - intros ops s d Hd Ht. exact (grow_flag s _ d (execAll_grow ops s) Hd Ht).
  - intros w t ops s Hs. exact (execAll_paid w t ops s Hs).
  - intros w t sym s d. apply checkTradingStatus_settled.
  - intros w t s d. apply scanSpecificToken_settled.
  - intros w t s d Hd Ht. exact (grow_flag s _ d (overlappingScans_grow w t s) Hd Ht).
Qed.

End FlagFacts.

(** Two scans of the wallet's LINK overlap while its record has the
    flag false and the token trades: the flag turns true once, and
    [sweepToken] is invoked twice and submits two transfers. *)
Lemma overlapping_scans_sweep_twice :
  enabled_records "0xw" LINK demoListed = 0
  /\ sweeps_of "0xw" LINK demoListed = 0
  /\ enabled_records "0xw" LINK (snd (overlappingScans demoLedger "0xw" LINK demoListed)) = 1
  /\ sweeps_of "0xw" LINK (snd (overlappingScans demoLedger "0xw" LINK demoListed)) = 2
  /\ length (events is_transfer (snd (overlappingScans demoLedger "0xw" LINK demoListed))) = 2.
Proof. repeat split; vm_compute; reflexivity. Qed.

(** ** The scheduler of the scans *)

Section SchedulerFacts.

Context `{Host} (W : Web3Service).




(** C4 as amended.  A tick of the interval that finds the wallet
    watched starts a scan whatever scans are in flight, also one of the
    same wallet from an earlier tick that has not completed, and the
    interval is due again one period later. *)
Theorem interval_tick_unguarded (running : list (Interval * Z)) (s : State) (iv : Interval) :
  List.find (fun i => (iv_handle i =? iv_handle iv)%nat) (intervals s) = Some iv ->
  iv_due iv = now s ->
  JS.toLowerCase (iv_walletAddress iv) ∈ monitoringWallets s ->
  act W (Fire (iv_handle iv)) {| l_state := s; l_running := running |}
  = Some {| l_state := rearm (iv_handle iv) s;
            l_running := running ++ [(iv, now s)] |}.
Proof.
  intros Hfind Hdue Hmon. unfold act. cbn [l_state l_running].
  rewrite Hfind, (bool_decide_eq_true_2 _ Hdue).
  unfold periodicScanHead, bind, gets.
  replace (monitoringWallets (rearm (iv_handle iv) s)) with (monitoringWallets s)
    by reflexivity.
  rewrite (bool_decide_eq_true_2 _ Hmon). reflexivity.
Qed.

End SchedulerFacts.

Lemma interval_tick_unguarded_witness :
  act demoLedger (Fire 6) {| l_state := demoTick; l_running := [(demoInterval, 0%Z)] |}
  = Some {| l_state := rearm 6 demoTick;
            l_running := [(demoInterval, 0%Z); (demoInterval, 15000%Z)] |}.
Proof.
  apply (interval_tick_unguarded demoLedger [(demoInterval, 0%Z)] demoTick demoInterval).
  - vm_compute. reflexivity.
  - vm_compute. reflexivity.
  - apply (bool_decide_unpack _). vm_compute. exact I.
Defined.

(** The second tick of a wallet's interval comes while the scan of the
    first is in flight: both scans run. *)
Lemma periodic_scans_overlap :
  exists l, run demoLedger slowScan {| l_state := demoState; l_running := [] |} = Some l
            /\ overlapping l.
Proof.
  assert (Hrun : option_map (fun l => map (fun r => iv_walletAddress (fst r)) (l_running l))
                   (run demoLedger slowScan {| l_state := demoState; l_running := [] |})
                 = Some ["0xw"; "0xw"]) by (vm_compute; reflexivity).
  destruct (run demoLedger slowScan _) as [l|]; [|discriminate Hrun].
  exists l. split; [reflexivity|]. unfold overlapping. injection Hrun as ->.
  intros Hnd. apply NoDup_cons in Hnd as [Hin _]. apply Hin. left.
Qed.


(** ** The theorems on the demonstration ledger *)

(** Half a LINK is worth 7.25, below the wallet's minimum of 10.00. *)
Lemma sweepToken_below_minimum_witness :
  fst (sweepToken demoLedger "0xw" LINK "LINK" "Chainlink" "0.5" medium demoState)
  = Return None.
Proof.
  refine (proj1 (sweepToken_below_minimum demoLedger "0xw" LINK "LINK" "Chainlink" "0.5"
                   medium demoState demoConfig _ _)).
  - vm_compute. reflexivity.
  - vm_compute. reflexivity.
Defined.



(** A poll that starts while the poll of another transfer is pending. *)
Lemma confirmation_polling_bounded_witness :
  timeouts (snd (firings demoLedger 1 60
                   (snd (monitorTransactionReceipt 1 "0xother" "0xw" demoPolling))))
  = timeouts demoPolling.
Proof.
  exact (proj1 (proj2 (proj2 (proj2 (confirmation_polling_bounded demoLedger 1 "0xother" "0xw"
                                       [] demoPolling))))).
Defined.

(** ** The paths of a sweep *)

Lemma wp_fresh s (Q : Completion nat -> State -> Prop) :
  Q (Return (nextId s)) (with_nextId (S (nextId s)) s) -> wp fresh s Q.
Proof. exact id. Qed.

(** An update by an identifier that the store holds rewrites the records
    of that identifier. *)
Lemma updateTransaction_present id u s tx :
  In tx (transactions (storage s)) -> tx_id tx = id ->
  exists r,
    updateTransaction id u s
    = (Return (Some r),
       with_storage
         (set_transactions
            (map (fun x => if (tx_id x =? id)%nat then merge_transaction u (now s) x else x)
                 (transactions (storage s)))
            (storage s)) s).
Proof.
  intros Hin Hid. unfold updateTransaction, bind, gets.
  destruct (List.find _ _) as [e|] eqn:Hf.
  - eexists. reflexivity.
  - pose proof (List.find_none _ _ Hf tx Hin) as Hn. cbv beta in Hn.
    rewrite Hid, Nat.eqb_refl in Hn. discriminate Hn.
Qed.

Lemma updateTransaction_absent id u s :
  List.find (fun tx => (tx_id tx =? id)%nat) (transactions (storage s)) = None ->
  updateTransaction id u s = (Return None, s).
Proof. intros Hf. unfold updateTransaction, bind, gets. rewrite Hf. reflexivity. Qed.

Section SweepPaths.

Context `{Host} (W : Web3Service).

Lemma quotedGasPrice_eq strategy urg s :
  quotedGasPrice W strategy urg s
  = match w3_getGasPrice W (calls s) with
    | Return baseGasPrice =>
        toFixed (optimalGasPrice (parseFloat baseGasPrice) strategy urg (currentNetworkLoad s)) 2
    | Throw _ => "30"
    end.
Proof.
  unfold quotedGasPrice, getOptimalGasPrice, try_catch, bind, web3, gets, ret.
  destruct (w3_getGasPrice W (calls s)); reflexivity.
Qed.

(** The state in which the transfer is submitted, and the record that
    has been created by then. *)
Lemma sweepBody_reaches_transfer w t sym nm bal urg s cfg :
  walletConfigs (storage s) !! w = Some cfg ->
  isActive cfg = true ->
  (getTokenValueUSD t bal <? parseFloat (minTransferAmount cfg))%float = false ->
  forall Q : Completion (option string) -> State -> Prop,
  (forall s1 tx,
      tx = {| tx_id := nextId s; tx_walletAddress := w; tx_tokenAddress := t;
              tx_tokenSymbol := sym; tx_tokenName := nm; tx_amount := bal;
              tx_amountUSD := JS.or_null (Some (toFixed (getTokenValueUSD t bal) 2));
              tx_txHash := None; tx_status := "pending"; tx_gasUsed := None;
              tx_gasPrice := JS.or_null (Some (quotedGasPrice W (gasStrategy cfg) urg s));
              tx_blockNumber := None; tx_createdAt := now s; tx_completedAt := None |} ->
      transactions (storage s1) = transactions (storage s) ++ [tx] ->
      map act_type (activities (storage s1))
      = map act_type (activities (storage s)) ++ ["transfer_started"] ->
      walletConfigs (storage s1) = walletConfigs (storage s) ->
      tokenDetections (storage s1) = tokenDetections (storage s) ->
      activeSweeps s1 = activeSweeps s -> sweeperBroadcast s1 = sweeperBroadcast s ->
      timeouts s1 = timeouts s -> intervals s1 = intervals s -> now s1 = now s ->
      calls s1 = S (calls s) ->
      events is_transfer s1 = events is_transfer s ->
      events is_timer s1 = events is_timer s ->
      wp (txHash <- web3 (CallTransferToken (privateKey cfg) t (safeWalletAddress cfg) bal
                            (quotedGasPrice W (gasStrategy cfg) urg s))
                         (fun n => w3_transferToken W n (privateKey cfg) t
                                     (safeWalletAddress cfg) bal
                                     (quotedGasPrice W (gasStrategy cfg) urg s)) ;;
          updateTransaction (tx_id tx)
            {| ut_txHash := Some txHash; ut_status := Some "completed";
               ut_gasUsed := None; ut_blockNumber := None |} ;;
          createActivity
            {| ia_walletAddress := w;
               ia_type := "transfer_completed";
               ia_title := sym +:+ " Transfer Completed";
               ia_description := "Successfully transferred " +:+ bal +:+ " " +:+ sym
                                   +:+ " to safe wallet";
               ia_status := "completed";
               ia_metadata := [ ("tokenAddress", VStr t); ("txHash", VStr txHash);
                                ("amount", VStr bal); ("gasUsed", VStr "pending") ] |} ;;
          broadcastSweeper "sweep_completed"
            [ ("transactionId", VId (tx_id tx)); ("txHash", VStr txHash);
              ("tokenSymbol", VStr sym); ("amount", VStr bal);
              ("status", VStr "completed") ]
            w ;;
          monitorTransactionReceipt (tx_id tx) txHash w ;;
          ret (Some txHash)) s1 Q) ->
  wp (sweepBody W w t sym nm bal urg) s Q.
Proof.
  intros Hc Ha Hv Q HQ. unfold sweepBody.
  apply wp_bind. unfold getWalletConfig. apply wp_gets. rewrite Hc, Ha. cbn [negb].
  cbv zeta. rewrite Hv.
  apply wp_bind. unfold wp at 1.
  assert (Hg : exists s0, getOptimalGasPrice W (gasStrategy cfg) urg s
                          = (Return (quotedGasPrice W (gasStrategy cfg) urg s), s0)
                          /\ s0 = with_calls (S (calls s))
                                    (with_trace (trace s ++ [EvWeb3 CallGetGasPrice]) s)).
  { unfold quotedGasPrice, getOptimalGasPrice, try_catch, bind, web3, gets, ret.
    destruct (w3_getGasPrice W (calls s)); eexists; split; reflexivity. }
  destruct Hg as (s0 & -> & ->). cbn [fst snd].
  apply wp_bind. unfold createTransaction.
  apply wp_bind, wp_fresh, wp_bind, wp_gets, wp_bind, wp_modify, wp_ret.
  apply wp_bind. unfold createActivity.
  apply wp_bind, wp_fresh, wp_bind, wp_gets, wp_bind, wp_modify, wp_ret.
  apply wp_bind. unfold broadcastSweeper. apply wp_bind, wp_gets.
  cbn [sweeperBroadcast with_calls with_trace with_nextId with_storage].
  destruct (sweeperBroadcast s) eqn:Hb.
  - apply wp_emit.
    match goal with |- wp _ ?s1 _ => apply (HQ s1 _ eq_refl) end;
      try reflexivity; cbn; rewrite ?List.map_app; try reflexivity; try exact Hb;
      unfold events; cbn; rewrite !List.filter_app; cbn; rewrite !app_nil_r; reflexivity.
  - apply wp_ret.
    match goal with |- wp _ ?s1 _ => apply (HQ s1 _ eq_refl) end;
      try reflexivity; cbn; rewrite ?List.map_app; try reflexivity; try exact Hb;
      unfold events; cbn; rewrite !List.filter_app; cbn; rewrite !app_nil_r; reflexivity.
Qed.


Lemma wp_try_finally {A} (m : M A) (f : State -> State) s (Q : Completion A -> State -> Prop) :
  wp m s (fun r s' => Q r (f s')) -> wp (try_finally m (modify f)) s Q.
Proof. unfold wp, try_finally, modify. destruct (m s) as [r s']. exact id. Qed.

Lemma wp_setTimeout delay p s (Q : Completion unit -> State -> Prop) :
  Q (Return tt)
    (with_timers (intervals s) (timeouts s ++ [{| to_delay := delay; to_poll := p |}])
       (with_trace (trace s ++ [EvSetTimeout delay]) s)) ->
  wp (setTimeout delay p) s Q.
Proof. exact id. Qed.

Lemma map_merge_last u time (tx : Transaction) l :
  map (fun x => if (tx_id x =? tx_id tx)%nat then merge_transaction u time x else x) (l ++ [tx])
  = map (fun x => if (tx_id x =? tx_id tx)%nat then merge_transaction u time x else x) l
    ++ [merge_transaction u time tx].
Proof. rewrite List.map_app. cbn. rewrite Nat.eqb_refl. reflexivity. Qed.

(** X1.  A sweep that finds the lock free, the wallet configured and
    active, the value at or above the minimum and the ledger accepting
    the transfer returns the hash of the transfer.  It submits that one
    transfer, to the safe wallet and at the quoted fee; the store gains
    one transaction record, already marked completed and stamped, with
    the hash; two activities are logged; one confirmation poll is armed
    10000 ms ahead; and the lock is free again. *)
Theorem sweepToken_success (w t sym nm bal : string) (urg : Urgency) (s : State)
    (cfg : WalletConfig) (txHash : string) :
  activeSweeps s !! sweepKey w t <> Some true ->
  walletConfigs (storage s) !! w = Some cfg ->
  isActive cfg = true ->
  (getTokenValueUSD t bal <? parseFloat (minTransferAmount cfg))%float = false ->
  w3_transferToken W (S (calls s)) (privateKey cfg) t (safeWalletAddress cfg) bal
    (quotedGasPrice W (gasStrategy cfg) urg s) = Return txHash ->
  let r := sweepToken W w t sym nm bal urg s in
  fst r = Return (Some txHash)
  /\ events is_transfer (snd r)
     = events is_transfer s
       ++ [EvWeb3 (CallTransferToken (privateKey cfg) t (safeWalletAddress cfg) bal
                     (quotedGasPrice W (gasStrategy cfg) urg s))]
  /\ (exists old,
        length old = length (transactions (storage s))
        /\ transactions (storage (snd r))
           = old ++ [{| tx_id := nextId s; tx_walletAddress := w; tx_tokenAddress := t;
                        tx_tokenSymbol := sym; tx_tokenName := nm; tx_amount := bal;
                        tx_amountUSD := JS.or_null (Some (toFixed (getTokenValueUSD t bal) 2));
                        tx_txHash := Some txHash; tx_status := "completed";
                        tx_gasUsed := None;
                        tx_gasPrice :=
                          JS.or_null (Some (quotedGasPrice W (gasStrategy cfg) urg s));
                        tx_blockNumber := None; tx_createdAt := now s;
                        tx_completedAt := Some (now s) |}])
  /\ map act_type (activities (storage (snd r)))
     = map act_type (activities (storage s)) ++ ["transfer_started"; "transfer_completed"]
  /\ timeouts (snd r)
     = timeouts s ++ [{| to_delay := 10000;
                         to_poll := {| p_transactionId := nextId s; p_txHash := txHash;
                                       p_walletAddress := w; p_attempts := 0 |} |}]
  /\ activeSweeps (snd r) = delete (sweepKey w t) (activeSweeps s).
Proof.
  intros Hk Hc Ha Hv Ht r. subst r. rewrite (sweepToken_free W _ _ _ _ _ _ _ Hk).
  set (s0 := with_activeSweeps _ s).
  match goal with
  | |- ?P => change (wp (sweepAttempt W w t sym nm bal urg) s0 (fun r s' =>
      r = Return (Some txHash)
      /\ events is_transfer s'
         = events is_transfer s
           ++ [EvWeb3 (CallTransferToken (privateKey cfg) t (safeWalletAddress cfg) bal
                         (quotedGasPrice W (gasStrategy cfg) urg s))]
      /\ (exists old,
            length old = length (transactions (storage s))
            /\ transactions (storage s')
               = old ++ [{| tx_id := nextId s; tx_walletAddress := w; tx_tokenAddress := t;
                            tx_tokenSymbol := sym; tx_tokenName := nm; tx_amount := bal;
                            tx_amountUSD :=
                              JS.or_null (Some (toFixed (getTokenValueUSD t bal) 2));
                            tx_txHash := Some txHash; tx_status := "completed";
                            tx_gasUsed := None;
                            tx_gasPrice :=
                              JS.or_null (Some (quotedGasPrice W (gasStrategy cfg) urg s));
                            tx_blockNumber := None; tx_createdAt := now s;
                            tx_completedAt := Some (now s) |}])
      /\ map act_type (activities (storage s'))
         = map act_type (activities (storage s))
           ++ ["transfer_started"; "transfer_completed"]
      /\ timeouts s'
         = timeouts s ++ [{| to_delay := 10000;
                             to_poll := {| p_transactionId := nextId s; p_txHash := txHash;
                                           p_walletAddress := w; p_attempts := 0 |} |}]
      /\ activeSweeps s' = delete (sweepKey w t) (activeSweeps s)))
  end.
  unfold sweepAttempt. apply wp_try_finally, wp_try_catch.
  apply (sweepBody_reaches_transfer w t sym nm bal urg s0 cfg Hc Ha Hv).
  intros s1 tx Etx Htx Hact Hcfg Hdet Hlock Hbc Hto Hiv Hnow Hcalls Htr Htm.
  apply wp_bind, wp_web3. rewrite Hcalls.
  assert (Eg : quotedGasPrice W (gasStrategy cfg) urg s0
               = quotedGasPrice W (gasStrategy cfg) urg s)
    by (rewrite !quotedGasPrice_eq; reflexivity).
  rewrite Eg in *. change (calls s0) with (calls s). rewrite Ht.
  apply wp_bind. unfold wp at 1.
  match goal with
  | |- context [updateTransaction ?i ?u ?st] =>
      destruct (updateTransaction_present i u st tx) as (x & ->);
        [cbn; rewrite Htx; apply in_or_app; right; left; reflexivity|reflexivity|]
  end.
  cbn [fst snd]. unfold createActivity.
  apply wp_bind, wp_bind, wp_fresh, wp_bind, wp_gets, wp_bind, wp_modify, wp_ret.
  apply wp_bind. unfold broadcastSweeper. apply wp_bind, wp_gets.
  unfold monitorTransactionReceipt.
  match goal with |- context [if ?b then _ else _] => destruct b end;
    [apply wp_emit|apply wp_ret]; apply wp_bind, wp_setTimeout, wp_ret.
  all: cbn [storage transactions activities timeouts activeSweeps trace now
            with_timers with_trace with_nextId with_storage with_calls with_activeSweeps
            set_transactions set_activities].
  all: rewrite Htx, map_merge_last, Hlock, Hto.
  all: split; [reflexivity|].
  all: split;
    [unfold events in *; cbn; rewrite !List.filter_app; cbn; rewrite ?app_nil_r, Htr;
     reflexivity|].
  all: split;
    [eexists; split; [|subst tx; cbn; rewrite Hnow; reflexivity];
     rewrite length_map; reflexivity|].
  all: split; [rewrite List.map_app, Hact, <- app_assoc; reflexivity|].
  all: split; [subst tx; reflexivity|].
  all: unfold s0; cbn; apply delete_insert_eq.
Qed.


Lemma find_head_filter {A} (f : A -> bool) l : List.find f l = head (List.filter f l).
Proof.
  induction l as [|x l IH]; [reflexivity|]. cbn. destruct (f x); [reflexivity|exact IH].
Qed.

(** What the [catch] block finds: the oldest pending transaction of
    (wallet, token). *)
Lemma sweepFailed_finds w t s :
  List.find (fun tx => String.eqb (tx_walletAddress tx) w && String.eqb (tx_tokenAddress tx) t)
    (List.filter (fun tx => String.eqb (tx_status tx) "pending") (transactions (storage s)))
  = head (pendingOf w t s).
Proof. apply find_head_filter. Qed.

Lemma pendingOf_frame w t s s' :
  transactions (storage s') = transactions (storage s) -> pendingOf w t s' = pendingOf w t s.
Proof. unfold pendingOf. intros ->. reflexivity. Qed.

(** X2.  A sweep whose transfer the ledger rejects returns [null].  The
    transfer was attempted once; the record created for it is marked
    failed, without hash or completion stamp (when no older pending
    transaction of the wallet and token is in the store); a started and a
    failed activity are logged; no confirmation poll is armed; and the
    lock is free again. *)
Theorem sweepToken_transfer_rejected (w t sym nm bal : string) (urg : Urgency) (s : State)
    (cfg : WalletConfig) (message : string) :
  activeSweeps s !! sweepKey w t <> Some true ->
  walletConfigs (storage s) !! w = Some cfg ->
  isActive cfg = true ->
  (getTokenValueUSD t bal <? parseFloat (minTransferAmount cfg))%float = false ->
  w3_transferToken W (S (calls s)) (privateKey cfg) t (safeWalletAddress cfg) bal
    (quotedGasPrice W (gasStrategy cfg) urg s) = Throw message ->
  pendingOf w t s = [] ->
  let r := sweepToken W w t sym nm bal urg s in
  fst r = Return None
  /\ events is_transfer (snd r)
     = events is_transfer s
       ++ [EvWeb3 (CallTransferToken (privateKey cfg) t (safeWalletAddress cfg) bal
                     (quotedGasPrice W (gasStrategy cfg) urg s))]
  /\ (exists old,
        length old = length (transactions (storage s))
        /\ transactions (storage (snd r))
           = old ++ [{| tx_id := nextId s; tx_walletAddress := w; tx_tokenAddress := t;
                        tx_tokenSymbol := sym; tx_tokenName := nm; tx_amount := bal;
                        tx_amountUSD := JS.or_null (Some (toFixed (getTokenValueUSD t bal) 2));
                        tx_txHash := None; tx_status := "failed";
                        tx_gasUsed := None;
                        tx_gasPrice :=
                          JS.or_null (Some (quotedGasPrice W (gasStrategy cfg) urg s));
                        tx_blockNumber := None; tx_createdAt := now s;
                        tx_completedAt := None |}])
  /\ map act_type (activities (storage (snd r)))
     = map act_type (activities (storage s)) ++ ["transfer_started"; "transfer_failed"]
  /\ timeouts (snd r) = timeouts s
  /\ activeSweeps (snd r) = delete (sweepKey w t) (activeSweeps s).
Proof.
  intros Hk Hc Ha Hv Ht Hp r. subst r. rewrite (sweepToken_free W _ _ _ _ _ _ _ Hk).
  set (s0 := with_activeSweeps _ s).
  match goal with
  | |- ?P => change (wp (sweepAttempt W w t sym nm bal urg) s0 (fun r s' =>
      r = Return None
      /\ events is_transfer s'
         = events is_transfer s
           ++ [EvWeb3 (CallTransferToken (privateKey cfg) t (safeWalletAddress cfg) bal
                         (quotedGasPrice W (gasStrategy cfg) urg s))]
      /\ (exists old,
            length old = length (transactions (storage s))
            /\ transactions (storage s')
               = old ++ [{| tx_id := nextId s; tx_walletAddress := w; tx_tokenAddress := t;
                            tx_tokenSymbol := sym; tx_tokenName := nm; tx_amount := bal;
                            tx_amountUSD :=
                              JS.or_null (Some (toFixed (getTokenValueUSD t bal) 2));
                            tx_txHash := None; tx_status := "failed";
                            tx_gasUsed := None;
                            tx_gasPrice :=
                              JS.or_null (Some (quotedGasPrice W (gasStrategy cfg) urg s));
                            tx_blockNumber := None; tx_createdAt := now s;
                            tx_completedAt := None |}])
      /\ map act_type (activities (storage s'))
         = map act_type (activities (storage s)) ++ ["transfer_started"; "transfer_failed"]
      /\ timeouts s' = timeouts s
      /\ activeSweeps s' = delete (sweepKey w t) (activeSweeps s)))
  end.
  unfold sweepAttempt. apply wp_try_finally, wp_try_catch.
  apply (sweepBody_reaches_transfer w t sym nm bal urg s0 cfg Hc Ha Hv).
  intros s1 tx Etx Htx Hact Hcfg Hdet Hlock Hbc Hto Hiv Hnow Hcalls Htr Htm.
  apply wp_bind, wp_web3. rewrite Hcalls.
  assert (Eg : quotedGasPrice W (gasStrategy cfg) urg s0
               = quotedGasPrice W (gasStrategy cfg) urg s)
    by (rewrite !quotedGasPrice_eq; reflexivity).
  rewrite Eg in *. change (calls s0) with (calls s). rewrite Ht. cbv beta iota.
  unfold sweepFailed. apply wp_bind. unfold getTransactionsByStatus. apply wp_gets.
  cbn [storage with_calls with_trace].
  rewrite sweepFailed_finds. unfold pendingOf. rewrite Htx, !List.filter_app.
  change (transactions (storage s0)) with (transactions (storage s)).
  fold (pendingOf w t s). rewrite Hp.
  assert (Etx' : List.filter (fun tx0 => String.eqb (tx_walletAddress tx0) w
                                         && String.eqb (tx_tokenAddress tx0) t)
                   (List.filter (fun tx0 => String.eqb (tx_status tx0) "pending") [tx]) = [tx]).
  { subst tx. cbn. rewrite !String.eqb_refl. reflexivity. }
  rewrite Etx'. cbn [app head].
  apply wp_bind, wp_bind. unfold wp at 1.
  match goal with
  | |- context [updateTransaction ?i ?u ?st] =>
      destruct (updateTransaction_present i u st tx) as (x & ->);
        [cbn; rewrite Htx; apply in_or_app; right; left; reflexivity|reflexivity|]
  end.
  cbn [fst snd]. unfold createActivity.
  apply wp_bind, wp_bind, wp_fresh, wp_bind, wp_gets, wp_bind, wp_modify, wp_ret.
  unfold broadcastSweeper. apply wp_bind, wp_gets.
  match goal with |- context [if ?b then _ else _] => destruct b end;
    [apply wp_emit|apply wp_ret]; apply wp_ret.
  all: cbn [storage transactions activities timeouts activeSweeps trace now
            with_timers with_trace with_nextId with_storage with_calls with_activeSweeps
            set_transactions set_activities].
  all: rewrite Htx, map_merge_last, Hlock, Hto.
  all: split; [reflexivity|].
  all: split;
    [unfold events in *; cbn; rewrite !List.filter_app; cbn; rewrite ?app_nil_r, Htr;
     reflexivity|].
  all: split;
    [eexists; split; [|subst tx; cbn; reflexivity];
     rewrite length_map; reflexivity|].
  all: split; [rewrite List.map_app, Hact, <- app_assoc; reflexivity|].
  all: split; [reflexivity|].
  all: unfold s0; cbn; apply delete_insert_eq.
Qed.


(** X3.  A sweep for a wallet that has no configuration, or an inactive
    one, returns [null] without asking the ledger anything; but its
    [catch] block looks for a pending transaction of the wallet and
    token, and marks the oldest one as failed, with a failed activity,
    whoever created it.  Without such a record the store is left as it
    was.  The lock is free again. *)
Theorem sweepToken_inactive_wallet (w t sym nm bal : string) (urg : Urgency) (s : State) :
  activeSweeps s !! sweepKey w t <> Some true ->
  from_option isActive false (walletConfigs (storage s) !! w) = false ->
  let r := sweepToken W w t sym nm bal urg s in
  fst r = Return None
  /\ calls (snd r) = calls s
  /\ transactions (storage (snd r))
     = match head (pendingOf w t s) with
       | Some failedTx =>
           map (fun tx => if (tx_id tx =? tx_id failedTx)%nat
                          then merge_transaction
                                 {| ut_txHash := None; ut_status := Some "failed";
                                    ut_gasUsed := None; ut_blockNumber := None |} (now s) tx
                          else tx)
               (transactions (storage s))
       | None => transactions (storage s)
       end
  /\ map act_type (activities (storage (snd r)))
     = map act_type (activities (storage s))
       ++ match head (pendingOf w t s) with Some _ => ["transfer_failed"] | None => [] end
  /\ timeouts (snd r) = timeouts s
  /\ activeSweeps (snd r) = delete (sweepKey w t) (activeSweeps s).
Proof.
  intros Hk Hc r. subst r. rewrite (sweepToken_free W _ _ _ _ _ _ _ Hk).
  set (s0 := with_activeSweeps _ s).
  assert (Eb : exists msg, sweepBody W w t sym nm bal urg s0 = (Throw msg, s0)).
  { unfold sweepBody, bind, getWalletConfig, gets. cbn [storage s0 with_activeSweeps].
    destruct (walletConfigs (storage s) !! w) as [cfg|]; [|eexists; reflexivity].
    cbn in Hc. rewrite Hc. eexists. reflexivity. }
  destruct Eb as [msg Eb].
  match goal with
  | |- ?P => change (wp (sweepAttempt W w t sym nm bal urg) s0 (fun r s' =>
      r = Return None
      /\ calls s' = calls s
      /\ transactions (storage s')
         = match head (pendingOf w t s) with
           | Some failedTx =>
               map (fun tx => if (tx_id tx =? tx_id failedTx)%nat
                              then merge_transaction
                                     {| ut_txHash := None; ut_status := Some "failed";
                                        ut_gasUsed := None; ut_blockNumber := None |}
                                     (now s) tx
                              else tx)
                   (transactions (storage s))
           | None => transactions (storage s)
           end
      /\ map act_type (activities (storage s'))
         = map act_type (activities (storage s))
           ++ match head (pendingOf w t s) with
              | Some _ => ["transfer_failed"]
              | None => []
              end
      /\ timeouts s' = timeouts s
      /\ activeSweeps s' = delete (sweepKey w t) (activeSweeps s)))
  end.
  unfold sweepAttempt. apply wp_try_finally, wp_try_catch. unfold wp at 1. rewrite Eb.
  cbn [fst snd]. unfold sweepFailed. apply wp_bind. unfold getTransactionsByStatus.
  apply wp_gets. rewrite sweepFailed_finds, (pendingOf_frame w t s s0 eq_refl).
  destruct (head (pendingOf w t s)) as [failedTx|] eqn:Hh.
  2:{ apply wp_bind, wp_ret, wp_ret. subst s0. cbn. rewrite app_nil_r.
      repeat split; try reflexivity. apply delete_insert_eq. }
  assert (Hin : In failedTx (transactions (storage s0))).
  { apply head_Some_elem_of, list_elem_of_In in Hh. unfold pendingOf in Hh.
    apply List.filter_In, proj1, List.filter_In, proj1 in Hh. exact Hh. }
  apply wp_bind, wp_bind. unfold wp at 1.
  destruct (updateTransaction_present (tx_id failedTx)
              {| ut_txHash := None; ut_status := Some "failed";
                 ut_gasUsed := None; ut_blockNumber := None |} s0 failedTx Hin eq_refl)
    as (x & ->).
  cbn [fst snd]. unfold createActivity.
  apply wp_bind, wp_bind, wp_fresh, wp_bind, wp_gets, wp_bind, wp_modify, wp_ret.
  unfold broadcastSweeper. apply wp_bind, wp_gets.
  match goal with |- context [if ?b then _ else _] => destruct b end;
    [apply wp_emit|apply wp_ret]; apply wp_ret.
  all: subst s0; cbn; rewrite List.map_app;
    repeat split; try reflexivity; apply delete_insert_eq.
Qed.

Lemma sweepBody_locks w t sym nm bal urg :
  preserves (unchanged activeSweeps) (sweepBody W w t sym nm bal urg).
Proof.
  unfold sweepBody, getOptimalGasPrice, monitorTransactionReceipt, broadcastSweeper,
    setTimeout.
  frame.
Qed.

Lemma sweepFailed_locks w t sym bal msg :
  preserves (unchanged activeSweeps) (sweepFailed w t sym bal msg).
Proof. unfold sweepFailed, broadcastSweeper. frame. Qed.

(** X4.  [sweepToken] never rejects, and it never leaves its lock
    behind: whatever the path (turned away, below the minimum, transfer
    submitted, error), the call returns; the lock map is as before when
    the call was turned away, and otherwise it is the map before without
    the key of (wallet, token).  No other key is touched. *)
Theorem sweepToken_releases_lock (w t sym nm bal : string) (urg : Urgency) (s : State) :
  let r := sweepToken W w t sym nm bal urg s in
  (exists txHash, fst r = Return txHash)
  /\ activeSweeps (snd r)
     = match activeSweeps s !! sweepKey w t with
       | Some true => activeSweeps s
       | _ => delete (sweepKey w t) (activeSweeps s)
       end
  /\ (forall key, key <> sweepKey w t -> activeSweeps (snd r) !! key = activeSweeps s !! key).
Proof.
  intros r. subst r.
  assert (Hl : activeSweeps (snd (sweepToken W w t sym nm bal urg s))
               = match activeSweeps s !! sweepKey w t with
                 | Some true => activeSweeps s
                 | _ => delete (sweepKey w t) (activeSweeps s)
                 end).
  { destruct (decide (activeSweeps s !! sweepKey w t = Some true)) as [Hk|Hk].
    { rewrite (sweepToken_held W _ _ _ _ _ _ _ Hk), Hk. reflexivity. }
    rewrite (sweepToken_free W _ _ _ _ _ _ _ Hk).
    set (s0 := with_activeSweeps _ s).
    assert (Hd : activeSweeps (snd (sweepAttempt W w t sym nm bal urg s0))
                 = delete (sweepKey w t) (activeSweeps s)).
    { unfold sweepAttempt, try_finally, try_catch, modify.
      pose proof (sweepBody_locks w t sym nm bal urg s0) as Hb.
      unfold unchanged in Hb.
      destruct (sweepBody W w t sym nm bal urg s0) as [[x|e] s1]; cbn [fst snd] in Hb |- *.
      - cbn [activeSweeps with_activeSweeps]. rewrite Hb. apply delete_insert_eq.
      - pose proof (sweepFailed_locks w t sym bal e s1) as Hf. unfold unchanged in Hf.
        destruct (sweepFailed w t sym bal e s1) as [x s2]. cbn [fst snd] in Hf |- *.
        cbn [activeSweeps with_activeSweeps]. rewrite Hf, Hb. apply delete_insert_eq. }
    rewrite Hd. destruct (activeSweeps s !! sweepKey w t) as [[]|]; [|reflexivity..].
    exfalso. apply Hk. reflexivity. }
  split; [apply (sweepToken_returns W)|]. split; [exact Hl|].
  intros key Hne. rewrite Hl.
  destruct (activeSweeps s !! sweepKey w t) as [[]|]; [reflexivity|..];
    apply lookup_delete_ne; congruence.
Qed.

End SweepPaths.

(** ** Overlapping sweeps *)

Section OverlapFacts.

Context `{Host} (W : Web3Service).

Lemma wp_unchanged {A B} (proj : State -> B) (m : M A) s (Q : Completion A -> State -> Prop) :
  preserves (unchanged proj) m ->
  (forall r s', proj s' = proj s -> Q r s') ->
  wp m s Q.
Proof. intros Hm HQ. apply HQ, Hm. Qed.

(** The transfers of one call: the one that the call is to submit when
    its checks pass, whatever the ledger answers, and none otherwise. *)
Lemma sweepToken_submissions w t sym nm bal urg s :
  events is_transfer (snd (sweepToken W w t sym nm bal urg s))
  = events is_transfer s ++ submissions W w t bal urg s.
Proof.
  unfold submissions, admits.
  destruct (decide (activeSweeps s !! sweepKey w t = Some true)) as [Hk|Hk].
  { rewrite (sweepToken_held W _ _ _ _ _ _ _ Hk), (bool_decide_eq_true_2 _ Hk). cbn [negb andb snd].
    destruct (walletConfigs (storage s) !! w); symmetry; apply app_nil_r. }
  rewrite (bool_decide_eq_false_2 _ Hk). cbn [negb andb].
  destruct (walletConfigs (storage s) !! w) as [cfg|] eqn:Hc.
  2:{ destruct (sweepToken_aborts W w t sym nm bal urg s) as (_ & He & _);
        [intros cfg Hx; rewrite Hc in Hx; discriminate Hx|].
      rewrite He. symmetry; apply app_nil_r. }
  destruct (isActive cfg) eqn:Ha; cbn [andb].
  2:{ destruct (sweepToken_aborts W w t sym nm bal urg s) as (_ & He & _).
      { intros cfg' Hc'. rewrite Hc in Hc'. injection Hc' as <-. rewrite Ha. discriminate. }
      rewrite He. symmetry; apply app_nil_r. }
  destruct (getTokenValueUSD t bal <? parseFloat (minTransferAmount cfg))%float eqn:Hv;
    cbn [negb].
  { destruct (sweepToken_aborts W w t sym nm bal urg s) as (_ & He & _).
    { intros cfg' Hc' _. rewrite Hc in Hc'. injection Hc' as <-. exact Hv. }
    rewrite He. symmetry; apply app_nil_r. }
  rewrite (sweepToken_free W _ _ _ _ _ _ _ Hk).
  set (s0 := with_activeSweeps _ s).
  change (wp (sweepAttempt W w t sym nm bal urg) s0 (fun _ s' =>
            events is_transfer s'
            = events is_transfer s
              ++ [EvWeb3 (CallTransferToken (privateKey cfg) t (safeWalletAddress cfg) bal
                            (quotedGasPrice W (gasStrategy cfg) urg s))])).
  unfold sweepAttempt. apply wp_try_finally, wp_try_catch.
  apply (sweepBody_reaches_transfer W w t sym nm bal urg s0 cfg Hc Ha Hv).
  intros s1 tx Etx Htx Hact Hcfg Hdet Hlock Hbc Hto Hiv Hnow Hcalls Htr Htm.
  assert (Eg : quotedGasPrice W (gasStrategy cfg) urg s0
               = quotedGasPrice W (gasStrategy cfg) urg s)
    by (rewrite !quotedGasPrice_eq; reflexivity).
  rewrite Eg in *.
  apply wp_bind, wp_web3.
  match goal with |- context [with_calls ?c (with_trace ?tr s1)] =>
    set (s2 := with_calls c (with_trace tr s1))
  end.
  assert (H2 : events is_transfer s2
               = events is_transfer s
                 ++ [EvWeb3 (CallTransferToken (privateKey cfg) t (safeWalletAddress cfg) bal
                               (quotedGasPrice W (gasStrategy cfg) urg s))]).
  { unfold s2, events in *. cbn [trace with_calls with_trace].
    rewrite filter_app_one, Htr. reflexivity. }
  clearbody s2.
  destruct (w3_transferToken W (calls s1) _ _ _ _ _) as [txHash|e].
  - apply (wp_unchanged (events is_transfer)).
    + unfold monitorTransactionReceipt. quiet; apply broadcastSweeper_events; reflexivity.
    + intros r s3 E3. destruct r as [x|e].
      * cbn. unfold events. cbn [trace with_activeSweeps]. fold (events is_transfer s3).
        rewrite E3. exact H2.
      * apply (wp_unchanged (events is_transfer));
          [apply sweepFailed_events; reflexivity|].
        intros r' s4 E4. unfold events. cbn [trace with_activeSweeps].
        fold (events is_transfer s4). rewrite E4, E3. exact H2.
  - apply (wp_unchanged (events is_transfer)); [apply sweepFailed_events; reflexivity|].
    intros r' s4 E4. unfold events. cbn [trace with_activeSweeps].
    fold (events is_transfer s4). rewrite E4. exact H2.
Qed.

(** C1.  While the lock map holds the key of (wallet, asset), a call of
    [sweepToken] for that key returns [null] and leaves the whole state
    as it was: no transaction record, no activity record, no call of
    the ledger.  Hence calls that overlap (the first has taken the lock
    and awaits, the others arrive, the first resumes) have the effect
    and the result of the first call alone, and every other call
    returns [null].  The transfers they submit are those of the first
    call: one, when the lock was free, the wallet has an active
    configuration and the value is not below its minimum, and none
    when one of these checks of the first call fails. *)
Theorem sweepToken_in_progress (w t : string) (first : SweepArgs)
    (others : list SweepArgs) (s : State) :
  (activeSweeps s !! sweepKey w t = Some true ->
   forall sym nm bal urg, sweepToken W w t sym nm bal urg s = (Return None, s))
  /\ overlappingSweeps W w t first others s
     = (let '(r, s') := sweepToken W w t (a_tokenSymbol first) (a_tokenName first)
                          (a_balance first) (a_urgency first) s in
        (match r with
         | Return x => Return (x, repeat None (length others))
         | Throw e => Throw e
         end, s'))
  /\ events is_transfer (snd (overlappingSweeps W w t first others s))
     = events is_transfer s ++ submissions W w t (a_balance first) (a_urgency first) s
  /\ length (submissions W w t (a_balance first) (a_urgency first) s)
     = (if admits w t (a_balance first) s then 1 else 0).
Proof.
  split; [|split; [|split]].
  - intros Hk sym nm bal urg. apply sweepToken_held, Hk.
  - apply overlapping_as_one.
  - rewrite overlapping_as_one.
    pose proof (sweepToken_submissions w t (a_tokenSymbol first) (a_tokenName first)
                  (a_balance first) (a_urgency first) s) as Ht.
    destruct (sweepToken W w t _ _ _ _ s) as [r s']. exact Ht.
  - unfold submissions, admits.
    destruct (walletConfigs (storage s) !! w) as [cfg|]; [|rewrite Bool.andb_false_r; reflexivity].
    destruct (_ && _); reflexivity.
Qed.

End OverlapFacts.

(** The lock of the wallet's LINK is held: the call is turned away. *)
Lemma sweepToken_in_progress_witness :
  sweepToken demoLedger "0xw" LINK "LINK" "Chainlink" "100.000000" high demoLocked
  = (Return None, demoLocked).
Proof.
  refine (proj1 (sweepToken_in_progress demoLedger "0xw" LINK
                   {| a_tokenSymbol := "LINK"; a_tokenName := "Chainlink";
                      a_balance := "100.000000"; a_urgency := high |} [] demoLocked)
            _ "LINK" "Chainlink" "100.000000" high).
  vm_compute. reflexivity.
Defined.

(** Of calls that overlap, none may submit: the first call is below the
    wallet's minimum, the others are turned away by its lock, and all
    three return [null]. *)
Lemma overlapping_sweeps_none_submits :
  fst (demoOverlap demoState) = Return (None, [None; None])
  /\ events is_transfer (snd (demoOverlap demoState)) = [].
Proof. split; vm_compute; reflexivity. Qed.

(** ** The emergency stop of the sweeper *)

Lemma startsWith_nil s : JS.startsWith s "" = true.
Proof. destruct s; reflexivity. Qed.

Lemma startsWith_app s p x : JS.startsWith s p = true -> JS.startsWith (s +:+ x) p = true.
Proof.
  revert s. induction p as [|a p IH]; intros s; [intros _; apply startsWith_nil|].
  destruct s as [|b s]; [discriminate|].
  change (String b s +:+ x) with (String b (s +:+ x)). cbn [JS.startsWith].
  destruct (Ascii.eqb a b); [apply IH|discriminate].
Qed.

Lemma startsWith_refl s : JS.startsWith s s = true.
Proof. induction s as [|a s IH]; cbn; [reflexivity|]. rewrite Ascii.eqb_refl. exact IH. Qed.

Lemma startsWith_sweepKey w t prefix :
  JS.startsWith w prefix = true -> JS.startsWith (sweepKey w t) prefix = true.
Proof. intros Hp. unfold sweepKey. apply startsWith_app, Hp. Qed.

(** X5.  [emergencyStop(wallet)] deletes the locks whose key starts with
    the string given and no other: afterwards the wallet has no active
    sweep, so has every wallet whose address starts with that string,
    the count over all wallets has dropped by the count of the wallet,
    and the remaining locks are as before.  Nothing else is touched: the
    store, the pending confirmation polls and the trace are as before,
    so a transfer already submitted is neither cancelled nor marked. *)
Theorem emergencyStop_wallet (prefix : string) (s : State) :
  let s' := snd (emergencyStop (Some prefix) s) in
  fst (getActiveSweepCount (Some prefix) s') = Return 0
  /\ (forall w t, JS.startsWith w prefix = true -> activeSweeps s' !! sweepKey w t = None)
  /\ (forall key, JS.startsWith key prefix = false ->
        activeSweeps s' !! key = activeSweeps s !! key)
  /\ (exists n total,
        fst (getActiveSweepCount (Some prefix) s) = Return n
        /\ fst (getActiveSweepCount None s) = Return total
        /\ fst (getActiveSweepCount None s') = Return (total - n))
  /\ storage s' = storage s /\ timeouts s' = timeouts s /\ intervals s' = intervals s
  /\ trace s' = trace s.
Proof.
  cbn. split; [|split; [|split; [|split]]].
  - f_equal. apply map_size_empty_iff, map_empty_filter.
    intros key v Hkv Hs. apply map_lookup_filter_Some in Hkv as [_ Hf]. cbn in Hf, Hs.
    congruence.
  - intros w t Hw. apply map_lookup_filter_None. right. intros v _. cbn.
    rewrite (startsWith_sweepKey w t prefix Hw). discriminate.
  - intros key Hf. apply option_eq. intros v. rewrite map_lookup_filter_Some. cbn. tauto.
  - eexists _, _. split; [reflexivity|]. split; [reflexivity|]. f_equal.
    pose proof (map_filter_union_complement
                  (fun kv : string * bool => JS.startsWith (fst kv) prefix = true)
                  (activeSweeps s)) as Hu.
    pose proof (map_disjoint_filter_complement
                  (fun kv : string * bool => JS.startsWith (fst kv) prefix = true)
                  (activeSweeps s)) as Hd.
    apply map_size_disj_union in Hd. rewrite Hu in Hd.
    assert (Ef : filter (fun kv : string * bool => JS.startsWith (fst kv) prefix = false)
                   (activeSweeps s)
                 = filter (fun kv : string * bool => ¬ JS.startsWith (fst kv) prefix = true)
                     (activeSweeps s)).
    { apply map_filter_ext. intros key v _. cbn.
      destruct (JS.startsWith key prefix); split; congruence. }
    rewrite Ef. lia.
  - repeat split; reflexivity.
Qed.

(** X6.  The emergency stop does not reach a sweep in flight: the sweep
    that holds the lock goes on, but its lock is gone, so the next call
    for the same wallet and token is admitted while the first is still
    running.  This holds for the stop of all wallets and for the stop of
    any string that the wallet's address starts with. *)
Theorem emergencyStop_reopens (w t : string) (stop : option string) (s : State) :
  from_option (JS.startsWith w) true stop = true ->
  let inFlight := snd (sweepAcquire w t s) in
  activeSweeps inFlight !! sweepKey w t = Some true
  /\ fst (sweepAcquire w t inFlight) = Return false
  /\ fst (sweepAcquire w t (snd (emergencyStop stop inFlight))) = Return true.
Proof.
  intros Hs inFlight.
  assert (Hheld : activeSweeps inFlight !! sweepKey w t = Some true).
  { subst inFlight. destruct (decide (activeSweeps s !! sweepKey w t = Some true)) as [Hk|Hk].
    - rewrite (sweepAcquire_held _ _ _ Hk). exact Hk.
    - rewrite (sweepAcquire_free _ _ _ Hk). cbn. apply lookup_insert_eq. }
  split; [exact Hheld|]. split; [rewrite (sweepAcquire_held _ _ _ Hheld); reflexivity|].
  rewrite sweepAcquire_free; [reflexivity|].
  destruct stop as [prefix|]; cbn.
  - rewrite (proj2 (map_lookup_filter_None _ _ _)); [discriminate|].
    right. intros v _. cbn. cbn in Hs. rewrite (startsWith_sweepKey w t prefix Hs).
    discriminate.
  - rewrite lookup_empty. discriminate.
Qed.

(** ** The receipt of a transfer *)

Section ReceiptFacts.

Context `{Host} (W : Web3Service).

Lemma map_merge_absent u time id (l : list Transaction) :
  List.find (fun tx => (tx_id tx =? id)%nat) l = None ->
  map (fun tx => if (tx_id tx =? id)%nat then merge_transaction u time tx else tx) l = l.
Proof.
  intros Hf. rewrite <- (List.map_id l) at 2. apply List.map_ext_in. intros tx Hin.
  pose proof (List.find_none _ _ Hf tx Hin) as Hn. cbv beta in Hn. rewrite Hn. reflexivity.
Qed.

(** X7.  When a confirmation poll fires and the ledger has the receipt,
    the poll ends: its timeout is gone and no other is armed.  The
    transaction record of the poll gets the receipt's block number, the
    fee paid, and the status that the receipt reports.  The sweep had
    marked the record completed when it submitted the transfer, so a
    receipt of a reverted transfer turns a completed record into a failed
    one, which keeps its completion stamp. *)
Theorem checkReceipt_settles (i : nat) (s : State) (tmo : Timeout) (receipt : Receipt) :
  timeouts s !! i = Some tmo ->
  w3_getTransactionReceipt W (calls s) (p_txHash (to_poll tmo)) = Return (Some receipt) ->
  let s' := snd (fireTimeout W i s) in
  let updates :=
    {| ut_txHash := None;
       ut_status := Some (if r_status receipt then "completed" else "failed");
       ut_gasUsed :=
         Some (toFixed (r_gasUsed receipt * default 0%float (r_gasPrice receipt) / 1e18)%float 6);
       ut_blockNumber := Some (r_blockNumber receipt) |} in
  fst (fireTimeout W i s) = Return tt
  /\ timeouts s' = delete i (timeouts s)
  /\ transactions (storage s')
     = map (fun tx => if (tx_id tx =? p_transactionId (to_poll tmo))%nat
                      then merge_transaction updates (now s) tx else tx)
         (transactions (storage s))
  /\ (forall tx stamp,
        tx_completedAt tx = Some stamp ->
        tx_completedAt (merge_transaction updates (now s) tx) = Some stamp
        /\ tx_status (merge_transaction updates (now s) tx)
           = (if r_status receipt then "completed" else "failed")).
Proof.
  intros Hi Hr s' updates. subst s'.
  assert (E : fst (fireTimeout W i s) = Return tt
              /\ timeouts (snd (fireTimeout W i s)) = delete i (timeouts s)
              /\ transactions (storage (snd (fireTimeout W i s)))
                 = map (fun tx => if (tx_id tx =? p_transactionId (to_poll tmo))%nat
                                  then merge_transaction updates (now s) tx else tx)
                     (transactions (storage s))).
  { change (wp (fireTimeout W i) s (fun r s' =>
              r = Return tt /\ timeouts s' = delete i (timeouts s)
              /\ transactions (storage s')
                 = map (fun tx => if (tx_id tx =? p_transactionId (to_poll tmo))%nat
                                  then merge_transaction updates (now s) tx else tx)
                     (transactions (storage s)))).
    unfold fireTimeout. apply wp_bind, wp_gets. rewrite Hi.
    apply wp_bind, wp_modify. unfold checkReceipt. apply wp_try_catch, wp_bind, wp_web3.
    cbn [calls with_timers]. rewrite Hr. cbv zeta.
    apply wp_bind. unfold wp at 1.
    match goal with
    | |- context [updateTransaction ?id ?u ?st] =>
        destruct (List.find (fun tx => (tx_id tx =? id)%nat) (transactions (storage st)))
          as [e|] eqn:Hf;
        [apply List.find_some in Hf as [Hin Hid]; apply Nat.eqb_eq in Hid;
         destruct (updateTransaction_present id u st e Hin Hid) as (x & ->)
        |rewrite (updateTransaction_absent id u st Hf)]
    end.
    - cbn [fst snd]. unfold broadcastSweeper. apply wp_bind, wp_gets.
      match goal with |- context [if ?b then _ else _] => destruct b end;
        [apply wp_emit|apply wp_ret]; cbn; repeat split; reflexivity.
    - cbn [fst snd]. unfold broadcastSweeper. apply wp_bind, wp_gets.
      cbn in Hf.
      match goal with |- context [if ?b then _ else _] => destruct b end;
        [apply wp_emit|apply wp_ret]; cbn;
        rewrite (map_merge_absent _ _ _ _ Hf); repeat split; reflexivity. }
  destruct E as (E1 & E2 & E3). split; [exact E1|]. split; [exact E2|]. split; [exact E3|].
  intros tx stamp Hs. cbn. rewrite Hs. split; reflexivity.
Qed.

End ReceiptFacts.

(** ** The network load *)

Section LoadFacts.

Context `{Host} (W : Web3Service).

Lemma SFltb_between (m M1 M2 : positive) (e E1 E2 : Z) :
  (E1 < E2)%Z ->
  SFltb (S754_finite false m e) (S754_finite false M1 E1) = true ->
  SFltb (S754_finite false M2 E2) (S754_finite false m e) = false.
Proof.
  unfold SFltb. cbn [SFcompare]. intros HE.
  destruct (Z.compare_spec e E1) as [He|He|He]; try discriminate;
    destruct (Z.compare_spec E2 e) as [He'|He'|He']; try reflexivity; intros _; lia.
Qed.

(** No load is below 30 and above 80. *)
Lemma below_30_not_above_80 (load : float) :
  (load <? 30)%float = true -> (80 <? load)%float = false.
Proof.
  rewrite !FloatAxioms.ltb_spec.
  change (Prim2SF 30) with (S754_finite false 8444249301319680 (-48)).
  change (Prim2SF 80) with (S754_finite false 5629499534213120 (-46)).
  destruct (Prim2SF load) as [sg|sg| |sg m e]; try discriminate;
    try (destruct sg; intros; (reflexivity || discriminate)).
  destruct sg; [intros; reflexivity|]. apply SFltb_between. lia.
Qed.

Lemma SFltb_below (m M1 M2 : positive) (e E1 E2 : Z) :
  (E1 < E2)%Z ->
  SFltb (S754_finite false m e) (S754_finite false M1 E1) = true ->
  SFltb (S754_finite false m e) (S754_finite false M2 E2) = true.
Proof.
  unfold SFltb. cbn [SFcompare]. intros HE.
  destruct (Z.compare_spec e E1) as [He|He|He]; try discriminate;
    destruct (Z.compare_spec e E2) as [He'|He'|He']; try reflexivity; intros _; lia.
Qed.

Lemma below_50_below_100 (x : float) : (x <? 50)%float = true -> (x <? 100)%float = true.
Proof.
  rewrite !FloatAxioms.ltb_spec.
  change (Prim2SF 50) with (S754_finite false 7036874417766400 (-47)).
  change (Prim2SF 100) with (S754_finite false 7036874417766400 (-46)).
  destruct (Prim2SF x) as [sg|sg| |sg m e]; try discriminate;
    try (destruct sg; intros; (reflexivity || discriminate)).
  destruct sg; [intros; reflexivity|]. apply SFltb_below. lia.
Qed.

(** X8.  [updateNetworkLoad] never rejects.  When the fee cannot be read
    the load stays as it was; otherwise the load is 25, 50, 75 or 95 by
    the band of the fee read (below 20, below 50, below 100, the rest,
    which includes a reading that is not a number), and the strategy
    recommended from then on is slow below 20 gwei, fast from 100 gwei
    on and standard in between. *)
Theorem updateNetworkLoad_bands (s : State) :
  let r := updateNetworkLoad W s in
  fst r = Return tt
  /\ match w3_getGasPrice W (calls s) with
     | Throw _ => currentNetworkLoad (snd r) = currentNetworkLoad s
     | Return currentGasPrice =>
         let gasPriceGwei := parseFloat currentGasPrice in
         currentNetworkLoad (snd r)
         = (if (gasPriceGwei <? 20)%float then 25%float
            else if (gasPriceGwei <? 50)%float then 50%float
            else if (gasPriceGwei <? 100)%float then 75%float
            else 95%float)
         /\ fst (getRecommendedStrategy (snd r))
            = Return (if (gasPriceGwei <? 20)%float then "slow"
                      else if (gasPriceGwei <? 100)%float then "standard"
                      else "fast")
     end.
Proof.
  cbv zeta. unfold updateNetworkLoad, try_catch, bind, web3, modify, getRecommendedStrategy,
    gets, ret.
  destruct (w3_getGasPrice W (calls s)) as [p|e]; cbn [fst snd]; [|split; reflexivity].
  split; [reflexivity|]. cbn [currentNetworkLoad with_networkLoad].
  split; [reflexivity|].
  destruct (parseFloat p <? 20)%float; [reflexivity|].
  destruct (parseFloat p <? 50)%float eqn:E50;
    [rewrite (below_50_below_100 _ E50); reflexivity|].
  destruct (parseFloat p <? 100)%float; reflexivity.
Qed.

End LoadFacts.

(** X9.  Whatever the load, the strategy that [getRecommendedStrategy]
    names is one of the three that the optimizer knows, so the fee is
    computed with that strategy's multiplier and not with the fallback;
    and [shouldDelayTransaction] never asks to delay the strategy that
    is recommended. *)
Theorem recommended_strategy_usable (s : State) :
  exists recommended,
    fst (getRecommendedStrategy s) = Return recommended
    /\ In recommended (map fst strategies)
    /\ (exists g, strategies_get recommended = Some g /\ selectedStrategy recommended = g)
    /\ fst (shouldDelayTransaction recommended s) = Return false.
Proof.
  unfold getRecommendedStrategy, shouldDelayTransaction, bind, gets, ret. cbn [fst snd].
  eexists. split; [reflexivity|].
  destruct (currentNetworkLoad s <? 30)%float eqn:E30.
  - rewrite (below_30_not_above_80 _ E30).
    split; [cbn; auto|]. split; [eexists; split; reflexivity|reflexivity].
  - destruct (80 <? currentNetworkLoad s)%float;
      (split; [cbn; auto|]; split; [eexists; split; reflexivity|reflexivity]).
Qed.

(** ** The tokens to monitor *)

Lemma includes_app l x y : includes (l ++ [y]) x = includes l x || String.eqb x y.
Proof. unfold includes. rewrite existsb_app. cbn. rewrite Bool.orb_false_r. reflexivity. Qed.

Lemma includes_In l x : includes l x = true <-> In x l.
Proof.
  unfold includes. rewrite existsb_exists. split.
  - intros (y & Hy & E). apply String.eqb_eq in E. subst. exact Hy.
  - intros Hx. exists x. split; [exact Hx|apply String.eqb_refl].
Qed.

Lemma remove_first_app_new l x :
  includes l x = false -> remove_first x (l ++ [x]) = l.
Proof.
  induction l as [|y l IH]; cbn; [rewrite String.eqb_refl; reflexivity|].
  rewrite (String.eqb_sym x y). destruct (String.eqb y x); [discriminate|].
  cbn. intros Hl. rewrite (IH Hl). reflexivity.
Qed.

Lemma remove_first_NoDup l x : List.NoDup l -> includes (remove_first x l) x = false.
Proof.
  induction l as [|y l IH]; [reflexivity|]. intros Hn. apply List.NoDup_cons_iff in Hn as [Hy Hn].
  cbn. destruct (String.eqb y x) eqn:E.
  - apply String.eqb_eq in E. subst y. apply Bool.not_true_is_false.
    intros Hi. apply includes_In in Hi. contradiction.
  - cbn. rewrite (String.eqb_sym x y), E. cbn. apply IH, Hn.
Qed.

Lemma specificTokens_set w w' l mw kt m s :
  specificTokens w' (with_detector mw kt (<[w := l]> m) s)
  = if decide (w = w') then l else default [] (m !! w').
Proof.
  unfold specificTokens. cbn [specificTokensToMonitor with_detector].
  destruct (decide (w = w')) as [->|Hne];
    [rewrite lookup_insert_eq|rewrite lookup_insert_ne by exact Hne]; reflexivity.
Qed.

(** X10.  The list of specific tokens of a wallet holds lowercased
    addresses without repetition: adding a token puts its lowercased
    address at the end unless it is there already, so that adding it
    again, in any spelling, changes nothing; removing a token that was
    just added gives the list back; after a removal the token is no
    longer in a list that had no repetition.  The list is kept under the
    wallet address as spelled by the caller: the lists of all other
    strings, also those that differ from it only in case, are left
    alone. *)
Theorem specificTokens_add_remove (w t : string) (s : State) :
  let added := snd (addSpecificTokenToMonitor w t s) in
  includes (specificTokens w added) (JS.toLowerCase t) = true
  /\ (forall t', JS.toLowerCase t' = JS.toLowerCase t ->
        snd (addSpecificTokenToMonitor w t' added) = added)
  /\ (List.NoDup (specificTokens w s) -> List.NoDup (specificTokens w added))
  /\ (includes (specificTokens w s) (JS.toLowerCase t) = false ->
      forall t', JS.toLowerCase t' = JS.toLowerCase t ->
        specificTokens w (snd (removeSpecificTokenFromMonitor w t' added))
        = specificTokens w s)
  /\ (List.NoDup (specificTokens w s) ->
      includes (specificTokens w (snd (removeSpecificTokenFromMonitor w t s)))
        (JS.toLowerCase t) = false)
  /\ (forall w', w' <> w ->
        specificTokens w' added = specificTokens w' s
        /\ specificTokens w' (snd (removeSpecificTokenFromMonitor w t s))
           = specificTokens w' s).
Proof.
  cbv zeta. unfold addSpecificTokenToMonitor, removeSpecificTokenFromMonitor, modify.
  cbn [snd]. fold (specificTokens w s).
  destruct (includes (specificTokens w s) (JS.toLowerCase t)) eqn:E; cbn [negb].
  - (* the token is in the list *)
    split; [exact E|]. split; [|split; [|split; [|split]]].
    + intros t' ->. fold (specificTokens w s). rewrite E. reflexivity.
    + auto.
    + discriminate.
    + intros Hn. rewrite specificTokens_set, decide_True by reflexivity.
      apply remove_first_NoDup, Hn.
    + intros w' Hw. split; [reflexivity|].
      rewrite specificTokens_set, decide_False by congruence. reflexivity.
  - (* the token is new *)
    set (added := with_detector _ _ _ s).
    assert (Es : specificTokens w added = specificTokens w s ++ [JS.toLowerCase t]).
    { unfold added. rewrite specificTokens_set, decide_True by reflexivity. reflexivity. }
    assert (Ei : includes (specificTokens w added) (JS.toLowerCase t) = true).
    { rewrite Es, includes_app, String.eqb_refl. apply Bool.orb_true_r. }
    split; [exact Ei|]. split; [|split; [|split; [|split]]].
    + intros t' ->. fold (specificTokens w added). rewrite Ei. reflexivity.
    + intros Hn. rewrite Es.
      apply List.NoDup_app; [exact Hn|apply List.NoDup_cons; [intros []|apply List.NoDup_nil]|].
      intros x Hx [<-|[]]. apply includes_In in Hx. congruence.
    + intros _ t' ->. fold (specificTokens w added). rewrite Ei.
      rewrite specificTokens_set, decide_True by reflexivity.
      rewrite Es. apply remove_first_app_new, E.
    + intros _. exact E.
    + intros w' Hw. split; [|reflexivity].
      unfold added. rewrite specificTokens_set, decide_False by congruence. reflexivity.
Qed.

(** ** Starting and ending scans *)

Section ScanFacts.

Context `{Host} (W : Web3Service).

Lemma find_filter_out h (ivs : list Interval) :
  List.find (fun i => (iv_handle i =? h)%nat)
    (List.filter (fun i => negb (iv_handle i =? h)%nat) ivs) = None.
Proof.
  induction ivs as [|x l IH]; [reflexivity|]. cbn.
  destruct (iv_handle x =? h)%nat eqn:E; cbn; [exact IH|]. rewrite E. exact IH.
Qed.

(** X11.  [stopMonitoring] takes the wallet out of the watched set, in
    whatever case the address is written, and leaves its timer alone.
    The timer ends at its next tick: that tick finds the wallet gone,
    clears the interval and starts no scan, so nothing is asked of the
    ledger and the store is as before; the interval never fires
    again. *)
Theorem stopMonitoring_ends_at_next_tick (running : list (Interval * Z)) (s : State)
    (iv : Interval) (w : string) :
  List.find (fun i => (iv_handle i =? iv_handle iv)%nat) (intervals s) = Some iv ->
  iv_due iv = now s ->
  JS.toLowerCase w = JS.toLowerCase (iv_walletAddress iv) ->
  let stopped := snd (stopMonitoring w s) in
  intervals stopped = intervals s
  /\ exists s',
       act W (Fire (iv_handle iv)) {| l_state := stopped; l_running := running |}
       = Some {| l_state := s'; l_running := running |}
       /\ List.find (fun i => (iv_handle i =? iv_handle iv)%nat) (intervals s') = None
       /\ storage s' = storage s /\ calls s' = calls s
       /\ act W (Fire (iv_handle iv)) {| l_state := s'; l_running := running |} = None.
Proof.
  intros Hfind Hdue Hw stopped. split; [reflexivity|].
  unfold act. cbn [l_state l_running].
  change (intervals stopped) with (intervals s). rewrite Hfind.
  change (now stopped) with (now s). rewrite (bool_decide_eq_true_2 _ Hdue).
  unfold periodicScanHead, bind, gets.
  assert (Hout : bool_decide (JS.toLowerCase (iv_walletAddress iv)
                              ∈ monitoringWallets (rearm (iv_handle iv) stopped)) = false).
  { apply bool_decide_eq_false_2. cbn. rewrite <- Hw, elem_of_difference.
    intros [_ Hn]. apply Hn, elem_of_singleton. reflexivity. }
  rewrite Hout. cbn [negb]. unfold clearInterval, emit, modify, ret. cbn [fst snd].
  eexists. split; [reflexivity|]. cbn [intervals with_timers with_trace].
  split; [apply find_filter_out|]. split; [reflexivity|]. split; [reflexivity|].
  cbn [l_state]. cbn [intervals with_timers with_trace]. rewrite find_filter_out. reflexivity.
Qed.


(** One known token whose balance cannot be read or is not positive:
    the balance is asked for and nothing else happens. *)
Lemma scanKnownToken_nothing_held w existing entry s :
  match w3_getTokenBalance W (calls s) w (fst entry) with
  | Return balance => (0 <? parseFloat balance)%float = false
  | Throw _ => True
  end ->
  scanKnownToken W w existing entry s
  = (Return tt,
     with_calls (S (calls s))
       (with_trace (trace s ++ [EvWeb3 (CallGetTokenBalance w (fst entry))]) s)).
Proof.
  destruct entry as [tokenAddress tokenInfo]. cbn [fst]. intros Hb.
  unfold scanKnownToken, try_catch, bind, getTokenBalance, web3.
  destruct (w3_getTokenBalance W (calls s) w tokenAddress) as [balance|e]; [|reflexivity].
  rewrite Hb. reflexivity.
Qed.

Lemma scanKnownTokens_nothing_held w existing known s :
  (forall n tokenAddress,
      match w3_getTokenBalance W n w tokenAddress with
      | Return balance => (0 <? parseFloat balance)%float = false
      | Throw _ => True
      end) ->
  for_each known (scanKnownToken W w existing) s
  = (Return tt,
     with_calls (calls s + length known)
       (with_trace (trace s ++ map (fun kv => EvWeb3 (CallGetTokenBalance w (fst kv))) known)
          s)).
Proof.
  intros Hb. revert s. induction known as [|entry known IH]; intros s.
  - cbn. rewrite Nat.add_0_r, app_nil_r. destruct s; reflexivity.
  - cbn [for_each]. unfold bind at 1.
    rewrite (scanKnownToken_nothing_held w existing entry s (Hb _ _)).
    rewrite IH. cbn. rewrite <- app_assoc. cbn. rewrite Nat.add_succ_r. reflexivity.
Qed.

(** X12.  A scan of a wallet that holds none of the known tokens asks
    for the balance of every known token, once each and in the order of
    the map, and does nothing else: a balance that cannot be read, that
    is zero or that does not parse as a number is skipped and the scan
    goes on with the next token.  The store, the timers and the locks
    are as before and the scan returns normally. *)
Theorem scanWalletForTokens_nothing_held (w : string) (s : State) :
  (forall n tokenAddress,
      match w3_getTokenBalance W n w tokenAddress with
      | Return balance => (0 <? parseFloat balance)%float = false
      | Throw _ => True
      end) ->
  scanWalletForTokens W w s
  = (Return tt,
     with_calls (calls s + length (knownTokens s))
       (with_trace
          (trace s ++ map (fun kv => EvWeb3 (CallGetTokenBalance w (fst kv))) (knownTokens s))
          s)).
Proof.
  intros Hb. unfold scanWalletForTokens, try_catch, bind, getTokenDetections, gets.
  rewrite (scanKnownTokens_nothing_held w _ (knownTokens s) s Hb). reflexivity.
Qed.

End ScanFacts.

(** ** The emergency stop route *)

(** The state after wallets have been stopped: the watched set and the
    configurations have changed, nothing else has. *)
Lemma stopWallets_state (l : list string) (s : State) :
  exists watched configs,
    stopWallets l s
    = (Return tt,
       with_storage (set_walletConfigs configs (storage s))
         (with_detector watched (knownTokens s) (specificTokensToMonitor s) s))
    /\ (forall x, x ∈ watched <-> x ∈ monitoringWallets s /\ x ∉ JS.toLowerCase <$> l)
    /\ (forall w, configs !! w
                  = (fun cfg => if bool_decide (w ∈ l) then merge_config deactivate cfg else cfg)
                      <$> (walletConfigs (storage s) !! w)).
Proof.
  revert s. induction l as [|a l IH]; intros s.
  - exists (monitoringWallets s), (walletConfigs (storage s)).
    split; [destruct s as [? ? ? ? ? ? ? [? ? ? ?] ? ? ? ? ? ?]; reflexivity|].
    split; [intros x; cbn; rewrite elem_of_nil; tauto|].
    intros w. destruct (walletConfigs (storage s) !! w); reflexivity.
  - unfold stopWallets. cbn [for_each]. fold (stopWallets l).
    unfold bind at 1, bind at 1, stopMonitoring at 1, modify at 1.
    set (s1 := with_detector _ _ _ s).
    unfold bind at 1, updateWalletConfig at 1, bind at 1, getWalletConfig, gets at 1.
    change (walletConfigs (storage s1)) with (walletConfigs (storage s)).
    assert (Hcase : forall w (cfg : WalletConfig),
               (if bool_decide (w ∈ a :: l) then merge_config deactivate cfg else cfg)
               = if decide (a = w) then merge_config deactivate cfg
                 else if bool_decide (w ∈ l) then merge_config deactivate cfg else cfg).
    { intros w cfg. destruct (decide (a = w)) as [->|Hne].
      - rewrite bool_decide_eq_true_2 by (left). reflexivity.
      - destruct (bool_decide (w ∈ l)) eqn:E.
        + apply bool_decide_eq_true_1 in E.
          rewrite bool_decide_eq_true_2 by (right; exact E). reflexivity.
        + apply bool_decide_eq_false_1 in E.
          rewrite bool_decide_eq_false_2; [reflexivity|].
          rewrite elem_of_cons. intros [->|?]; tauto. }
    assert (Hset : forall x (watched : gset string),
               (x ∈ watched <->
                x ∈ monitoringWallets s ∖ {[JS.toLowerCase a]} /\ x ∉ JS.toLowerCase <$> l) ->
               (x ∈ watched <->
                x ∈ monitoringWallets s /\ x ∉ JS.toLowerCase <$> (a :: l))).
    { intros x watched ->. rewrite fmap_cons, elem_of_cons, elem_of_difference,
        elem_of_singleton. tauto. }
    destruct (walletConfigs (storage s) !! a) as [cfg|] eqn:Ha.
    + unfold bind at 1, modify at 1, ret at 1, ret at 1.
      set (s2 := with_storage _ s1).
      destruct (IH s2) as (watched & configs & -> & Hw & Hc).
      exists watched, configs.
      split; [destruct s as [? ? ? ? ? ? ? [? ? ? ?] ? ? ? ? ? ?]; reflexivity|]. split.
      * intros x. apply Hset, Hw.
      * intros w. rewrite Hc. cbn.
        destruct (decide (a = w)) as [->|Hne].
        -- rewrite lookup_insert_eq, Ha. cbn. rewrite Hcase, decide_True by reflexivity.
           destruct (bool_decide (w ∈ l)); reflexivity.
        -- rewrite lookup_insert_ne by exact Hne.
           destruct (walletConfigs (storage s) !! w); [|reflexivity]. cbn.
           rewrite Hcase, decide_False by exact Hne. reflexivity.
    + unfold ret at 1, ret at 1.
      destruct (IH s1) as (watched & configs & -> & Hw & Hc).
      exists watched, configs.
      split; [destruct s as [? ? ? ? ? ? ? [? ? ? ?] ? ? ? ? ? ?]; reflexivity|]. split.
      * intros x. apply Hset, Hw.
      * intros w. rewrite Hc. cbn.
        destruct (decide (a = w)) as [->|Hne]; [rewrite Ha; reflexivity|].
        destruct (walletConfigs (storage s) !! w); [|reflexivity]. cbn.
        rewrite Hcase, decide_False by exact Hne. reflexivity.
Qed.

Section EmergencyRoute.

Context `{Host} (W : Web3Service).

(** X13.  The emergency stop for one wallet answers 200 and leaves the
    wallet unwatched, without a lock, and with its configuration, if it
    has one, inactive.  From then on every sweep of that wallet returns
    [null] and submits nothing, by hand or automatic, until the
    configuration is made active again. *)
Theorem routeEmergencyStop_wallet (w0 : string) (s : State) :
  w0 <> "" ->
  let r := routeEmergencyStop (Some w0) s in
  fst r = Return (Json 200 "Emergency stop executed" None)
  /\ (JS.toLowerCase w0 ∉ monitoringWallets (snd r))
  /\ fst (getActiveSweepCount (Some w0) (snd r)) = Return 0
  /\ walletConfigs (storage (snd r)) !! w0
     = merge_config deactivate <$> (walletConfigs (storage s) !! w0)
  /\ (forall t sym nm bal urg,
        fst (sweepToken W w0 t sym nm bal urg (snd r)) = Return None
        /\ events is_transfer (snd (sweepToken W w0 t sym nm bal urg (snd r)))
           = events is_transfer (snd r)).
Proof.
  intros Hw r. subst r.
  assert (E : exists s',
             routeEmergencyStop (Some w0) s
             = (Return (Json 200 "Emergency stop executed" None), s')
             /\ monitoringWallets s' = monitoringWallets s ∖ {[JS.toLowerCase w0]}
             /\ activeSweeps s'
                = filter (fun kv : string * bool => JS.startsWith (fst kv) w0 = false)
                    (activeSweeps s)
             /\ walletConfigs (storage s') !! w0
                = merge_config deactivate <$> (walletConfigs (storage s) !! w0)).
  { destruct w0 as [|c w]; [contradiction|].
    unfold routeEmergencyStop, try_catch, bind, stopMonitoring, emergencyStop,
      updateWalletConfig, getWalletConfig, bind, gets, modify, emit, ret.
    cbn [storage with_activeSweeps with_detector fst snd].
    destruct (walletConfigs (storage s) !! String c w) as [cfg|] eqn:Hc; eexists;
      (split; [reflexivity|]); cbn; rewrite ?lookup_insert_eq, ?Hc; auto. }
  destruct E as (s' & -> & Hm & Hl & Hc). cbn [fst snd].
  split; [reflexivity|]. split.
  { rewrite Hm, elem_of_difference, elem_of_singleton. tauto. }
  split.
  { cbn. rewrite Hl. f_equal. apply map_size_empty_iff, map_empty_filter.
    intros key v Hkv Hs. apply map_lookup_filter_Some in Hkv as [_ Hf]. cbn in Hf, Hs.
    congruence. }
  split; [exact Hc|].
  intros t sym nm bal urg.
  destruct (sweepToken_aborts W w0 t sym nm bal urg s') as (Hr & He & _); [|auto].
  intros cfg'. rewrite Hc. destruct (walletConfigs (storage s) !! w0); [|discriminate].
  cbn. intros [= <-]. discriminate.
Qed.

(** X14.  The emergency stop for all wallets answers 200 and clears
    every lock.  It takes out of the watched set the lowercased form of
    every watched string and nothing else, so that the set is empty
    afterwards when the watched strings are lowercased, as
    [startMonitoring] stores them.  It deactivates a configuration only when the key under which
    it is stored is one of the watched strings: with lowercased watched
    strings, a wallet that was configured under an address with capital
    letters keeps its configuration as it was, and so can still be
    swept.  The wallets can be stopped in any order with the same
    result. *)
Theorem routeEmergencyStop_all (s : State) :
  let r := routeEmergencyStop None s in
  fst r = Return (Json 200 "Emergency stop executed" None)
  /\ activeSweeps (snd r) = ∅
  /\ (forall x, x ∈ monitoringWallets (snd r)
                <-> x ∈ monitoringWallets s
                    /\ forall y, y ∈ monitoringWallets s -> JS.toLowerCase y <> x)
  /\ (forall w, walletConfigs (storage (snd r)) !! w
                = ((fun cfg => if bool_decide (w ∈ monitoringWallets s)
                               then merge_config deactivate cfg else cfg)
                     <$> (walletConfigs (storage s) !! w)))
  /\ ((forall x, x ∈ monitoringWallets s -> JS.toLowerCase x = x) ->
      monitoringWallets (snd r) = ∅
      /\ forall w, JS.toLowerCase w <> w ->
           walletConfigs (storage (snd r)) !! w = walletConfigs (storage s) !! w)
  /\ (forall order,
        (forall x, x ∈ order <-> x ∈ monitoringWallets s) ->
        stopWallets order s = stopWallets (elements (monitoringWallets s)) s).
Proof.
  cbv zeta.
  assert (Hspec : forall order, (forall x, x ∈ order <-> x ∈ monitoringWallets s) ->
            exists watched configs,
              stopWallets order s
              = (Return tt,
                 with_storage (set_walletConfigs configs (storage s))
                   (with_detector watched (knownTokens s) (specificTokensToMonitor s) s))
              /\ (forall x, x ∈ watched
                            <-> x ∈ monitoringWallets s
                                /\ forall y, y ∈ monitoringWallets s -> JS.toLowerCase y <> x)
              /\ (forall w, configs !! w
                            = (fun cfg => if bool_decide (w ∈ monitoringWallets s)
                                          then merge_config deactivate cfg else cfg)
                                <$> (walletConfigs (storage s) !! w))).
  { intros order Ho. destruct (stopWallets_state order s) as (watched & configs & E & Hw & Hc).
    exists watched, configs. split; [exact E|]. split.
    - intros x. rewrite Hw, list_elem_of_fmap. split.
      + intros [Hx Hn]. split; [exact Hx|]. intros y Hy Hxy. apply Hn. exists y.
        split; [congruence|]. apply Ho, Hy.
      + intros [Hx Hn]. split; [exact Hx|]. intros (y & -> & Hy). apply (Hn y); [|reflexivity].
        apply Ho, Hy.
    - intros w. rewrite Hc. destruct (walletConfigs (storage s) !! w); [|reflexivity]. cbn.
      rewrite (bool_decide_ext _ _ (Ho w)). reflexivity. }
  assert (He : forall x, x ∈ elements (monitoringWallets s) <-> x ∈ monitoringWallets s)
    by (intros x; apply elem_of_elements).
  destruct (Hspec _ He) as (watched & configs & E & Hw & Hc).
  assert (Er : exists s',
             routeEmergencyStop None s
             = (Return (Json 200 "Emergency stop executed" None), s')
             /\ activeSweeps s' = ∅ /\ monitoringWallets s' = watched
             /\ walletConfigs (storage s') = configs).
  { unfold routeEmergencyStop, try_catch, getMonitoredWallets, bind, gets. rewrite E.
    eexists. split; [reflexivity|]. cbn. auto. }
  destruct Er as (s' & -> & Hl & Hm & Hs). cbn [fst snd]. rewrite Hl, Hm, Hs.
  split; [reflexivity|]. split; [reflexivity|]. split; [exact Hw|]. split; [exact Hc|]. split.
  - intros Hlow. split.
    + apply set_eq. intros x. rewrite Hw, elem_of_empty. split; [|tauto].
      intros [Hx Hn]. apply (Hn x Hx), Hlow, Hx.
    + intros w Hne. rewrite Hc. destruct (walletConfigs (storage s) !! w); [|reflexivity].
      cbn. rewrite bool_decide_eq_false_2; [reflexivity|]. intros Hin. apply Hne, Hlow, Hin.
  - intros order Ho. destruct (Hspec _ Ho) as (watched' & configs' & E' & Hw' & Hc').
    rewrite E, E'. f_equal. f_equal; [f_equal|f_equal].
    + apply map_eq. intros w. rewrite Hc, Hc'. reflexivity.
    + apply set_eq. intros x. rewrite Hw, Hw'. reflexivity.
Qed.

End EmergencyRoute.

(** ** The histories *)

Section HistoryFacts.

Context {A : Type} (time : A -> Z).

Lemma insert_newest_perm x l : insert_newest time x l ≡ₚ x :: l.
Proof.
  induction l as [|y l IH]; cbn; [reflexivity|].
  destruct (time x <? time y)%Z; [|reflexivity].
  rewrite IH. apply Permutation_swap.
Qed.

Lemma sort_newest_perm l : sort_newest time l ≡ₚ l.
Proof.
  induction l as [|x l IH]; cbn; [reflexivity|].
  rewrite insert_newest_perm. constructor. exact IH.
Qed.

(** Descending: every element is at most the one before it. *)
Lemma insert_newest_sorted x l :
  Sorted (fun a b => (time b <= time a)%Z) l ->
  Sorted (fun a b => (time b <= time a)%Z) (insert_newest time x l).
Proof.
  induction l as [|y l IH]; intros Hs; cbn; [repeat constructor|].
  destruct (Z.ltb_spec (time x) (time y)) as [Hlt|Hge].
  - apply Sorted_inv in Hs as [Hs Hhd]. constructor; [apply IH, Hs|].
    destruct l as [|z l]; cbn; [constructor; lia|].
    destruct (Z.ltb_spec (time x) (time z)); constructor; [|lia].
    apply HdRel_inv in Hhd. exact Hhd.
  - constructor; [exact Hs|]. constructor. exact Hge.
Qed.

Lemma sort_newest_sorted l : Sorted (fun a b => (time b <= time a)%Z) (sort_newest time l).
Proof.
  induction l as [|x l IH]; cbn; [constructor|]. apply insert_newest_sorted, IH.
Qed.

Lemma sorted_newest_first l :
  Sorted (fun a b => (time b <= time a)%Z) l -> newest_first time l.
Proof.
  intros Hs. apply Sorted_StronglySorted in Hs; [|intros a b c; lia].
  induction Hs as [|x l Hs IH Hall]; intros i j a b Hi Hj Hle; [discriminate|].
  destruct i as [|i], j as [|j]; cbn in Hi, Hj.
  - injection Hi as <-. injection Hj as <-. lia.
  - injection Hi as <-. apply list_elem_of_lookup_2, list_elem_of_In in Hj.
    rewrite List.Forall_forall in Hall. apply Hall, Hj.
  - lia.
  - apply (IH i j); [assumption..|lia].
Qed.

Lemma slice_to_split limit (l : list A) :
  exists rest, l = slice_to limit l ++ rest
               /\ length (slice_to limit l)
                  = Z.to_nat (Z.min (Z.of_nat (length l))
                                (if (limit <? 0)%Z then Z.of_nat (length l) + limit
                                 else limit)).
Proof.
  unfold slice_to. destruct (limit <? 0)%Z.
  - eexists. split; [symmetry; apply firstn_skipn|]. rewrite length_take. lia.
  - eexists. split; [symmetry; apply firstn_skipn|]. rewrite length_take. lia.
Qed.

(** What a filtered, sorted and cut history is. *)
Lemma history_spec (keep : A -> bool) (limit : Z) (l : list A) :
  let shown := slice_to limit (sort_newest time (List.filter keep l)) in
  exists rest,
    shown ++ rest ≡ₚ List.filter keep l
    /\ newest_first time (shown ++ rest)
    /\ length shown
       = Z.to_nat (Z.min (Z.of_nat (length (List.filter keep l)))
                     (if (limit <? 0)%Z then Z.of_nat (length (List.filter keep l)) + limit
                      else limit)).
Proof.
  intros shown. subst shown.
  destruct (slice_to_split limit (sort_newest time (List.filter keep l))) as (rest & E & Hlen).
  exists rest. rewrite <- E. split; [apply sort_newest_perm|].
  split; [apply sorted_newest_first, sort_newest_sorted|].
  rewrite Hlen. rewrite (Permutation_length (sort_newest_perm (List.filter keep l))).
  reflexivity.
Qed.

End HistoryFacts.

(** X15.  The transaction history of a wallet, as the route serves it,
    is the newest records of that wallet, newest first: the records
    shown followed by the records left out are the wallet's records in
    the store, each once, in descending order of creation.  A limit of
    [n] shows [n] records, or all when there are fewer; without a limit,
    or with a limit of zero or one that is not a number, 50 are shown;
    a negative limit leaves out that many of the oldest.  The activity
    feed is cut in the same way, with 20 in place of 50. *)
Theorem routeTransactions_newest (address : string) (limit : option Z) (s : State) :
  (exists shown rest,
      routeTransactions address limit s = (Return shown, s)
      /\ shown ++ rest
         ≡ₚ List.filter (fun tx => String.eqb (tx_walletAddress tx) address)
              (transactions (storage s))
      /\ newest_first tx_createdAt (shown ++ rest)
      /\ length shown
         = Z.to_nat (Z.min (Z.of_nat (length shown + length rest))
                       (let n := limit_or 50 limit in
                        if (n <? 0)%Z then Z.of_nat (length shown + length rest) + n else n)))
  /\ (exists shown rest,
        routeActivities address limit s = (Return shown, s)
        /\ shown ++ rest
           ≡ₚ List.filter (fun a => String.eqb (act_walletAddress a) address)
                (activities (storage s))
        /\ newest_first act_createdAt (shown ++ rest)
        /\ length shown
           = Z.to_nat (Z.min (Z.of_nat (length shown + length rest))
                         (let n := limit_or 20 limit in
                          if (n <? 0)%Z then Z.of_nat (length shown + length rest) + n else n)))
  /\ limit_or 50 None = 50%Z /\ limit_or 50 (Some 0%Z) = 50%Z
  /\ (forall n, n <> 0%Z -> limit_or 50 (Some n) = n).
Proof.
  split; [|split].
  - destruct (history_spec tx_createdAt
                (fun tx => String.eqb (tx_walletAddress tx) address) (limit_or 50 limit)
                (transactions (storage s))) as (rest & Hp & Hs & Hl).
    cbv zeta in Hp, Hs, Hl. eexists _, rest. split; [reflexivity|]. cbn [default from_option id]. split; [exact Hp|]. split; [exact Hs|].
    cbv zeta. rewrite <- length_app, (Permutation_length Hp). exact Hl.
  - destruct (history_spec act_createdAt
                (fun a => String.eqb (act_walletAddress a) address) (limit_or 20 limit)
                (activities (storage s))) as (rest & Hp & Hs & Hl).
    cbv zeta in Hp, Hs, Hl. eexists _, rest. split; [reflexivity|]. cbn [default from_option id]. split; [exact Hp|]. split; [exact Hs|].
    cbv zeta. rewrite <- length_app, (Permutation_length Hp). exact Hl.
  - split; [reflexivity|]. split; [reflexivity|].
    intros n Hn. unfold limit_or. destruct (Z.eqb_spec n 0); [contradiction|reflexivity].
Qed.

(** ** Is trading enabled? *)

Section TradingFacts.

Import Web3.

Context (chain : Chain).

Lemma checkPools_true tokenAddress fees :
  checkPools chain tokenAddress fees = Return true
  <-> exists before fee after,
        fees = before ++ fee :: after
        /\ Forall (tier_closed chain tokenAddress) before
        /\ tier_open chain tokenAddress fee.
Proof.
  induction fees as [|fee fees IH]; cbn [checkPools].
  - split; [discriminate|]. intros (before & f & after & E & _). destruct before; discriminate.
  - unfold cbind.
    destruct (ch_getPool chain tokenAddress WETH_ADDRESS fee) as [pool|e] eqn:Ep.
    2:{ split; [discriminate|]. intros (before & f & after & E & Hb & Ho).
        destruct before as [|b before]; cbn in E; injection E as <- _.
        - destruct Ho as (p & l & Hp & _). congruence.
        - apply Forall_cons in Hb as [(p & Hp & _) _]. congruence. }
    destruct (String.eqb_spec pool zeroAddress) as [Hz|Hz]; cbn [negb].
    + rewrite IH. split.
      * intros (before & f & after & -> & Hb & Ho). exists (fee :: before), f, after.
        split; [reflexivity|]. split; [|exact Ho]. constructor; [|exact Hb].
        exists pool. auto.
      * intros (before & f & after & E & Hb & Ho).
        destruct before as [|b before]; cbn in E; injection E as <- E.
        -- destruct Ho as (p & l & Hp & Hnz & _). congruence.
        -- apply Forall_cons in Hb as [_ Hb]. eauto 6.
    + destruct (ch_liquidity chain pool) as [l|e] eqn:El.
      2:{ split; [discriminate|]. intros (before & f & after & E & Hb & Ho).
          destruct before as [|b before]; cbn in E; injection E as <- _.
          - destruct Ho as (p & l & Hp & _ & Hl & _). congruence.
          - apply Forall_cons in Hb as [(p & Hp & [Hp0|Hl]) _]; congruence. }
      destruct (N.ltb_spec 0 l) as [Hl|Hl].
      * split; [intros _|reflexivity]. exists [], fee, fees.
        split; [reflexivity|]. split; [constructor|]. exists pool, l. auto.
      * rewrite IH. split.
        -- intros (before & f & after & -> & Hb & Ho). exists (fee :: before), f, after.
           split; [reflexivity|]. split; [|exact Ho]. constructor; [|exact Hb].
           exists pool. split; [exact Ep|]. right. rewrite El. f_equal. lia.
        -- intros (before & f & after & E & Hb & Ho).
           destruct before as [|b before]; cbn in E; injection E as <- E.
           ++ destruct Ho as (p & l' & Hp & _ & Hl' & Hpos).
              assert (p = pool) by congruence. subst p. rewrite El in Hl'.
              injection Hl' as <-. lia.
           ++ apply Forall_cons in Hb as [_ Hb]. eauto 6.
Qed.

(** X16.  [isContractTradingEnabled] answers true exactly when one of its
    four checks finds trading: a Uniswap V2 pair with WETH that exists
    and has both reserves; a Uniswap V3 pool with WETH that has
    liquidity, at the first of the fee tiers 500, 3000, 10000 for which
    all earlier tiers were answered and showed none; one of the three
    flags of the contract read as true; or more than five transfer logs
    since a hundred blocks ago.  A call that fails within one check
    makes that check answer false and does not hide what another check
    finds; a node that answers nothing gives false. *)
Theorem isContractTradingEnabled_checks (tokenAddress : string) :
  (isContractTradingEnabled chain tokenAddress = true
   <-> (exists pairAddress reserve0 reserve1,
          ch_getPair chain tokenAddress WETH_ADDRESS = Return pairAddress
          /\ pairAddress <> zeroAddress
          /\ ch_getReserves chain pairAddress = Return (reserve0, reserve1)
          /\ (0 < reserve0)%N /\ (0 < reserve1)%N)
       \/ (exists before fee after,
             [500; 3000; 10000]%Z = before ++ fee :: after
             /\ Forall (tier_closed chain tokenAddress) before
             /\ tier_open chain tokenAddress fee)
       \/ (ch_tradingEnabled chain tokenAddress = Return true
           \/ ch_tradingActive chain tokenAddress = Return true
           \/ ch_launched chain tokenAddress = Return true)
       \/ (exists currentBlock logs,
             ch_getBlockNumber chain = Return currentBlock
             /\ ch_getPastLogs chain (currentBlock - 100) tokenAddress = Return logs
             /\ 5 < logs))
  /\ isContractTradingEnabled unreachable tokenAddress = false.
Proof.
  split; [|reflexivity].
  unfold isContractTradingEnabled. cbn [existsb fulfilled_true].
  assert (Ht : forall b : bool, match b with true => true | false => false end = b)
    by (intros []; reflexivity).
  rewrite !Ht, Bool.orb_false_r, !Bool.orb_true_iff.
  assert (H2 : checkUniswapV2Trading chain tokenAddress = true
               <-> exists pairAddress reserve0 reserve1,
                     ch_getPair chain tokenAddress WETH_ADDRESS = Return pairAddress
                     /\ pairAddress <> zeroAddress
                     /\ ch_getReserves chain pairAddress = Return (reserve0, reserve1)
                     /\ (0 < reserve0)%N /\ (0 < reserve1)%N).
  { unfold checkUniswapV2Trading, or_false, cbind.
    destruct (ch_getPair chain tokenAddress WETH_ADDRESS) as [pair|e].
    2:{ split; [discriminate|]. intros (p & r0 & r1 & Hp & _). discriminate. }
    destruct (String.eqb_spec pair zeroAddress) as [Hz|Hz].
    { split; [discriminate|]. intros (p & r0 & r1 & [= <-] & Hnz & _). contradiction. }
    destruct (ch_getReserves chain pair) as [[r0 r1]|e] eqn:Er.
    2:{ split; [discriminate|]. intros (p & r0 & r1 & [= <-] & _ & Hr & _). congruence. }
    cbn [fst snd]. rewrite Bool.andb_true_iff, !N.ltb_lt. split.
    - intros [H0 H1]. exists pair, r0, r1. auto.
    - intros (p & r0' & r1' & [= <-] & _ & Hr & H0 & H1). rewrite Er in Hr.
      injection Hr as <- <-. auto. }
  assert (H3 : checkUniswapV3Trading chain tokenAddress = true
               <-> exists before fee after,
                     [500; 3000; 10000]%Z = before ++ fee :: after
                     /\ Forall (tier_closed chain tokenAddress) before
                     /\ tier_open chain tokenAddress fee).
  { rewrite <- checkPools_true. unfold checkUniswapV3Trading, or_false.
    destruct (checkPools chain tokenAddress [500; 3000; 10000]%Z) as [[]|e];
      split; congruence. }
  assert (Hf : checkContractTradingFlag chain tokenAddress = true
               <-> ch_tradingEnabled chain tokenAddress = Return true
                   \/ ch_tradingActive chain tokenAddress = Return true
                   \/ ch_launched chain tokenAddress = Return true).
  { unfold checkContractTradingFlag. cbn [existsb]. rewrite Bool.orb_false_r,
      !Bool.orb_true_iff. unfold fulfilled_true.
    destruct (ch_tradingEnabled chain tokenAddress) as [[]|],
             (ch_tradingActive chain tokenAddress) as [[]|],
             (ch_launched chain tokenAddress) as [[]|]; intuition congruence. }
  assert (Hr : checkRecentTransactions chain tokenAddress = true
               <-> exists currentBlock logs,
                     ch_getBlockNumber chain = Return currentBlock
                     /\ ch_getPastLogs chain (currentBlock - 100) tokenAddress = Return logs
                     /\ 5 < logs).
  { unfold checkRecentTransactions, or_false, cbind.
    destruct (ch_getBlockNumber chain) as [b|e].
    2:{ split; [discriminate|]. intros (b & n & Hb & _). discriminate. }
    cbv zeta. destruct (ch_getPastLogs chain (b - 100) tokenAddress) as [n|e] eqn:El.
    2:{ split; [discriminate|]. intros (b' & n & [= <-] & Hl & _). congruence. }
    rewrite Nat.ltb_lt. split.
    - intros Hn. exists b, n. auto.
    - intros (b' & n' & [= <-] & Hl & Hn). rewrite El in Hl. injection Hl as <-. exact Hn. }
  rewrite H2, H3, Hf, Hr. tauto.
Qed.

End TradingFacts.

(** ** One record for each token of a wallet *)

Lemma updateTokenDetection_keyed id u : preserves (unchanged keyed) (updateTokenDetection id u).
Proof.
  intros s. unfold updateTokenDetection, bind, gets, unchanged, keyed.
  destruct (List.find _ _); [|reflexivity]. cbn. f_equal. f_equal.
  unfold asset_keys, detections. cbn. rewrite List.map_map. apply List.map_ext.
  intros d. destruct (_ =? _)%nat; reflexivity.
Qed.

Lemma keyed_inv s1 (a : list (string * string)) (b : list (string * TokenInfo))
    (c : gmap string (list string)) :
  keyed s1 = (a, b, c) ->
  asset_keys s1 = a /\ knownTokens s1 = b /\ specificTokensToMonitor s1 = c.
Proof. unfold keyed. intros E. repeat split; congruence. Qed.

Lemma well_keyed_of_keyed s s1 : keyed s1 = keyed s -> well_keyed s -> well_keyed s1.
Proof.
  intros E. apply keyed_inv in E as (Ea & Eb & Ec). unfold well_keyed.
  rewrite Ea, Eb, Ec. auto.
Qed.

Ltac keyed_leaf :=
  first
    [ apply updateTokenDetection_keyed
    | frame_leaf ].

Ltac keyed := repeat first [preserves_step | keyed_leaf].

Lemma known_set_keys key v kt :
  map fst (known_set key v kt)
  = if known_has kt key then map fst kt else map fst kt ++ [key].
Proof.
  unfold known_set. destruct (known_has kt key) eqn:E.
  - rewrite List.map_map. apply List.map_ext_in. intros [k x] _. cbn.
    destruct (String.eqb_spec k key); [symmetry; assumption|reflexivity].
  - rewrite List.map_app. reflexivity.
Qed.

Lemma known_has_In kt key : known_has kt key = true <-> In key (map fst kt).
Proof.
  unfold known_has. rewrite existsb_exists, List.in_map_iff. split.
  - intros (kv & Hin & E). apply String.eqb_eq in E. eauto.
  - intros (kv & E & Hin). exists kv. split; [exact Hin|]. apply String.eqb_eq, E.
Qed.

Lemma known_set_well key v kt :
  lowercase key ->
  List.NoDup (map fst kt) -> List.Forall (fun kv => lowercase (fst kv)) kt ->
  List.NoDup (map fst (known_set key v kt))
  /\ List.Forall (fun kv => lowercase (fst kv)) (known_set key v kt).
Proof.
  intros Hk Hn Hl. split.
  - rewrite known_set_keys. destruct (known_has kt key) eqn:E; [exact Hn|].
    apply List.NoDup_app; [exact Hn|apply List.NoDup_cons; [intros []|apply List.NoDup_nil]|].
    intros x Hx [<-|[]]. apply known_has_In in Hx. congruence.
  - unfold known_set. destruct (known_has kt key).
    + rewrite List.Forall_forall in Hl |- *. intros kv Hin.
      apply List.in_map_iff in Hin as ([k x] & <- & Hin). cbn.
      destruct (String.eqb k key); [exact Hk|apply (Hl _ Hin)].
    + apply List.Forall_app. split; [exact Hl|]. constructor; [exact Hk|constructor].
Qed.

Section KeyFacts.

Context `{Host} (W : Web3Service).

Lemma sweepToken_keyed w t sym nm bal urg :
  preserves (unchanged keyed) (sweepToken W w t sym nm bal urg).
Proof.
  unfold sweepToken, sweepAcquire, sweepAttempt, sweepBody, sweepFailed,
    getOptimalGasPrice, monitorTransactionReceipt, broadcastSweeper.
  keyed.
Qed.

Lemma checkTradingStatus_keyed w t sym :
  preserves (unchanged keyed) (checkTradingStatus W w t sym).
Proof.
  unfold checkTradingStatus, isContractTradingEnabled, getTokenBalance, invokeSweepToken.
  keyed. apply sweepToken_keyed.
Qed.

(** A new record: its key goes to the end of the keys. *)
Lemma handleNewTokenDetection_keyed w t nm sym bal s :
  keyed (snd (handleNewTokenDetection w t nm sym bal s))
  = (asset_keys s ++ [(w, JS.toLowerCase t)], knownTokens s, specificTokensToMonitor s).
Proof.
  unfold keyed, asset_keys, detections. cbn. rewrite List.map_app. reflexivity.
Qed.

Lemma wp_keyed {A} (m : M A) s (Q : Completion A -> State -> Prop) :
  preserves (unchanged keyed) m ->
  (forall r s1, keyed s1 = keyed s -> Q r s1) ->
  wp m s Q.
Proof. intros Hm HQ. apply HQ, Hm. Qed.

Lemma insert_newest_first_perm d l : insert_newest_first d l ≡ₚ d :: l.
Proof.
  induction l as [|y l IH]; cbn; [reflexivity|].
  destruct (_ <? _)%Z; [|reflexivity]. rewrite IH. apply Permutation_swap.
Qed.

Lemma sort_newest_first_perm l : sort_newest_first l ≡ₚ l.
Proof.
  induction l as [|x l IH]; cbn; [reflexivity|].
  rewrite insert_newest_first_perm. constructor. exact IH.
Qed.

(** The records that a scan reads for a wallet hold every key of the
    wallet. *)
Lemma read_detections_keys w k s :
  In (w, k) (asset_keys s) ->
  exists d,
    In d (sort_newest_first
            (List.filter (fun d => String.eqb (td_walletAddress d) w)
                         (tokenDetections (storage s))))
    /\ JS.toLowerCase (td_tokenAddress d) = k.
Proof.
  unfold asset_keys, detections. intros Hin.
  apply List.in_map_iff in Hin as (d & E & Hin). injection E as Hw Hk.
  exists d. split; [|exact Hk].
  apply list_elem_of_In. rewrite sort_newest_first_perm. apply list_elem_of_In.
  apply List.filter_In. split; [exact Hin|]. apply String.eqb_eq, Hw.
Qed.

Lemma includes_none_new w k s :
  includes (map (fun d => JS.toLowerCase (td_tokenAddress d))
              (sort_newest_first
                 (List.filter (fun d => String.eqb (td_walletAddress d) w)
                              (tokenDetections (storage s))))) k = false ->
  ~ In (w, k) (asset_keys s).
Proof.
  intros Hi Hin. destruct (read_detections_keys w k s Hin) as (d & Hd & Hk).
  apply Bool.not_true_iff_false in Hi. apply Hi, includes_In, List.in_map_iff. eauto.
Qed.

Lemma find_none_new w k s :
  List.find (detection_for k)
    (sort_newest_first
       (List.filter (fun d => String.eqb (td_walletAddress d) w)
                    (tokenDetections (storage s)))) = None ->
  ~ In (w, k) (asset_keys s).
Proof.
  intros Hf Hin. destruct (read_detections_keys w k s Hin) as (d & Hd & Hk).
  pose proof (List.find_none _ _ Hf d Hd) as Hn. unfold detection_for in Hn.
  rewrite Hk, String.eqb_refl in Hn. discriminate.
Qed.

(** One known token of a scan: the keys stay, or the key of the token
    is added, and then the wallet had no record of it when the scan
    began. *)
Lemma scanKnownToken_keyed w existing entry s :
  let s' := snd (scanKnownToken W w existing entry s) in
  keyed s' = keyed s
  \/ (includes (map (fun d => JS.toLowerCase (td_tokenAddress d)) existing) (fst entry) = false
      /\ keyed s' = (asset_keys s ++ [(w, JS.toLowerCase (fst entry))],
                     knownTokens s, specificTokensToMonitor s)).
Proof.
  destruct entry as [k info]. cbv zeta. cbn [fst].
  match goal with
  | |- context [snd (?m s)] =>
      change (wp m s (fun _ s' =>
                keyed s' = keyed s
                \/ (includes (map (fun d => JS.toLowerCase (td_tokenAddress d)) existing) k
                    = false
                    /\ keyed s' = (asset_keys s ++ [(w, JS.toLowerCase k)],
                                   knownTokens s, specificTokensToMonitor s))))
  end.
  unfold scanKnownToken. apply wp_try_catch.
  apply (wp_conseq _ _ (fun _ s' =>
           keyed s' = keyed s
           \/ (includes (map (fun d => JS.toLowerCase (td_tokenAddress d)) existing) k = false
               /\ keyed s' = (asset_keys s ++ [(w, JS.toLowerCase k)],
                              knownTokens s, specificTokensToMonitor s))));
    [|intros [a|e] s' Hq; exact Hq].
  apply wp_bind, wp_keyed; [unfold getTokenBalance; keyed|].
  intros r s1 H1. destruct r as [bal|e]; [|left; exact H1].
  cbv zeta. destruct (0 <? parseFloat bal)%float; [|left; exact H1].
  apply wp_bind.
  destruct (includes (map (fun d => JS.toLowerCase (td_tokenAddress d)) existing) k) eqn:Hi;
    cbn [negb].
  - apply wp_keyed; [keyed|]. intros r s2 H2. rewrite H1 in H2.
    destruct r as [[]|e]; [|left; exact H2].
    apply wp_keyed; [apply checkTradingStatus_keyed|].
    intros r s3 H3. left. rewrite H3. exact H2.
  - unfold wp at 1.
    pose proof (handleNewTokenDetection_keyed w k (name info) (symbol info) bal s1) as H2.
    destruct (handleNewTokenDetection w k (name info) (symbol info) bal s1) as [r s2].
    cbn [fst snd] in H2 |- *.
    assert (H2' : keyed s2 = (asset_keys s ++ [(w, JS.toLowerCase k)],
                              knownTokens s, specificTokensToMonitor s)).
    { rewrite H2. apply keyed_inv in H1 as (-> & -> & ->). reflexivity. }
    destruct r as [[]|e]; [|right; auto].
    apply wp_keyed; [apply checkTradingStatus_keyed|].
    intros r s3 H3. right. rewrite H3. auto.
Qed.


Lemma wp_well_keyed {A} (m : M A) s (Q : Completion A -> State -> Prop) :
  preserves (unchanged keyed) m ->
  well_keyed s ->
  (forall r s1, keyed s1 = keyed s -> well_keyed s1 -> Q r s1) ->
  wp m s Q.
Proof.
  intros Hm Hs HQ. apply HQ; [apply Hm|]. apply (well_keyed_of_keyed s); [apply Hm|exact Hs].
Qed.

(** A record of a token of which the wallet has none keeps the tables
    well keyed. *)
Lemma handleNewTokenDetection_well w t nm sym bal s :
  ~ In (w, JS.toLowerCase t) (asset_keys s) ->
  well_keyed s ->
  well_keyed (snd (handleNewTokenDetection w t nm sym bal s)).
Proof.
  intros Hnew (Hn & Hk & Hl & Hs).
  pose proof (handleNewTokenDetection_keyed w t nm sym bal s) as E.
  apply keyed_inv in E as (Ea & Eb & Ec). unfold well_keyed. rewrite Ea, Eb, Ec.
  split; [|auto].
  apply List.NoDup_app; [exact Hn|apply List.NoDup_cons; [intros []|apply List.NoDup_nil]|].
  intros x Hx [<-|[]]. contradiction.
Qed.

Lemma scanKnownTokens_keys w existing known s :
  (forall k, In k (map fst known) ->
     includes (map (fun d => JS.toLowerCase (td_tokenAddress d)) existing) k = false ->
     ~ In (w, k) (asset_keys s)) ->
  List.NoDup (map fst known) ->
  List.Forall (fun kv => lowercase (fst kv)) known ->
  List.NoDup (asset_keys s) ->
  let s' := snd (for_each known (scanKnownToken W w existing) s) in
  List.NoDup (asset_keys s')
  /\ knownTokens s' = knownTokens s
  /\ specificTokensToMonitor s' = specificTokensToMonitor s.
Proof.
  revert s. induction known as [|entry known IH]; intros s Hnew Hnd Hlow Hkeys; [cbn; auto|].
  cbv zeta. cbn [for_each]. unfold bind.
  pose proof (scanKnownToken_keyed w existing entry s) as Hstep. cbv zeta in Hstep.
  destruct (scanKnownToken W w existing entry s) as [r s1]. cbn [fst snd] in Hstep |- *.
  cbn [map] in Hnd. apply List.NoDup_cons_iff in Hnd as [Hfresh Hnd].
  apply List.Forall_cons_iff in Hlow as [Hlk Hlow].
  assert (Hs1 : List.NoDup (asset_keys s1)
                /\ knownTokens s1 = knownTokens s
                /\ specificTokensToMonitor s1 = specificTokensToMonitor s
                /\ (forall k, In k (map fst known) ->
                      includes (map (fun d => JS.toLowerCase (td_tokenAddress d)) existing) k
                      = false ->
                      ~ In (w, k) (asset_keys s1))).
  { destruct Hstep as [E|[Hi E]]; apply keyed_inv in E as (Ea & Eb & Ec);
      rewrite Ea, Eb, Ec.
    - split; [exact Hkeys|]. split; [reflexivity|]. split; [reflexivity|].
      intros k Hk. apply Hnew. right. exact Hk.
    - cbv beta in Hlk. unfold lowercase in Hlk. rewrite Hlk.
      split; [|split; [reflexivity|split; [reflexivity|]]].
      + apply List.NoDup_app;
          [exact Hkeys|apply List.NoDup_cons; [intros []|apply List.NoDup_nil]|].
        intros x Hx [<-|[]]. revert Hx. apply Hnew; [left; reflexivity|exact Hi].
      + intros k Hk Hik Hin. apply List.in_app_or in Hin as [Hin|[E|[]]].
        * revert Hin. apply Hnew; [right; exact Hk|exact Hik].
        * injection E as <-. contradiction. }
  destruct Hs1 as (Hn1 & Hk1 & Hsp1 & Hnew1).
  destruct r as [[]|e]; cbv beta iota; [|cbn; auto].
  destruct (IH s1 Hnew1 Hnd Hlow Hn1) as (I1 & I2 & I3). cbv zeta in I1, I2, I3.
  split; [exact I1|]. split; [rewrite I2; exact Hk1|rewrite I3; exact Hsp1].
Qed.

Lemma scanWalletForTokens_well w s :
  well_keyed s -> well_keyed (snd (scanWalletForTokens W w s)).
Proof.
  intros (Hn & Hk & Hl & Hs).
  assert (E : exists r,
             scanWalletForTokens W w s
             = (r, snd (for_each (knownTokens s)
                          (scanKnownToken W w
                             (sort_newest_first
                                (List.filter (fun d => String.eqb (td_walletAddress d) w)
                                             (tokenDetections (storage s))))) s))).
  { unfold scanWalletForTokens, try_catch, bind, getTokenDetections, gets.
    destruct (for_each _ _ s) as [[[]|e] s1]; eexists; reflexivity. }
  destruct E as [r ->]. cbn [snd].
  destruct (scanKnownTokens_keys w
              (sort_newest_first
                 (List.filter (fun d => String.eqb (td_walletAddress d) w)
                              (tokenDetections (storage s))))
              (knownTokens s) s) as (I1 & I2 & I3);
    [|exact Hk|exact Hl|exact Hn|].
  { intros k _. apply includes_none_new. }
  unfold well_keyed. rewrite I2, I3. auto.
Qed.


Lemma known_set_state_well key v s :
  lowercase key -> well_keyed s ->
  well_keyed (with_detector (monitoringWallets s) (known_set key v (knownTokens s))
                (specificTokensToMonitor s) s).
Proof.
  intros Hkey (Hn & Hk & Hl & Hs).
  destruct (known_set_well key v (knownTokens s) Hkey Hk Hl) as [Hk' Hl'].
  unfold well_keyed. cbn. auto.
Qed.

(** What follows the detection in the scan of a specific token, and in
    [addAndMonitorSpecificToken], writes no record. *)
Lemma invokeSweepToken_keyed w t sym nm bal urg :
  preserves (unchanged keyed) (invokeSweepToken W w t sym nm bal urg).
Proof. unfold invokeSweepToken. keyed. apply sweepToken_keyed. Qed.

Lemma scanSpecificToken_well w tokenAddress s :
  lowercase tokenAddress -> well_keyed s ->
  well_keyed (snd (scanSpecificToken W w tokenAddress s)).
Proof.
  intros Hlow Hs.
  change (wp (scanSpecificToken W w tokenAddress) s (fun _ s' => well_keyed s')).
  unfold scanSpecificToken. apply wp_try_catch.
  apply (wp_conseq _ _ (fun _ s' => well_keyed s')); [|intros [a|e] s' Hq; exact Hq].
  apply wp_bind, wp_gets, wp_bind.
  assert (Hstep : wp (if negb (known_has (knownTokens s) tokenAddress)
                      then tokenInfo <- getTokenInfo W tokenAddress ;;
                           modify (fun s0 =>
                             with_detector (monitoringWallets s0)
                               (known_set tokenAddress
                                  {| name := name tokenInfo; symbol := symbol tokenInfo |}
                                  (knownTokens s0))
                               (specificTokensToMonitor s0) s0)
                      else ret tt) s (fun _ s' => well_keyed s')).
  { destruct (negb _); [|exact Hs].
    apply wp_bind, wp_well_keyed; [unfold getTokenInfo; keyed|exact Hs|].
    intros r s1 _ Hs1. destruct r as [info|e]; [|exact Hs1].
    apply wp_modify, known_set_state_well; assumption. }
  eapply wp_conseq; [exact Hstep|]. clear Hstep.
  intros r s1 Hs1. destruct r as [[]|e]; [|exact Hs1].
  apply wp_bind, wp_gets.
  destruct (known_get (knownTokens s1) tokenAddress) as [info|]; [|exact Hs1].
  apply wp_bind, wp_well_keyed; [unfold getTokenBalance; keyed|exact Hs1|].
  intros r s2 _ Hs2. destruct r as [bal|e]; [|exact Hs2].
  cbv zeta. destruct (0 <? parseFloat bal)%float; [|exact Hs2].
  apply wp_bind. unfold getTokenDetections at 1. apply wp_gets.
  match goal with
  | |- wp (bind _ ?k) _ _ =>
      assert (Htail : forall d1 s3, well_keyed s3 -> wp (k d1) s3 (fun _ s' => well_keyed s'))
  end.
  { intros d1 s3 Hs3. cbv beta.
    apply wp_well_keyed; [|exact Hs3|intros; assumption].
    unfold isContractTradingEnabled, broadcastDetector. keyed.
    apply invokeSweepToken_keyed. }
  apply wp_bind.
  destruct (List.find _ _) as [d|] eqn:Hfind.
  - apply wp_bind, wp_well_keyed; [keyed|exact Hs2|].
    intros r s3 _ Hs3. destruct r as [x|e]; [|exact Hs3].
    apply wp_ret. refine (Htail (Some d) s3 Hs3).
  - apply wp_bind. unfold wp at 1.
    pose proof (handleNewTokenDetection_well w tokenAddress (name info) (symbol info) bal s2)
      as Hnew.
    destruct (handleNewTokenDetection w tokenAddress (name info) (symbol info) bal s2)
      as [r s3].
    cbn [fst snd] in Hnew |- *.
    assert (Hs3 : well_keyed s3).
    { apply Hnew; [|exact Hs2]. unfold lowercase in Hlow. rewrite Hlow.
      apply find_none_new, Hfind. }
    destruct r as [x|e]; [|exact Hs3].
    apply wp_bind. unfold getTokenDetections at 1. apply wp_gets, wp_ret.
    match goal with
    | |- context [List.find ?f ?l] => refine (Htail (List.find f l) s3 Hs3)
    end.
Qed.

Lemma for_each_well {A} (P : A -> Prop) (l : list A) (body : A -> M unit) s :
  List.Forall P l ->
  (forall x s, P x -> well_keyed s -> well_keyed (snd (body x s))) ->
  well_keyed s -> well_keyed (snd (for_each l body s)).
Proof.
  intros Hl Hb. revert s. induction Hl as [|x l Hx Hl IH]; intros s Hs; [exact Hs|].
  cbn [for_each]. unfold bind. pose proof (Hb x s Hx Hs) as H1.
  destruct (body x s) as [[[]|e] s1]; cbn [snd] in H1 |- *; [apply IH, H1|exact H1].
Qed.

Lemma scanSpecificTokens_well w s :
  well_keyed s -> well_keyed (snd (scanSpecificTokens W w s)).
Proof.
  intros Hs. unfold scanSpecificTokens, bind, gets.
  destruct (specificTokensToMonitor s !! w) as [[|t l]|] eqn:E; try exact Hs.
  apply (for_each_well lowercase); [|intros; apply scanSpecificToken_well; assumption|exact Hs].
  destruct Hs as (_ & _ & _ & Hsp). exact (Hsp w _ E).
Qed.

Lemma toLowerCase_lowercase x : lowercase (JS.toLowerCase x).
Proof. apply toLowerCase_idem. Qed.

Lemma addSpecificTokenToMonitor_well w t s :
  well_keyed s -> well_keyed (snd (addSpecificTokenToMonitor w t s)).
Proof.
  intros (Hn & Hk & Hl & Hsp). unfold addSpecificTokenToMonitor, modify. cbn [snd].
  destruct (negb _); [|unfold well_keyed; auto].
  unfold well_keyed. cbn. split; [exact Hn|]. split; [exact Hk|]. split; [exact Hl|].
  intros w' l. destruct (decide (w = w')) as [->|Hne].
  - rewrite lookup_insert_eq. intros [= <-]. apply List.Forall_app. split.
    + destruct (specificTokensToMonitor s !! w') as [l0|] eqn:E; [apply (Hsp w' l0 E)|].
      constructor.
    + constructor; [apply toLowerCase_lowercase|constructor].
  - rewrite lookup_insert_ne by exact Hne. apply Hsp.
Qed.

Lemma remove_first_Forall (P : string -> Prop) x l :
  List.Forall P l -> List.Forall P (remove_first x l).
Proof.
  induction 1 as [|y l Hy Hl IH]; cbn; [constructor|].
  destruct (String.eqb y x); [exact Hl|constructor; assumption].
Qed.

Lemma removeSpecificTokenFromMonitor_well w t s :
  well_keyed s -> well_keyed (snd (removeSpecificTokenFromMonitor w t s)).
Proof.
  intros (Hn & Hk & Hl & Hsp). unfold removeSpecificTokenFromMonitor, modify. cbn [snd].
  destruct (includes _ _); [|unfold well_keyed; auto].
  unfold well_keyed. cbn. split; [exact Hn|]. split; [exact Hk|]. split; [exact Hl|].
  intros w' l. destruct (decide (w = w')) as [->|Hne].
  - rewrite lookup_insert_eq. intros [= <-]. apply remove_first_Forall.
    destruct (specificTokensToMonitor s !! w') as [l0|] eqn:E; [apply (Hsp w' l0 E)|].
    constructor.
  - rewrite lookup_insert_ne by exact Hne. apply Hsp.
Qed.

Lemma addAndMonitorSpecificToken_well w t s :
  well_keyed s -> well_keyed (snd (addAndMonitorSpecificToken W w t s)).
Proof.
  intros Hs.
  change (wp (addAndMonitorSpecificToken W w t) s (fun _ s' => well_keyed s')).
  unfold addAndMonitorSpecificToken. apply wp_try_catch.
  apply (wp_conseq _ _ (fun _ s' => well_keyed s')); [|intros [a|e] s' Hq; exact Hq].
  apply wp_bind. unfold wp at 1.
  pose proof (addSpecificTokenToMonitor_well w t s Hs) as H1.
  destruct (addSpecificTokenToMonitor w t s) as [r s1]. cbn [fst snd] in H1 |- *.
  destruct r as [[]|e]; [|exact H1].
  apply wp_bind, wp_well_keyed; [unfold getTokenInfo; keyed|exact H1|].
  intros r s2 _ H2. destruct r as [info|e]; [|exact H2].
  apply wp_bind, wp_modify.
  pose proof (known_set_state_well (JS.toLowerCase t)
                {| name := name info; symbol := symbol info |} s2
                (toLowerCase_lowercase t) H2) as H3.
  set (s3 := with_detector _ _ _ s2) in *.
  apply wp_bind, wp_well_keyed; [unfold getTokenBalance; keyed|exact H3|].
  intros r s4 _ H4. destruct r as [bal|e]; [|exact H4].
  cbv zeta. destruct (0 <? parseFloat bal)%float; [|exact H4].
  apply wp_bind. unfold getTokenDetections at 1. apply wp_gets.
  match goal with
  | |- wp (bind _ ?k) _ _ =>
      assert (Htail : forall s5, well_keyed s5 -> wp (k tt) s5 (fun _ s' => well_keyed s'))
  end.
  { intros s5 H5. cbv beta.
    apply wp_well_keyed; [|exact H5|intros; assumption].
    unfold isContractTradingEnabled. keyed. apply invokeSweepToken_keyed. }
  apply wp_bind.
  destruct (List.find _ _) as [d|] eqn:Hfind.
  - apply wp_ret, Htail, H4.
  - unfold wp at 1.
    pose proof (handleNewTokenDetection_well w t (name info) (symbol info) bal s4) as Hnew.
    destruct (handleNewTokenDetection w t (name info) (symbol info) bal s4) as [r s5].
    cbn [fst snd] in Hnew |- *.
    assert (H5 : well_keyed s5).
    { apply Hnew; [|exact H4]. apply find_none_new, Hfind. }
    destruct r as [[]|e]; [apply Htail, H5|exact H5].
Qed.


Lemma others_keyed op :
  match op with
  | OpStopMonitoring _ | OpManualSweepToken _ _ | OpRouteManualSweep _ _ _
  | OpFireTimeout _ | OpEmergencyStop _ | OpUpdateNetworkLoad => True
  | _ => False
  end ->
  preserves (unchanged keyed) (exec W op).
Proof.
  destruct op; intros []; cbn [exec].
  - unfold stopMonitoring. keyed.
  - unfold manualSweepToken. keyed.
  - unfold routeManualSweep. keyed. apply invokeSweepToken_keyed.
  - unfold fireTimeout, checkReceipt, broadcastSweeper. keyed.
  - unfold emergencyStop. keyed.
  - unfold updateNetworkLoad. keyed.
Qed.

Lemma startMonitoring_well w s :
  well_keyed s -> well_keyed (snd (startMonitoring W w s)).
Proof.
  intros Hs.
  change (wp (startMonitoring W w) s (fun _ s' => well_keyed s')).
  unfold startMonitoring. apply wp_bind, wp_modify.
  assert (H1 : well_keyed (with_detector (monitoringWallets s ∪ {[JS.toLowerCase w]})
                             (knownTokens s) (specificTokensToMonitor s) s))
    by exact Hs.
  apply wp_bind. unfold wp at 1.
  pose proof (scanWalletForTokens_well w _ H1) as H2.
  destruct (scanWalletForTokens W w _) as [r s2]. cbn [fst snd] in H2 |- *.
  destruct r as [[]|e]; [|exact H2].
  apply wp_well_keyed; [unfold schedulePeriodicScan; keyed|exact H2|intros; assumption].
Qed.

Lemma periodicScan_well iv s :
  well_keyed s -> well_keyed (snd (periodicScan W iv s)).
Proof.
  intros Hs.
  change (wp (periodicScan W iv) s (fun _ s' => well_keyed s')).
  unfold periodicScan. apply wp_bind, wp_well_keyed; [unfold periodicScanHead; keyed|exact Hs|].
  intros r s1 _ H1. destruct r as [[|]|e]; try exact H1.
  unfold periodicScanBody. apply wp_try_catch.
  apply (wp_conseq _ _ (fun _ s' => well_keyed s')); [|intros [a|e] s' Hq; exact Hq].
  apply wp_bind. unfold wp at 1.
  pose proof (scanWalletForTokens_well (iv_walletAddress iv) _ H1) as H2.
  destruct (scanWalletForTokens W (iv_walletAddress iv) s1) as [r s2].
  cbn [fst snd] in H2 |- *.
  destruct r as [[]|e]; [|exact H2].
  apply scanSpecificTokens_well, H2.
Qed.

Lemma exec_well op s : well_keyed s -> well_keyed (snd (exec W op s)).
Proof.
  intros Hs.
  destruct op;
    try (apply (well_keyed_of_keyed s); [apply others_keyed; exact I|exact Hs]);
    cbn [exec].
  - apply startMonitoring_well, Hs.
  - apply periodicScan_well, Hs.
  - apply addSpecificTokenToMonitor_well, Hs.
  - apply removeSpecificTokenFromMonitor_well, Hs.
  - unfold bind.
    pose proof (addAndMonitorSpecificToken_well walletAddress tokenAddress s Hs) as Hx.
    destruct (addAndMonitorSpecificToken W walletAddress tokenAddress s) as [[b|e] s1];
      exact Hx.
Qed.

Lemma execAll_well ops s : well_keyed s -> well_keyed (execAll W ops s).
Proof.
  revert s. induction ops as [|op ops IH]; intros s Hs; [exact Hs|].
  cbn [execAll]. apply IH, exec_well, Hs.
Qed.


Lemma same_asset_key w t d :
  same_asset w t d = true <-> asset_key d = (w, JS.toLowerCase t).
Proof.
  unfold same_asset, asset_key. rewrite andb_true_iff, !String.eqb_eq. split.
  - intros [-> ->]. reflexivity.
  - intros [= -> ->]. split; reflexivity.
Qed.

Lemma enabled_records_unique w t s :
  List.NoDup (asset_keys s) -> enabled_records w t s <= 1.
Proof.
  unfold enabled_records, asset_keys, count. generalize (detections s) as l.
  induction l as [|d l IH]; intros Hn; cbn [map List.filter length] in *; [lia|].
  apply List.NoDup_cons_iff in Hn as [Hd Hn].
  destruct (same_asset w t d && tradingEnabled d) eqn:E; [|apply IH, Hn].
  apply andb_prop in E as [E _]. apply same_asset_key in E.
  destruct (List.filter _ l) as [|d' r] eqn:F; [cbn; lia|]. exfalso. apply Hd.
  assert (Hin : In d' (List.filter (fun d0 => same_asset w t d0 && tradingEnabled d0) l))
    by (rewrite F; left; reflexivity).
  apply List.filter_In in Hin as [Hin E']. apply andb_prop in E' as [E' _].
  apply same_asset_key in E'. rewrite E, <- E'. apply List.in_map, Hin.
Qed.

Lemma enabled_records_present w t s d :
  In d (detections s) -> same_asset w t d = true -> tradingEnabled d = true ->
  1 <= enabled_records w t s.
Proof.
  intros Hin Ha Ht. unfold enabled_records, count.
  assert (Hf : In d (List.filter (fun d0 => same_asset w t d0 && tradingEnabled d0)
                       (detections s)))
    by (apply List.filter_In; split; [exact Hin|rewrite Ha, Ht; reflexivity]).
  destruct (List.filter _ _); [destruct Hf|cbn; lia].
Qed.

(** X17.  When the operations of the engine run one after the other,
    each to its end, the detector's tables stay well keyed: no wallet
    gets two detection records of one token (addresses compared without
    case), [knownTokens] keeps one entry for a lowercased address, and
    the tokens to monitor stay lowercased.  So two records of the store
    that are of the same wallet and token are the same record. *)
Theorem one_record_per_token ops s :
  well_keyed s ->
  well_keyed (execAll W ops s)
  /\ (forall i j d1 d2,
         detections (execAll W ops s) !! i = Some d1 ->
         detections (execAll W ops s) !! j = Some d2 ->
         td_walletAddress d1 = td_walletAddress d2 ->
         JS.toLowerCase (td_tokenAddress d1) = JS.toLowerCase (td_tokenAddress d2) ->
         i = j).
Proof.
  intros Hs. pose proof (execAll_well ops s Hs) as Hw. split; [exact Hw|].
  destruct Hw as (Hn & _). intros i j d1 d2 H1 H2 Ew Et.
  apply (NoDup_lookup (asset_keys (execAll W ops s)) i j (asset_key d1));
    [apply NoDup_ListNoDup, Hn| |].
  - unfold asset_keys. change (map asset_key) with (fmap (M:=list) asset_key).
    rewrite list_lookup_fmap, H1. reflexivity.
  - unfold asset_keys. change (map asset_key) with (fmap (M:=list) asset_key).
    rewrite list_lookup_fmap, H2. unfold asset_key. cbn. rewrite Ew, Et. reflexivity.
Qed.

(** X18.  The scans do not retry a sweep: once the record of a wallet's
    token has its flag true, the first scan of [startMonitoring] and
    the ticks of the interval, in any number and run one after the
    other, invoke [sweepToken] for that token no more. *)
Theorem flagged_token_not_swept_again w t ops s d :
  well_keyed s ->
  In d (detections s) -> same_asset w t d = true -> tradingEnabled d = true ->
  forallb is_scan ops = true ->
  sweeps_of w t (execAll W ops s) <= sweeps_of w t s.
Proof.
  intros Hs Hin Ha Ht Hops.
  pose proof (execAll_paid W w t ops s Hops) as Hp. unfold paid in Hp.
  pose proof (enabled_records_present w t s d Hin Ha Ht) as H1.
  destruct (execAll_well ops s Hs) as (Hn & _).
  pose proof (enabled_records_unique w t _ Hn) as H2. lia.
Qed.

End KeyFacts.

(** ** The route that adds a token to monitor *)

Section MonitorRoute.

Context `{Host} (W : Web3Service).

Lemma sweepToken_specific w t sym nm bal urg :
  preserves (unchanged specificTokensToMonitor) (sweepToken W w t sym nm bal urg).
Proof.
  unfold sweepToken, sweepAcquire, sweepAttempt, sweepBody, sweepFailed,
    getOptimalGasPrice, monitorTransactionReceipt, broadcastSweeper.
  frame.
Qed.

(** [addAndMonitorSpecificToken] never rejects; it answers whether the
    wallet holds the token, and the token is on the wallet's list
    afterwards whatever the answer. *)
Lemma addAndMonitorSpecificToken_listed w t s :
  wp (addAndMonitorSpecificToken W w t) s (fun r s' =>
    r = Return (holds_token W (calls s) w t)
    /\ includes (specificTokens w s') (JS.toLowerCase t) = true).
Proof.
  assert (Hadd : includes (specificTokens w (snd (addSpecificTokenToMonitor w t s)))
                   (JS.toLowerCase t) = true
                 /\ calls (snd (addSpecificTokenToMonitor w t s)) = calls s).
  { unfold addSpecificTokenToMonitor, modify. cbn [snd].
    destruct (includes (default [] (specificTokensToMonitor s !! w)) (JS.toLowerCase t))
      eqn:E; cbn [negb].
    - split; [exact E|reflexivity].
    - split; [|reflexivity]. rewrite specificTokens_set, decide_True by reflexivity.
      rewrite includes_app, String.eqb_refl. apply Bool.orb_true_r. }
  destruct Hadd as [Hin Hc].
  unfold holds_token, addAndMonitorSpecificToken. apply wp_try_catch, wp_bind.
  unfold wp at 1. destruct (addSpecificTokenToMonitor w t s) as [[[]|e] s0] eqn:E0;
    cbn [fst snd] in *; [|discriminate E0].
  clear E0. rewrite <- Hc. clear Hc.
  apply wp_bind. unfold getTokenInfo. apply wp_web3. cbv beta.
  destruct (w3_getTokenInfo W (calls s0) t) as [info|e]; [|apply wp_ret; auto].
  apply wp_bind, wp_modify, wp_bind. unfold getTokenBalance. apply wp_web3. cbv beta.
  cbn [calls with_detector with_calls with_trace].
  destruct (w3_getTokenBalance W (S (calls s0)) w t) as [bal0|e]; [|apply wp_ret; auto].
  destruct (0 <? parseFloat bal0)%float; [|apply wp_ret; auto].
  match goal with |- wp _ ?st _ => set (s2 := st) end.
  assert (H2 : includes (specificTokens w s2) (JS.toLowerCase t) = true) by exact Hin.
  clearbody s2.
  apply wp_bind. unfold getTokenDetections at 1. apply wp_gets.
  apply wp_bind.
  apply (wp_conseq _ _ (fun r s' =>
           r = Return tt /\ includes (specificTokens w s') (JS.toLowerCase t) = true)).
  { destruct (List.find _ _); [apply wp_ret; auto|].
    unfold wp, handleNewTokenDetection. split; [reflexivity|exact H2]. }
  intros r s3 [-> H3].
  apply wp_bind. unfold isContractTradingEnabled. apply wp_web3. cbv beta.
  match goal with |- context [if ?b then _ else _] => destruct b end.
  2:{ apply wp_bind, wp_ret, wp_ret. auto. }
  apply wp_bind, wp_bind. unfold getWalletConfig. apply wp_gets.
  match goal with |- context [if ?b then _ else _] => destruct b end.
  2:{ apply wp_ret, wp_ret. auto. }
  apply wp_bind. unfold wp at 1.
  match goal with |- context [invokeSweepToken W ?a ?b ?c ?d ?e ?f ?st] =>
    pose proof (wp_invokeSweepToken W a b c d e f st) as Hi;
    assert (Hs : specificTokensToMonitor (snd (invokeSweepToken W a b c d e f st))
                 = specificTokensToMonitor s3);
    [|unfold wp in Hi; destruct (invokeSweepToken W a b c d e f st) as [r4 s4]]
  end.
  { unfold invokeSweepToken, bind, emit, modify.
    match goal with |- context [sweepToken W ?a ?b ?c ?d ?e ?f ?st] =>
      pose proof (sweepToken_specific a b c d e f st) as Hp;
      destruct (sweepToken W a b c d e f st) as [[x|err] s4]
    end; exact Hp. }
  cbn [fst snd] in *. destruct Hi as [[x ->] _].
  apply wp_ret, wp_ret. split; [reflexivity|]. unfold specificTokens. rewrite Hs. exact H3.
Qed.

Lemma addAndMonitorSpecificToken_responses w t :
  preserves (unchanged (events is_response)) (addAndMonitorSpecificToken W w t).
Proof.
  unfold addAndMonitorSpecificToken, addSpecificTokenToMonitor, getTokenInfo, getTokenBalance,
    handleNewTokenDetection, isContractTradingEnabled, invokeSweepToken, sweepToken,
    sweepAcquire, sweepAttempt, sweepBody, sweepFailed, getOptimalGasPrice,
    monitorTransactionReceipt.
  quiet; try (apply broadcastSweeper_events; reflexivity).
  all: intros s0; unfold unchanged, modify; cbn [snd]; destruct (negb _); reflexivity.
Qed.

(** X19.  The route that adds a token to monitor answers 400 when the
    request names no token, and does nothing else.  Otherwise it sends
    one answer and never 500: it answers 200, and broadcasts after the
    answer, when the ledger describes the token and the wallet holds
    some of it, and it answers 400 when not.  In both cases the token
    is on the wallet's list afterwards: a request that was answered
    with a failure has still put the token under monitoring. *)
Theorem routeMonitorToken_lists_token (address t : string) (s : State) :
  t <> "" ->
  let r := routeMonitorToken W address (Some t) s in
  let answer :=
    if holds_token W (calls s) address t
    then EvSendJson 200 [ ("message", VStr "Token added to monitoring");
                          ("tokenAddress", VStr t); ("walletAddress", VStr address) ]
    else EvSendJson 400 [ ("message", VStr "Failed to add token to monitoring") ] in
  fst r = Return tt
  /\ events is_response (snd r) = events is_response s ++ [answer]
  /\ trace (snd r)
     = trace (snd (addAndMonitorSpecificToken W address t s))
       ++ answer
          :: (if holds_token W (calls s) address t
              then [EvBroadcast "token_monitoring_added"
                      [ ("walletAddress", VStr address); ("tokenAddress", VStr t) ] address]
              else [])
  /\ includes (specificTokens address (snd r)) (JS.toLowerCase t) = true
  /\ routeMonitorToken W address None s
     = (Return tt,
        with_trace (trace s ++ [EvSendJson 400 [ ("message", VStr "Token address is required") ]])
          s)
  /\ routeMonitorToken W address (Some "") s
     = (Return tt,
        with_trace (trace s ++ [EvSendJson 400 [ ("message", VStr "Token address is required") ]])
          s).
Proof.
  intros Ht r answer. subst r answer. destruct t as [|c t]; [contradiction|].
  pose proof (addAndMonitorSpecificToken_listed address (String c t) s) as Ha.
  pose proof (addAndMonitorSpecificToken_responses address (String c t) s) as He.
  unfold wp in Ha. unfold unchanged in He.
  unfold routeMonitorToken, try_catch, bind, emit, modify.
  destruct (addAndMonitorSpecificToken W address (String c t) s) as [r1 s1].
  cbn [fst snd] in Ha, He |- *. destruct Ha as [-> Hin].
  destruct (holds_token W (calls s) address (String c t)); cbn [fst snd].
  - split; [reflexivity|]. split.
    { unfold events in *. cbn [trace with_trace]. rewrite !filter_app_one, He. cbn.
      rewrite app_nil_r. reflexivity. }
    split; [cbn [trace with_trace]; rewrite <- app_assoc; reflexivity|].
    split; [exact Hin|]. split; reflexivity.
  - split; [reflexivity|]. split.
    { unfold events in *. cbn [trace with_trace]. rewrite !filter_app_one, He. reflexivity. }
    split; [reflexivity|]. split; [exact Hin|]. split; reflexivity.
Qed.

End MonitorRoute.

(** ** Examples *)

(** A process whose detector has the tables it starts with is well keyed. *)
Lemma well_keyed_fresh s :
  List.NoDup (asset_keys s) ->
  knownTokens s = initialKnownTokens -> specificTokensToMonitor s = ∅ ->
  well_keyed s.
Proof.
  intros Hn Hk Hs. unfold well_keyed. rewrite Hk, Hs. split; [exact Hn|]. split.
  - apply NoDup_ListNoDup, (bool_decide_unpack _). vm_compute. exact I.
  - split.
    + repeat constructor.
    + intros w l E. rewrite lookup_empty in E. discriminate E.
Qed.

(** A hundred LINK are worth 1450.00, above the wallet's minimum. *)
Lemma sweepToken_success_witness :
  fst (sweepToken demoLedger "0xw" LINK "LINK" "Chainlink" "100.000000" high demoState)
  = Return (Some "0xhash").
Proof.
  refine (proj1 (sweepToken_success demoLedger "0xw" LINK "LINK" "Chainlink" "100.000000"
                   high demoState demoConfig "0xhash" _ _ _ _ _)).
  - vm_compute. intros E. discriminate E.
  - vm_compute. reflexivity.
  - reflexivity.
  - vm_compute. reflexivity.
  - reflexivity.
Defined.

(** The same sweep on a ledger that rejects the transfer. *)
Lemma sweepToken_transfer_rejected_witness :
  fst (sweepToken demoRejecting "0xw" LINK "LINK" "Chainlink" "100.000000" high demoState)
  = Return None.
Proof.
  refine (proj1 (sweepToken_transfer_rejected demoRejecting "0xw" LINK "LINK" "Chainlink"
                   "100.000000" high demoState demoConfig "insufficient funds" _ _ _ _ _ _)).
  - vm_compute. intros E. discriminate E.
  - vm_compute. reflexivity.
  - reflexivity.
  - vm_compute. reflexivity.
  - reflexivity.
  - vm_compute. reflexivity.
Defined.

(** A wallet that the process has no configuration for. *)
Lemma sweepToken_inactive_wallet_witness :
  fst (sweepToken demoLedger "0xother" LINK "LINK" "Chainlink" "100.000000" high demoState)
  = Return None.
Proof.
  refine (proj1 (sweepToken_inactive_wallet demoLedger "0xother" LINK "LINK" "Chainlink"
                   "100.000000" high demoState _ _)).
  - vm_compute. intros E. discriminate E.
  - vm_compute. reflexivity.
Defined.

(** The stop of every wallet whose address starts with 0x. *)
Lemma emergencyStop_reopens_witness :
  fst (sweepAcquire "0xw" LINK
         (snd (emergencyStop (Some "0x") (snd (sweepAcquire "0xw" LINK demoState)))))
  = Return true.
Proof.
  refine (proj2 (proj2 (emergencyStop_reopens "0xw" LINK (Some "0x") demoState _))).
  vm_compute. reflexivity.
Defined.

(** The poll of a transfer that was mined and reverted. *)
Lemma checkReceipt_settles_witness :
  timeouts (snd (fireTimeout demoConfirming 0 demoPolling)) = delete 0 (timeouts demoPolling).
Proof.
  refine (proj1 (proj2 (checkReceipt_settles demoConfirming 0 demoPolling demoTimeout
                          demoReceipt _ _))).
  - vm_compute. reflexivity.
  - reflexivity.
Defined.

(** The wallet is stopped under an address in capital letters. *)
Lemma stopMonitoring_ends_at_next_tick_witness :
  intervals (snd (stopMonitoring "0XW" demoTick)) = intervals demoTick.
Proof.
  refine (proj1 (stopMonitoring_ends_at_next_tick demoLedger [] demoTick demoInterval "0XW"
                   _ _ _)).
  - vm_compute. reflexivity.
  - vm_compute. reflexivity.
  - vm_compute. reflexivity.
Defined.

(** A wallet that holds nothing. *)
Lemma scanWalletForTokens_nothing_held_witness :
  fst (scanWalletForTokens demoEmpty "0xw" demoState) = Return tt.
Proof.
  refine (f_equal fst (scanWalletForTokens_nothing_held demoEmpty "0xw" demoState _)).
  intros n tokenAddress. vm_compute. reflexivity.
Defined.

Lemma routeEmergencyStop_wallet_witness :
  fst (routeEmergencyStop (Some "0xw") demoTick)
  = Return (Json 200 "Emergency stop executed" None).
Proof.
  refine (proj1 (routeEmergencyStop_wallet demoLedger "0xw" demoTick _)).
  intros E. discriminate E.
Defined.

(** A fresh process, after the wallet is watched and its interval ticks. *)
Lemma one_record_per_token_witness :
  well_keyed (execAll demoLedger demoScans demoState).
Proof.
  refine (proj1 (one_record_per_token demoLedger demoScans demoState _)).
  apply well_keyed_fresh; [apply List.NoDup_nil|reflexivity|reflexivity].
Defined.

(** The wallet's LINK has its flag true: the scans sweep it no more. *)
Lemma flagged_token_not_swept_again_witness :
  sweeps_of "0xw" LINK (execAll demoLedger demoScans demoSettled)
  <= sweeps_of "0xw" LINK demoSettled.
Proof.
  refine (flagged_token_not_swept_again demoLedger "0xw" LINK demoScans demoSettled
            demoFlagged _ _ _ _ _).
  - apply well_keyed_fresh; [|reflexivity|reflexivity].
    apply List.NoDup_cons; [intros []|apply List.NoDup_nil].
  - left. reflexivity.
  - vm_compute. reflexivity.
  - reflexivity.
  - reflexivity.
Defined.

(** The wallet holds nothing: the answer is 400, and the token is listed. *)
Lemma routeMonitorToken_lists_token_witness :
  includes (specificTokens "0xw" (snd (routeMonitorToken demoEmpty "0xw" (Some LINK) demoState)))
    (JS.toLowerCase LINK) = true.
Proof.
  refine (proj1 (proj2 (proj2 (proj2
            (routeMonitorToken_lists_token demoEmpty "0xw" LINK demoState _))))).
  intros E. discriminate E.
Defined.
